(** * Substack search scraper: extraction-and-orchestration pipeline

    A shallow embedding of the core of [substack_scraper] (rate limiter,
    browser manager, scroll handler, data extractor, post fetcher, typed
    models and the search orchestrator), followed by the properties of
    the specification that were checked against it.

    Conventions.
    - Python [int] is [Z]; list indices and call counters are [nat].
    - [dict[str, Any]] is [gmap string value]; the dictionaries that the
      pipeline mutates in place ([post["keyword"] = ...],
      [post.update(content)]) live in a store [heap] and the lists passed
      around hold their addresses, so that two slots of a list may denote
      the same object.
    - A Python exception is the [Raise] outcome of [result]; the
      [try/except Exception] blocks of the source are the [catch]
      combinators below.
    - Wall-clock readings ([datetime.utcnow()], [time.time()]) are inputs:
      integers counted in one fixed unit. *)

From stdpp Require Import gmap strings list fin_maps sorting.
From Stdlib Require Import ZArith QArith Lia.

#[global] Close Scope Q_scope.

Set Warnings "-register-all,-clear-no-such-hyp".

(** ** Python prelude: exceptions, values, store *)

Inductive exn :=
| IndexError
| TypeError
| AttributeError
| ValidationError
| PlaywrightError.

Inductive result (A : Type) :=
| Ok (a : A)
| Raise (e : exn).

Arguments Ok {A} a.
Arguments Raise {A} e.

Definition bind {A B : Type} (m : result A) (k : A -> result B) : result B :=
  match m with
  | Ok a => k a
  | Raise e => Raise e
  end.

Notation "x <- m ;; k" := (bind m (fun x => k))
  (at level 100, m at next level, right associativity,
   format "x  <-  m  ;;  '//' k").

(** [try: m except Exception: return d] *)
Definition catch {A : Type} (m : result A) (d : A) : A :=
  match m with
  | Ok a => a
  | Raise _ => d
  end.

Definition is_ok {A : Type} (m : result A) : bool :=
  match m with
  | Ok _ => true
  | Raise _ => false
  end.

(** [Any]: the values that flow through the pipeline (parsed JSON, plus
    [datetime] objects). *)
Inductive value :=
| VNone
| VBool (b : bool)
| VInt (z : Z)
| VFloat (q : Q)
| VStr (s : string)
| VDatetime (t : Z)
| VList (l : list value)
| VDict (d : gmap string value).

(** [dict[str, Any]] *)
Abbreviation record := (gmap string value).

(** Truth value of an object ([if x:], [not x], [x or y]). *)
Definition truthy (v : value) : bool :=
  match v with
  | VNone => false
  | VBool b => b
  | VInt z => negb (z =? 0)%Z
  | VFloat q => negb (Qeq_bool q 0%Q)
  | VStr s => negb (String.eqb s "")
  | VDatetime _ => true
  | VList l => negb (bool_decide (length l = 0))
  | VDict d => negb (bool_decide (size d = 0))
  end.

(** [x or y] *)
Definition py_or (x y : value) : value := if truthy x then x else y.

(** [d.get(k, dflt)] on a dictionary *)
Definition get (d : record) (k : string) (dflt : value) : value :=
  default dflt (d !! k).

(** [v.get(k, dflt)] on an arbitrary object: only dictionaries have [get]. *)
Definition py_get (v : value) (k : string) (dflt : value) : result value :=
  match v with
  | VDict d => Ok (get d k dflt)
  | _ => Raise AttributeError
  end.

(** [for x in v]: the items the loop visits. *)
Definition py_iter (v : value) : result (list value) :=
  match v with
  | VList l => Ok l
  | VDict d => Ok ((fun kv => VStr kv.1) <$> map_to_list d)
  | VStr s => Ok ((fun c => VStr (String c "")) <$> String.list_ascii_of_string s)
  | _ => Raise TypeError
  end.

(** [[f(x) for x in l]] where [f] may raise *)
Fixpoint mapM {A B : Type} (f : A -> result B) (l : list A) : result (list B) :=
  match l with
  | [] => Ok []
  | x :: l' => y <- f x ;; ys <- mapM f l' ;; Ok (y :: ys)
  end.

(** The store of the dictionaries that are mutated in place, by address. *)
Abbreviation heap := (gmap nat record).

(** The dictionary at an address. *)
Definition deref (h : heap) (post : nat) : record := default ∅ (h !! post).

(** [post[k] = v] *)
Definition setitem (post : nat) (k : string) (v : value) (h : heap) : heap :=
  alter (fun r : record => <[k := v]> r) post h.

(** [post.update(content)]: the keys of [content] win. *)
Definition update (post : nat) (content : record) (h : heap) : heap :=
  alter (fun r : record => content ∪ r) post h.

(** [needle in haystack] on strings *)
Definition contains (needle haystack : string) : bool :=
  bool_decide (is_Some (String.index 0 needle haystack)).

(** ** utils/rate_limiter.py *)

Module RateLimiter.

#[local] Open Scope Z_scope.

(** [self.max_requests], [self.window], [self.requests] (the deque, oldest
    entry first). *)
Record t := mk {
  max_requests : Z;
  window : Z;
  requests : list Z
}.

Definition init (max_requests window_seconds : Z) : t :=
  mk max_requests window_seconds [].

Definition set_requests (rl : t) (q : list Z) : t :=
  mk (max_requests rl) (window rl) q.

(** [while self.requests and self.requests[0] < bound: self.requests.popleft()] *)
Fixpoint evict (bound : Z) (q : list Z) : list Z :=
  match q with
  | [] => []
  | r :: q' => if r <? bound then evict bound q' else q
  end.

(** The instant until which [acquire] sleeps, when it sleeps:
    [wait_until = oldest + self.window], guarded by [wait_seconds > 0]. *)
Definition wait_until (now : Z) (rl : t) : option Z :=
  let q := evict (now - window rl) (requests rl) in
  if max_requests rl <=? Z.of_nat (length q) then
    match q with
    | [] => None
    | oldest :: _ =>
        if 0 <? oldest + window rl - now then Some (oldest + window rl) else None
    end
  else None.

(** [acquire]: [now] is the reading of line 38, [now'] the reading of line
    64 (after the sleep, if any).  [self.requests[0]] on an empty deque
    raises [IndexError]. *)
Definition acquire (now now' : Z) (rl : t) : result t :=
  let q := evict (now - window rl) (requests rl) in
  if max_requests rl <=? Z.of_nat (length q) then
    match q with
    | [] => Raise IndexError
    | oldest :: rest =>
        let wait_seconds := oldest + window rl - now in
        if 0 <? wait_seconds
        then Ok (set_requests rl (rest ++ [now']))
        else Ok (set_requests rl (q ++ [now']))
    end
  else Ok (set_requests rl (q ++ [now'])).

(** [try_acquire]: the non-blocking sibling of [acquire]. *)
Definition try_acquire (now : Z) (rl : t) : bool * t :=
  let q := evict (now - window rl) (requests rl) in
  if Z.of_nat (length q) <? max_requests rl
  then (true, set_requests rl (q ++ [now]))
  else (false, set_requests rl q).

(** [get_remaining]: [active_requests] counts the entries [r >= now - window]. *)
Definition active_requests (now : Z) (rl : t) : Z :=
  Z.of_nat (length (filter (fun r => now - window rl <= r) (requests rl))).

Definition get_remaining (now : Z) (rl : t) : Z :=
  Z.max 0 (max_requests rl - active_requests now rl).

Definition reset (rl : t) : t := set_requests rl [].

(** A sequence of [acquire] calls, each given by its two clock readings.
    The result is the limiter after the calls and the timestamps recorded,
    in order; a call that raises records nothing. *)
Fixpoint run (calls : list (Z * Z)) (rl : t) : t * list Z :=
  match calls with
  | [] => (rl, [])
  | (now, now') :: cs =>
      match acquire now now' rl with
      | Ok rl' => let '(r, h) := run cs rl' in (r, now' :: h)
      | Raise _ => run cs rl
      end
  end.

(** What the clock guarantees: readings never go back, and a sleep lasts at
    least as long as requested. *)
Fixpoint clock_ok (clk : Z) (calls : list (Z * Z)) (rl : t) : Prop :=
  match calls with
  | [] => True
  | (now, now') :: cs =>
      clk <= now /\ now <= now' /\
      match wait_until now rl with
      | Some w => w <= now'
      | None => True
      end /\
      clock_ok now' cs (catch (acquire now now' rl) rl)
  end.

(** The limit is reached and the oldest entry expires at this very instant:
    neither evicted (strict [<]) nor waited for ([wait_seconds > 0] fails). *)
Definition on_boundary (now : Z) (rl : t) : bool :=
  let q := evict (now - window rl) (requests rl) in
  (max_requests rl <=? Z.of_nat (length q)) &&
  match q with
  | [] => false
  | oldest :: _ => negb (0 <? oldest + window rl - now)
  end.

Fixpoint off_boundary (calls : list (Z * Z)) (rl : t) : Prop :=
  match calls with
  | [] => True
  | (now, now') :: cs =>
      on_boundary now rl = false /\
      off_boundary cs (catch (acquire now now' rl) rl)
  end.

(** Timestamps of [h] inside the window [(t, t + w]]. *)
Definition window_count (t w : Z) (h : list Z) : nat :=
  length (filter (fun r => t < r ∧ r <= t + w) h).

End RateLimiter.

(** ** scraper/scroll_handler.py *)

Module ScrollHandler.

#[local] Open Scope Z_scope.

(** The page as the scroll loop sees it: the value returned by the [k]-th
    call of the count probe, and the outcome of the [k]-th scroll (lines
    67-82: [scrollTo], the delay, the swallowed network-idle wait, then the
    reading of [document.body.scrollHeight]); a [page.evaluate] that raises
    is not caught by the loop. *)
Record env := mk_env {
  get_current_count : nat -> Z;
  scroll_height : nat -> result Z
}.

(** The local variables of [scroll_to_load_results], and the number of
    probe calls made so far. *)
Record locals := mk_locals {
  last_height : Z;
  last_count : Z;
  no_change_iterations : Z;
  scroll_count : nat;
  probe_calls : nat
}.

Definition init : locals := mk_locals 0 0 0 0 0.

(** The [while True] loop.  [None]: the loop is still running when the fuel
    is spent.  [Some (Ok st)]: a [break] was reached in state [st]. *)
Fixpoint loop (fuel : nat) (max_no_change_iterations target_count : Z)
    (e : env) (st : locals) : option (result locals) :=
  match fuel with
  | O => None
  | S fuel' =>
      let current_count := get_current_count e (probe_calls st) in
      if target_count <=? current_count then
        Some (Ok (mk_locals (last_height st) (last_count st)
                    (no_change_iterations st) (scroll_count st)
                    (S (probe_calls st))))
      else
        match scroll_height e (scroll_count st) with
        | Raise ex => Some (Raise ex)
        | Ok new_height =>
            let new_count := get_current_count e (S (probe_calls st)) in
            let scrolls := S (scroll_count st) in
            let calls := S (S (probe_calls st)) in
            if (new_height =? last_height st) && (new_count =? last_count st) then
              let n := no_change_iterations st + 1 in
              if max_no_change_iterations <=? n then
                Some (Ok (mk_locals (last_height st) (last_count st) n scrolls calls))
              else
                loop fuel' max_no_change_iterations target_count e
                  (mk_locals new_height new_count n scrolls calls)
            else
              loop fuel' max_no_change_iterations target_count e
                (mk_locals new_height new_count 0 scrolls calls)
        end
  end.

(** [scroll_to_load_results]: the loop, then [return await get_current_count()].
    The final state is returned along with the count. *)
Definition scroll_to_load_results (fuel : nat)
    (max_no_change_iterations target_count : Z) (e : env)
    : option (result (Z * locals)) :=
  match loop fuel max_no_change_iterations target_count e init with
  | None => None
  | Some (Raise ex) => Some (Raise ex)
  | Some (Ok st) => Some (Ok (get_current_count e (probe_calls st), st))
  end.

End ScrollHandler.

(** ** scraper/browser.py *)

Module BrowserManager.

(** The calls into Playwright made by [start] and [stop]. *)
Inductive call :=
| PlaywrightStart
| ChromiumLaunch
| BrowserClose
| PlaywrightStop.

(** The outside world: the calls made so far, in order.  Whether the [n]-th
    call raises is decided by an oracle [fails : nat -> bool]. *)
Definition world := list call.

(** [self._playwright], [self._browser]: the handle is the number of the
    call that created it. *)
Record t := mk {
  _playwright : option nat;
  _browser : option nat
}.

Definition init : t := mk None None.

(** A method of the manager: outcome, manager and world afterwards.  An
    assignment made before an exception is raised stays made. *)
Definition method := t -> world -> result unit * t * world.

Definition start (fails : nat -> bool) : method := fun m w =>
  match _browser m with
  | Some _ => (Ok tt, m, w)
  | None =>
      let n1 := length w in
      let w1 := w ++ [PlaywrightStart] in
      if fails n1 then (Raise PlaywrightError, m, w1)
      else
        let m1 := mk (Some n1) (_browser m) in
        let n2 := length w1 in
        let w2 := w1 ++ [ChromiumLaunch] in
        if fails n2 then (Raise PlaywrightError, m1, w2)
        else (Ok tt, mk (_playwright m1) (Some n2), w2)
  end.

Definition stop (fails : nat -> bool) : method := fun m w =>
  let r1 :=
    match _browser m with
    | Some _ =>
        let w1 := w ++ [BrowserClose] in
        if fails (length w) then (Raise PlaywrightError, m, w1)
        else (Ok tt, mk (_playwright m) None, w1)
    | None => (Ok tt, m, w)
    end in
  match r1 with
  | (Raise e, m1, w1) => (Raise e, m1, w1)
  | (Ok _, m1, w1) =>
      match _playwright m1 with
      | Some _ =>
          let w2 := w1 ++ [PlaywrightStop] in
          if fails (length w1) then (Raise PlaywrightError, m1, w2)
          else (Ok tt, mk None (_browser m1), w2)
      | None => (Ok tt, m1, w1)
      end
  end.

(** [await a(); await b()]: [b] runs only if [a] returned. *)
Definition seq (a b : method) : method := fun m w =>
  match a m w with
  | (Raise e, m1, w1) => (Raise e, m1, w1)
  | (Ok _, m1, w1) => b m1 w1
  end.

Definition running (m : t) : Prop := is_Some (_browser m).
Definition stopped (m : t) : Prop := _browser m = None /\ _playwright m = None.

End BrowserManager.

(** ** models/post.py, models/search_result.py *)

Module Models.

(** Field annotations, as written in the class bodies. *)
Inductive ftype :=
| TInt
| TStr
| TBool
| TFloat
| TDatetime
| TAny
| TOpt (t : ftype)
| TUnion (a b : ftype)
| TList (t : ftype)
| TDict (t : ftype)
| TModel (name : string).

Inductive fdefault :=
| Required
| Default (v : value)
| DefaultUtcnow.

Definition field : Type := string * ftype * fdefault.

(** [name: t | None = None], [name: bool = b], [name: list[t] = []] *)
Definition opt (name : string) (t : ftype) : field := (name, TOpt t, Default VNone).
Definition flag (name : string) (b : bool) : field := (name, TBool, Default (VBool b)).
Definition many (name : string) (t : ftype) : field := (name, TList t, Default (VList [])).

(** [class SubstackPost(BaseModel)], [model_config = ConfigDict(extra="allow")] *)
Definition SubstackPost_fields : list field := [
  ("keyword", TStr, Required);
  ("id", TInt, Required);
  ("publication_id", TInt, Required);
  ("type", TStr, Default (VStr "newsletter"));
  ("slug", TStr, Required);
  ("title", TStr, Required);
  opt "social_title" TStr;
  opt "search_engine_title" TStr;
  opt "search_engine_description" TStr;
  opt "subtitle" TStr;
  opt "description" TStr;
  opt "truncated_body_text" TStr;
  opt "body_json" TAny;
  opt "body_html" TStr;
  opt "wordcount" TInt;
  flag "editor_v2" false;
  opt "cover_image" TStr;
  flag "cover_image_is_square" false;
  flag "cover_image_is_explicit" false;
  opt "coverImagePalette" (TModel "CoverImagePalette");
  ("canonical_url", TStr, Required);
  ("post_date", TUnion TDatetime TStr, Required);
  ("audience", TStr, Default (VStr "everyone"));
  ("write_comment_permissions", TStr, Default (VStr "everyone"));
  flag "should_send_free_preview" false;
  flag "free_unlock_required" false;
  opt "default_comment_sort" TStr;
  flag "teaser_post_eligible" true;
  opt "section_id" TInt;
  opt "section_slug" TStr;
  opt "section_name" TStr;
  flag "is_section_pinned" false;
  opt "position" TInt;
  many "top_exclusions" TAny;
  many "pins" TInt;
  opt "reactions" (TDict TInt);
  ("restacks", TInt, Default (VInt 0));
  opt "reaction" TAny;
  ("reaction_count", TInt, Default (VInt 0));
  ("comment_count", TInt, Default (VInt 0));
  ("child_comment_count", TInt, Default (VInt 0));
  opt "restacked_post_id" TInt;
  opt "restacked_post_slug" TStr;
  opt "restacked_pub_name" TStr;
  opt "restacked_pub_logo_url" TStr;
  opt "podcast_duration" TFloat;
  opt "video_upload_id" TStr;
  opt "podcast_upload_id" TStr;
  opt "podcast_url" TStr;
  opt "videoUpload" TAny;
  opt "podcastFields" (TModel "PodcastFields");
  opt "podcast_preview_upload_id" TStr;
  opt "podcastUpload" TAny;
  opt "podcastPreviewUpload" TAny;
  opt "voiceover_upload_id" TStr;
  opt "voiceoverUpload" (TModel "VoiceoverUpload");
  flag "has_voiceover" false;
  many "postTags" (TModel "PostTag");
  many "publishedBylines" (TModel "PublishedByline");
  many "audio_items" (TModel "AudioItem");
  many "postCountryBlocks" TAny;
  opt "headlineTest" TAny;
  flag "is_geoblocked" false;
  flag "hasCashtag" false;
  ("scrapedAt", TDatetime, DefaultUtcnow)
].

(** Validation of one value against one annotation is the library's
    (pydantic): [Some v'] is the coerced value, [None] a validation error. *)
Definition validator : Type := ftype -> value -> option value.

(** The value of one field of a model built from keyword arguments: a
    value that is present is validated; a missing one takes its default,
    and is an error when the field is required.  [now] is the reading of
    [datetime.utcnow()]. *)
Definition field_value (validate : validator) (now : Z) (kwargs : record)
    (f : field) : result value :=
  let '(name, t, dflt) := f in
  match kwargs !! name with
  | Some v =>
      match validate t v with
      | Some v' => Ok v'
      | None => Raise ValidationError
      end
  | None =>
      match dflt with
      | Required => Raise ValidationError
      | Default d => Ok d
      | DefaultUtcnow => Ok (VDatetime now)
      end
  end.

Definition init_field (validate : validator) (now : Z) (kwargs : record)
    (f : field) (self : record) : result record :=
  v <- field_value validate now kwargs f ;; Ok (<[f.1.1 := v]> self).

(** A model built from the keyword arguments [kwargs], with
    [extra="allow"]: the keys that are not declared
    are kept as they are. *)
Definition construct (validate : validator) (now : Z) (fields : list field)
    (kwargs : record) : result record :=
  foldl (fun acc f => self <- acc ;; init_field validate now kwargs f self)
        (Ok kwargs) fields.

(** [SubstackPost] called with the entries of [kwargs] as keyword
    arguments: a post is the dictionary of its attributes. *)
Definition SubstackPost (validate : validator) (now : Z) (kwargs : record)
    : result record :=
  construct validate now SubstackPost_fields kwargs.

(** [class SearchResult(BaseModel)]; [duration_seconds] is counted in
    hundredths of a second. *)
Record SearchResult := mk_result {
  keyword : string;
  total_results : Z;
  posts : list record;
  scraped_at : Z;
  duration_seconds : Z
}.

(** A validator that accepts exactly the values of the annotated type and
    leaves them unchanged (no coercion). *)
Fixpoint conforms (t : ftype) (v : value) : bool :=
  match t with
  | TInt => match v with VInt _ => true | _ => false end
  | TStr => match v with VStr _ => true | _ => false end
  | TBool => match v with VBool _ => true | _ => false end
  | TFloat => match v with VFloat _ => true | _ => false end
  | TDatetime => match v with VDatetime _ => true | _ => false end
  | TAny => true
  | TOpt t' => match v with VNone => true | _ => conforms t' v end
  | TUnion a b => conforms a v || conforms b v
  | TList t' => match v with VList l => forallb (conforms t') l | _ => false end
  | TDict t' =>
      match v with
      | VDict d => forallb (fun kv => conforms t' kv.2) (map_to_list d)
      | _ => false
      end
  | TModel _ => match v with VDict _ => true | _ => false end
  end.

Definition exact_types : validator :=
  fun t v => if conforms t v then Some v else None.

End Models.

(** ** scraper/data_extractor.py *)

Module DataExtractor.

(** What the rendered page answers to the scripts evaluated by the four
    strategies.  [Raise]: [page.evaluate] (or [json.loads] on its result)
    raised.  For the two embedded-JSON strategies, [Ok None] is an absent
    (or empty) payload and [Ok (Some data)] the parsed payload. *)
Record page := mk_page {
  react_state : result (list value);
  next_data : result (option value);
  preloads : result (option value);
  dom_cards : result (list value)
}.

(** [_extract_from_react_state] *)
Definition _extract_from_react_state (p : page) : value :=
  catch (posts <- react_state p ;;
         Ok (if truthy (VList posts) then VList posts else VList []))
        (VList []).

(** The loop over [dehydratedState.queries]: [posts] is assigned at each
    query whose data is a dictionary, and the loop stops at the first
    truthy one. *)
Fixpoint scan_queries (queries : list value) (posts : value) : result value :=
  match queries with
  | [] => Ok posts
  | query :: qs =>
      state <- py_get query "state" (VDict ∅) ;;
      query_data <- py_get state "data" (VDict ∅) ;;
      match query_data with
      | VDict d =>
          let posts' := get d "posts" (VList []) in
          if truthy posts' then Ok posts' else scan_queries qs posts'
      | _ => scan_queries qs posts
      end
  end.

(** [_extract_from_next_data] *)
Definition _extract_from_next_data (p : page) : value :=
  catch (script <- next_data p ;;
         match script with
         | None => Ok (VList [])
         | Some data =>
             props <- py_get data "props" (VDict ∅) ;;
             page_props <- py_get props "pageProps" (VDict ∅) ;;
             posts <- py_get page_props "posts" (VList []) ;;
             posts <- (if truthy posts then Ok posts
                       else py_get page_props "results" (VList [])) ;;
             posts <- (if truthy posts then Ok posts
                       else search_data <- py_get page_props "searchData" (VDict ∅) ;;
                            py_get search_data "posts" (VList [])) ;;
             posts <- (if truthy posts then Ok posts
                       else dehydrated <- py_get page_props "dehydratedState" (VDict ∅) ;;
                            queries <- py_get dehydrated "queries" (VList []) ;;
                            qs <- py_iter queries ;;
                            scan_queries qs posts) ;;
             Ok (if truthy posts then posts else VList [])
         end)
        (VList []).

(** [_extract_from_preloads] *)
Definition _extract_from_preloads (p : page) : value :=
  catch (payload <- preloads p ;;
         match payload with
         | None => Ok (VList [])
         | Some data =>
             posts <- py_get data "posts" (VList []) ;;
             Ok (if truthy posts then posts else VList [])
         end)
        (VList []).

(** [_extract_from_dom] *)
Definition _extract_from_dom (p : page) : value :=
  catch (posts <- dom_cards p ;; Ok (VList posts)) (VList []).

Inductive strategy := ReactState | NextData | Preloads | Dom.

Definition run_strategy (s : strategy) (p : page) : value :=
  match s with
  | ReactState => _extract_from_react_state p
  | NextData => _extract_from_next_data p
  | Preloads => _extract_from_preloads p
  | Dom => _extract_from_dom p
  end.

(** [if not posts: posts = <strategy s>], with the strategies invoked so far
    recorded next to [posts]. *)
Definition fallback (s : strategy) (p : page) (acc : list strategy * value)
    : list strategy * value :=
  if truthy acc.2 then acc else (acc.1 ++ [s], run_strategy s p).

(** Lines 33-46 of [extract_posts]. *)
Definition chain (p : page) : list strategy * value :=
  fallback Dom p
    (fallback Preloads p
      (fallback NextData p ([ReactState], run_strategy ReactState p))).

(** [post["keyword"] = keyword; post["scrapedAt"] = scraped_at]: item
    assignment with a string key is only supported by a dictionary. *)
Definition stamp (keyword scraped_at : string) (post : value) : result record :=
  match post with
  | VDict d => Ok (<["scrapedAt" := VStr scraped_at]> (<["keyword" := VStr keyword]> d))
  | _ => Raise TypeError
  end.

(** [extract_posts]: the strategies invoked, and the outcome.  [scraped_at]
    is [datetime.utcnow().isoformat() + "Z"]. *)
Definition extract_posts (p : page) (keyword scraped_at : string)
    : list strategy * result (list record) :=
  let '(invoked, posts) := chain p in
  (invoked, items <- py_iter posts ;; mapM (stamp keyword scraped_at) items).

(** [get_post_count]: [count] is what [page.evaluate] answered. *)
Definition get_post_count (count : result Z) : Z := catch count 0%Z.

End DataExtractor.

(** ** scraper/post_fetcher.py *)

Module PostFetcher.

(** What a post page answers: the embedded [__NEXT_DATA__] payload
    ([Raise] when [page.evaluate] or [json.loads] raised, [Ok None] when
    the script is absent or empty), and the inner HTML of the first body
    container found by the DOM fallback ([VNone] when there is none). *)
Record post_page := mk_post_page {
  next_data : result (option value);
  body_container : result value
}.

(** [for key in ["reactions", ...]: if key in post and post[key]: content[key] = post[key]] *)
Definition copy_if_set (post : record) (key : string) (content : record) : record :=
  match post !! key with
  | Some v => if truthy v then <[key := v]> content else content
  | None => content
  end.

Definition secondary_keys : list string :=
  ["reactions"; "comment_count"; "restacks"; "audio_items"].

(** The [try] block of [_extract_content].  Nothing is assigned to
    [content] before the last statement that can raise ([post.get] on a
    value that is not a dictionary), so an exception leaves it empty. *)
Definition content_of_next_data (pg : post_page) : result record :=
  script <- next_data pg ;;
  match script with
  | None => Ok ∅
  | Some data =>
      props <- py_get data "props" (VDict ∅) ;;
      page_props <- py_get props "pageProps" (VDict ∅) ;;
      post <- py_get page_props "post" (VDict ∅) ;;
      if truthy post then
        body_html <- py_get post "body_html" VNone ;;
        body_json <- py_get post "body_json" VNone ;;
        wordcount <- py_get post "wordcount" VNone ;;
        match post with
        | VDict d =>
            Ok (foldl (fun content key => copy_if_set d key content)
                  (<["wordcount" := wordcount]>
                     (<["body_json" := body_json]>
                        (<["body_html" := body_html]> ∅)))
                  secondary_keys)
        | _ => Raise AttributeError
        end
      else Ok ∅
  end.

(** [_extract_content] *)
Definition _extract_content (pg : post_page) : record :=
  let content := catch (content_of_next_data pg) ∅ in
  if truthy (get content "body_html" VNone) then content
  else
    match body_container pg with
    | Ok body_html => if truthy body_html then <["body_html" := body_html]> content else content
    | Raise _ => content
    end.

(** [fetch_post_content]: [load] is the outcome of opening the page and
    navigating to the permalink; any exception yields the empty dictionary. *)
Definition fetch_post_content (load : result post_page) : record :=
  catch (pg <- load ;; Ok (_extract_content pg)) ∅.

(** *** [enrich_posts]

    The tasks [fetch_one(posts[i])] run interleaved.  A task is observed at
    two instants: when it enters the semaphore and reads the permalink
    ([Start i]), and when its fetch completes and it merges the content
    ([Finish i]).  Tasks enter in index order and at most [max_concurrent]
    are inside the semaphore at once; completions come in any order. *)
Inductive event := Start (i : nat) | Finish (i : nat).

Record pool := mk_pool {
  store : heap;
  started : nat;
  running : gmap nat value;
  returned : gmap nat (result nat)
}.

Section enrich.

(** [self.fetch_post_content] as called by task [i] on the permalink, and
    the arguments of [enrich_posts]. *)
Variable fetch : nat -> value -> result record.
Variable posts : list nat.
Variable max_concurrent : Z.

(** One step of [fetch_one]; [None]: the event cannot happen in that state. *)
Definition step (ev : event) (p : pool) : option pool :=
  match ev with
  | Start i =>
      if bool_decide (i = started p) && (Z.of_nat (size (running p)) <? max_concurrent)%Z
      then
        post ← posts !! i;
        r ← store p !! post;
        let url := get r "canonical_url" VNone in
        if truthy url
        then Some (mk_pool (store p) (S (started p)) (<[i := url]> (running p)) (returned p))
        else Some (mk_pool (store p) (S (started p)) (running p) (<[i := Ok post]> (returned p)))
      else None
  | Finish i =>
      url ← running p !! i;
      post ← posts !! i;
      match fetch i url with
      | Ok content =>
          Some (mk_pool (update post content (store p)) (started p)
                  (delete i (running p)) (<[i := Ok post]> (returned p)))
      | Raise e =>
          Some (mk_pool (store p) (started p)
                  (delete i (running p)) (<[i := Raise e]> (returned p)))
      end
  end.

Fixpoint steps (sched : list event) (p : pool) : option pool :=
  match sched with
  | [] => Some p
  | ev :: sched' => p' ← step ev p; steps sched' p'
  end.

(** The loop after [asyncio.gather(..., return_exceptions=True)]: a slot
    that holds an exception gets [posts[i]], the others what the task
    returned.  [None] while some task has not returned. *)
Definition collect (p : pool) : option (list nat) :=
  if bool_decide (started p = length posts) && bool_decide (size (running p) = 0)
  then Some (imap (fun i post =>
                     match returned p !! i with
                     | Some (Ok q) => q
                     | _ => post
                     end) posts)
  else None.

(** [enrich_posts] along the schedule [sched]: the list returned and the
    store afterwards.  [None]: no list is returned, because
    [asyncio.Semaphore] rejects a negative [max_concurrent], or because
    [sched] is not a complete run of the tasks. *)
Definition enrich_posts (fetch_content : bool) (sched : list event) (h : heap)
    : option (list nat * heap) :=
  if negb fetch_content then Some (posts, h)
  else if (max_concurrent <? 0)%Z then None
  else
    p ← steps sched (mk_pool h 0 ∅ ∅);
    out ← collect p;
    Some (out, store p).

End enrich.

(** The schedule in which every task completes before the next one
    enters; a task whose record has no permalink returns as it enters. *)
Fixpoint one_by_one (i : nat) (posts : list nat) (h : heap) : list event :=
  match posts with
  | [] => []
  | post :: rest =>
      (if truthy (get (deref h post) "canonical_url" VNone)
       then [Start i; Finish i] else [Start i])
      ++ one_by_one (S i) rest h
  end.

End PostFetcher.

(** ** scraper/search_scraper.py *)

Module SearchScraper.

Import Models.

(** A network response as the listener sees it: [response.url], the
    [content-type] header if any, and the outcome of [response.json()]. *)
Record response := mk_response {
  url : string;
  content_type : option string;
  json : result value
}.

(** [handle_response], applied to the buffer [captured_posts]. *)
Definition handle_response (captured_posts : list record) (r : response)
    : list record :=
  if contains "api" (url r) || contains "search" (url r) then
    if contains "json" (default "" (content_type r)) then
      match json r with
      | Raise _ => captured_posts
      | Ok data =>
          let posts :=
            match data with
            | VList _ => data
            | VDict d =>
                py_or (py_or (get d "posts" VNone) (get d "results" VNone))
                      (get d "items" VNone)
            | _ => VNone
            end in
          match posts with
          | VList l =>
              captured_posts ++
              omap (fun post =>
                      match post with
                      | VDict d => if truthy (get d "id" VNone) then Some d else None
                      | _ => None
                      end) l
          | _ => captured_posts
          end
      end
    else captured_posts
  else captured_posts.

(** Everything one call of [search] reads from outside, in the order of
    the source. *)
Record env := mk_env {
  start_time : Z;                          (* [time.time()], line 83 *)
  acquire_now : Z;                         (* the two readings of [acquire] *)
  acquire_now' : Z;
  open_page : result unit;                 (* [new_context()], [new_page()] *)
  early_responses : list response;         (* handled before line 153 *)
  count_eval : nat -> result Z;            (* the count script, call by call *)
  scroll_height : nat -> result Z;         (* see [ScrollHandler.env] *)
  late_responses : list response;          (* handled during lines 154-158 *)
  page : DataExtractor.page;               (* the page when line 165 runs *)
  extract_scraped_at : string;             (* timestamp taken by [extract_posts] *)
  scraped_at_iso : string;                 (* timestamp of line 168 *)
  close_page : result unit;                (* [page.close()], leaving the context *)
  load_post : nat -> result PostFetcher.post_page;
  schedule : list PostFetcher.event;       (* interleaving of the enrichment *)
  validate : validator;
  model_now : Z;                           (* [datetime.utcnow()] in model defaults *)
  end_time : Z;                            (* [time.time()], line 203 *)
  result_scraped_at : Z                    (* [datetime.utcnow()], line 209 *)
}.

(** [l[:stop]] *)
Definition slice_to {A : Type} (l : list A) (stop : Z) : list A :=
  if (0 <=? stop)%Z then take (Z.to_nat stop) l
  else take (length l - Z.to_nat (- stop)) l.

(** [round(x, 2)], for [x] counted in millionths and the result in
    hundredths. *)
Definition round2 (x : Z) : Z :=
  let q := (x / 10000)%Z in
  let r := (x mod 10000)%Z in
  if (2 * r <? 10000)%Z then q
  else if (10000 <? 2 * r)%Z then (q + 1)%Z
  else if Z.even q then q else (q + 1)%Z.

(** Lines 169-171. *)
Definition stamp_all (keyword scraped_at : string) (raw_posts : list nat)
    (h : heap) : heap :=
  foldl (fun h post =>
           setitem post "scrapedAt" (VStr scraped_at)
             (setitem post "keyword" (VStr keyword) h))
        h raw_posts.

(** [_create_minimal_post] *)
Definition _create_minimal_post (validate : validator) (now : Z)
    (raw_post : record) (keyword : string) : result record :=
  SubstackPost validate now
    (<["keyword" := VStr keyword]>
    (<["id" := get raw_post "id" (VInt 0)]>
    (<["publication_id" := get raw_post "publication_id" (VInt 0)]>
    (<["title" := get raw_post "title" (VStr "Unknown")]>
    (<["slug" := get raw_post "slug" (VStr "")]>
    (<["canonical_url" := get raw_post "canonical_url" (VStr "")]>
    (<["post_date" := get raw_post "post_date" (VDatetime now)]>
    (<["type" := get raw_post "type" (VStr "newsletter")]>
    (<["audience" := get raw_post "audience" (VStr "everyone")]> ∅))))))))).

(** Lines 187-201, for one record: the post appended, if any. *)
Definition to_model (validate : validator) (now : Z) (keyword : string)
    (raw_post : record) : option record :=
  match SubstackPost validate now raw_post with
  | Ok post => Some post
  | Raise _ =>
      match _create_minimal_post validate now raw_post keyword with
      | Ok minimal_post => Some minimal_post
      | Raise _ => None
      end
  end.

(** The count probe handed to the scroll handler; call 0 of the count
    script is [initial_count]. *)
Definition scroll_env (e : env) : ScrollHandler.env :=
  ScrollHandler.mk_env
    (fun k => DataExtractor.get_post_count (count_eval e (S k)))
    (scroll_height e).

(** Lines 153-159: [captured_posts] after them.  [None]: the scroll loop
    does not come back within [fuel] iterations. *)
Definition grow (fuel : nat) (max_no_change_iterations limit : Z) (e : env)
    : option (result (list record)) :=
  let captured_posts := foldl handle_response [] (early_responses e) in
  if (Z.of_nat (length captured_posts) <? limit)%Z then
    match ScrollHandler.scroll_to_load_results fuel max_no_change_iterations
            limit (scroll_env e) with
    | None => None
    | Some (Raise ex) => Some (Raise ex)
    | Some (Ok _) => Some (Ok (foldl handle_response captured_posts (late_responses e)))
    end
  else Some (Ok captured_posts).

(** Lines 162-175: the records as objects (addresses into a fresh store),
    stamped. *)
Definition materialize (e : env) (keyword : string) (captured_posts : list record)
    : result (list nat * heap) :=
  raw <- (if bool_decide (length captured_posts = 0)
          then (DataExtractor.extract_posts (page e) keyword (extract_scraped_at e)).2
          else Ok captured_posts) ;;
  let raw_posts := seq 0 (length raw) in
  let h := stamp_all keyword (scraped_at_iso e) raw_posts (map_seq 0 raw) in
  _ <- close_page e ;;
  Ok (raw_posts, h).

(** Lines 181-182.  [None]: [schedule e] is not a complete run of the tasks. *)
Definition enrich (e : env) (should_fetch : bool) (raw_posts : list nat) (h : heap)
    : option (list nat * heap) :=
  if should_fetch && negb (bool_decide (length raw_posts = 0)) then
    PostFetcher.enrich_posts
      (fun i _ => Ok (PostFetcher.fetch_post_content (load_post e i)))
      raw_posts 3 true (schedule e) h
  else Some (raw_posts, h).

(** Lines 185-211. *)
Definition assemble (e : env) (keyword : string) (raw_posts : list nat) (h : heap)
    : SearchResult :=
  let posts := omap (fun post => to_model (validate e) (model_now e) keyword (deref h post))
                    raw_posts in
  let duration := (end_time e - start_time e)%Z in
  mk_result keyword (Z.of_nat (length posts)) posts (result_scraped_at e)
            (round2 duration).

(** [search], with the scroll handler's [max_no_change_iterations] and the
    scraper's [fetch_full_content]: the limiter afterwards, and the outcome
    ([None] when the scroll loop does not come back within [fuel]
    iterations, or when [schedule e] is not a complete run of the
    enrichment). *)
Definition search (fuel : nat) (max_no_change_iterations : Z)
    (fetch_full_content : bool) (e : env) (rl : RateLimiter.t)
    (keyword : string) (limit : Z) (fetch_content : option bool)
    : RateLimiter.t * option (result SearchResult) :=
  let should_fetch := default fetch_full_content fetch_content in
  match RateLimiter.acquire (acquire_now e) (acquire_now' e) rl with
  | Raise ex => (rl, Some (Raise ex))
  | Ok rl' =>
      (rl',
       match open_page e with
       | Raise ex => Some (Raise ex)
       | Ok _ =>
           match grow fuel max_no_change_iterations limit e with
           | None => None
           | Some (Raise ex) => Some (Raise ex)
           | Some (Ok captured_posts) =>
               match materialize e keyword captured_posts with
               | Raise ex => Some (Raise ex)
               | Ok (raw_posts, h) =>
                   match enrich e should_fetch (slice_to raw_posts limit) h with
                   | None => None
                   | Some (raw_posts', h') =>
                       Some (Ok (assemble e keyword raw_posts' h'))
                   end
               end
           end
       end)
  end.

(** The result appended by [search_multiple] when [search] raises. *)
Definition empty_result (keyword : string) (now : Z) : SearchResult :=
  mk_result keyword 0 [] now 0.

(** [search_multiple]: the [k]-th search reads from [envs k].  [None] when
    one of the searches does not return. *)
Fixpoint search_multiple (fuel : nat) (max_no_change_iterations : Z)
    (fetch_full_content : bool) (envs : nat -> env) (rl : RateLimiter.t)
    (keywords : list string) (limit : Z) (fetch_content : option bool)
    : option (list SearchResult) :=
  match keywords with
  | [] => Some []
  | keyword :: keywords' =>
      let '(rl', outcome) :=
        search fuel max_no_change_iterations fetch_full_content (envs 0) rl
               keyword limit fetch_content in
      result ← match outcome with
               | None => None
               | Some (Ok result) => Some result
               | Some (Raise _) => Some (empty_result keyword (result_scraped_at (envs 0)))
               end;
      results ← search_multiple fuel max_no_change_iterations fetch_full_content
                  (fun k => envs (S k)) rl' keywords' limit fetch_content;
      Some (result :: results)
  end.

End SearchScraper.

(** ** utils/rate_limiter.py: runs of [try_acquire] *)

Module RateLimiterMore.

Import RateLimiter.
#[local] Open Scope Z_scope.

(** A sequence of [try_acquire] calls, each given by its clock reading: the
    limiter afterwards and the timestamps recorded, in order. *)
Fixpoint try_run (nows : list Z) (rl : t) : t * list Z :=
  match nows with
  | [] => (rl, [])
  | now :: ns =>
      let '(r, h) := try_run ns (try_acquire now rl).2 in
      (r, if (try_acquire now rl).1 then now :: h else h)
  end.

(** Clock readings that never go back, from [clk] on. *)
Fixpoint ascending (clk : Z) (nows : list Z) : Prop :=
  match nows with
  | [] => True
  | now :: ns => clk <= now /\ ascending now ns
  end.

(** The deque is in chronological order and holds nothing later than [clk]. *)
Definition chronological (clk : Z) (rl : t) : Prop :=
  StronglySorted Z.le (requests rl) /\ Forall (fun r => r <= clk) (requests rl).

End RateLimiterMore.

(** ** scraper/scroll_handler.py: [scroll_for_time] *)

Module ScrollTimer.

#[local] Open Scope Z_scope.

(** What [scroll_for_time] reads: [clock 0] is the reading of
    [start_time = time.time()], [clock (S k)] the reading of the [k]-th
    loop test; [scroll k] is the outcome of the [k]-th [scrollTo]. *)
Record env := mk_env {
  clock : nat -> Z;
  scroll : nat -> result unit
}.

(** The [while (time.time() - start_time) < duration_seconds] loop, from
    [scroll_count] scrolls on: the number of scrolls made when it ends. *)
Fixpoint timed_loop (fuel : nat) (duration_seconds : Z) (e : env)
    (scroll_count : nat) : option (result nat) :=
  match fuel with
  | O => None
  | S fuel' =>
      if clock e (S scroll_count) - clock e 0 <? duration_seconds then
        match scroll e scroll_count with
        | Raise ex => Some (Raise ex)
        | Ok _ => timed_loop fuel' duration_seconds e (S scroll_count)
        end
      else Some (Ok scroll_count)
  end.

(** [scroll_for_time]: [get_current_count] is the answer of the probe when
    one is supplied.  The count returned, and the scrolls made. *)
Definition scroll_for_time (fuel : nat) (duration_seconds : Z) (e : env)
    (get_current_count : option (result Z)) : option (result (Z * nat)) :=
  match timed_loop fuel duration_seconds e 0 with
  | None => None
  | Some (Raise ex) => Some (Raise ex)
  | Some (Ok scroll_count) =>
      match get_current_count with
      | Some probe => Some (count <- probe ;; Ok (count, scroll_count))
      | None => Some (Ok (0, scroll_count))
      end
  end.

End ScrollTimer.

(** ** scraper/browser.py: sessions, contexts and pages *)

Module BrowserSessions.

Import BrowserManager.

(** A caller's use of the manager: [start()] and [stop()] in any order,
    each exception caught by the caller. *)
Inductive op := Start | Stop.

Definition method_of (fails : nat -> bool) (o : op) : method :=
  match o with
  | Start => start fails
  | Stop => stop fails
  end.

Fixpoint calls (fails : nat -> bool) (ops : list op) (m : t) (w : world) : t * world :=
  match ops with
  | [] => (m, w)
  | o :: rest =>
      let '(_, m1, w1) := method_of fails o m w in
      calls fails rest m1 w1
  end.

(** [k] complete sessions: launch, then close. *)
Definition sessions (k : nat) : world :=
  concat (replicate k [PlaywrightStart; ChromiumLaunch; BrowserClose; PlaywrightStop]).

(** The calls of a session that is still open. *)
Definition open_session (m : t) : world :=
  match _browser m with
  | Some _ => [PlaywrightStart; ChromiumLaunch]
  | None => []
  end.

End BrowserSessions.

Module BrowserPages.

Import BrowserManager.

(** The calls into Playwright made through a context or a page, next to
    those of [start] and [stop].  A context and a page are named by the
    number of the call that created them. *)
Inductive call :=
| Lifecycle (c : BrowserManager.call)
| NewContext (browser : nat)
| ContextClose (context : nat)
| NewPage (context : nat)
| Route (page : nat)
| PageClose (page : nat).

Definition world := list call.

(** A block run under [async with]: it is given the object yielded, and
    may use the manager. *)
Definition block (A : Type) := nat -> t -> world -> result A * t * world.

(** [start], on the wider world. *)
Definition start (fails : nat -> bool) (m : t) (w : world) : result unit * t * world :=
  match _browser m with
  | Some _ => (Ok tt, m, w)
  | None =>
      let n1 := length w in
      let w1 := w ++ [Lifecycle PlaywrightStart] in
      if fails n1 then (Raise PlaywrightError, m, w1)
      else
        let m1 := mk (Some n1) (_browser m) in
        let n2 := length w1 in
        let w2 := w1 ++ [Lifecycle ChromiumLaunch] in
        if fails n2 then (Raise PlaywrightError, m1, w2)
        else (Ok tt, mk (_playwright m1) (Some n2), w2)
  end.

(** [new_context], with the block run at its [yield].  An exception of the
    block is raised again after [context.close()]; an exception of
    [context.close()] replaces it. *)
Definition new_context {A : Type} (fails : nat -> bool) (body : block A)
    (m : t) (w : world) : result A * t * world :=
  let '(started, m0, w0) :=
    match _browser m with
    | None => start fails m w
    | Some _ => (Ok tt, m, w)
    end in
  match started with
  | Raise e => (Raise e, m0, w0)
  | Ok _ =>
      match _browser m0 with
      | None => (Raise AttributeError, m0, w0)
      | Some browser =>
          let context := length w0 in
          let w1 := w0 ++ [NewContext browser] in
          if fails context then (Raise PlaywrightError, m0, w1)
          else
            let '(r, m2, w2) := body context m0 w1 in
            let w3 := w2 ++ [ContextClose context] in
            if fails (length w2) then (Raise PlaywrightError, m2, w3)
            else (r, m2, w3)
      end
  end.

(** [new_page]: the block of [new_context] that opens a page, routes the
    static resources away and runs the caller's block at its [yield]. *)
Definition new_page {A : Type} (fails : nat -> bool) (body : block A)
    (m : t) (w : world) : result A * t * world :=
  new_context fails
    (fun context m w =>
       let page := length w in
       let w1 := w ++ [NewPage context] in
       if fails page then (Raise PlaywrightError, m, w1)
       else
         let w2 := w1 ++ [Route page] in
         if fails (length w1) then (Raise PlaywrightError, m, w2)
         else
           let '(r, m3, w3) := body page m w2 in
           let w4 := w3 ++ [PageClose page] in
           if fails (length w3) then (Raise PlaywrightError, m3, w4)
           else (r, m3, w4))
    m w.

End BrowserPages.

(** ** scraper/data_extractor.py: the script of [_extract_from_dom] *)

Module DomScript.

Import Stdlib.Strings.Ascii.

(** What the selectors of the script find in one card: [None] is an
    element that is not there ([null]).  [date] holds the [datetime]
    attribute and the trimmed text of the date element; [throws] marks a
    card whose extraction raises inside the script's [try]. *)
Record card := mk_card {
  link_href : option string;
  title_text : option string;
  subtitle_text : option string;
  img_src : option string;
  author_text : option string;
  pub_text : option string;
  date : option (option string * string);
  throws : bool
}.

(** JavaScript's truth value of a string or [null]. *)
Definition js_truthy (o : option string) : bool :=
  match o with
  | Some (String _ _) => true
  | _ => false
  end.

(** [a || b] on strings or [null] *)
Definition js_or (a b : option string) : option string :=
  if js_truthy a then a else b.

Definition js_value (o : option string) : value :=
  match o with
  | Some s => VStr s
  | None => VNone
  end.

(** The longest prefix matched by [[^/?]*]. *)
Fixpoint segment (s : string) : string :=
  match s with
  | EmptyString => EmptyString
  | String c s' =>
      if (Ascii.eqb c "/"%char || Ascii.eqb c "?"%char)%bool then EmptyString
      else String c (segment s')
  end.

(** [canonical_url.match(/\/p\/([^/?]+)/)]: the group of the leftmost
    match. *)
Fixpoint match_post_id (url : string) : option string :=
  match url with
  | EmptyString => None
  | String c url' =>
      if String.prefix "/p/" url then
        match segment (String.substring 3 (String.length url - 3) url) with
        | EmptyString => match_post_id url'
        | seg => Some seg
        end
      else match_post_id url'
  end.

(** The object pushed for a card, when one is. *)
Definition card_post (index : nat) (now : string) (c : card) : option record :=
  if throws c then None
  else
    let canonical_url := link_href c in
    let postId :=
      match canonical_url with
      | Some url => match_post_id url
      | None => None
      end in
    let title := title_text c in
    let subtitle := subtitle_text c in
    let dateStr :=
      match date c with
      | Some (attribute, text) => js_or attribute (Some text)
      | None => None
      end in
    if (js_truthy title && js_truthy canonical_url)%bool then
      Some (<["id" := VInt (Z.of_nat index + 1)]>
           (<["publication_id" := VInt 0]>
           (<["title" := js_value title]>
           (<["slug" := js_value (js_or postId (Some EmptyString))]>
           (<["canonical_url" := js_value canonical_url]>
           (<["subtitle" := js_value subtitle]>
           (<["description" := js_value subtitle]>
           (<["cover_image" := js_value (img_src c)]>
           (<["post_date" := js_value (js_or dateStr (Some now))]>
           (<["type" := VStr "newsletter"]>
           (<["audience" := VStr "everyone"]>
           (<["truncated_body_text" := js_value subtitle]>
           (<["publishedBylines" :=
                if js_truthy (author_text c) then
                  VList [VDict (<["id" := VInt 0]>
                               (<["name" := js_value (author_text c)]>
                               (<["publicationUsers" :=
                                    if js_truthy (pub_text c) then
                                      VList [VDict (<["publication" :=
                                               VDict (<["id" := VInt 0]>
                                                     (<["name" := js_value (pub_text c)]>
                                                     (<["subdomain" := VStr EmptyString]> ∅)))]> ∅)]
                                    else VList []]> ∅)))]
                else VList []]> ∅)))))))))))))
    else None.

(** [cards.forEach((card, index) => ...)], from [index] on; [now index] is
    what [new Date().toISOString()] gives while card [index] is handled. *)
Fixpoint for_each (index : nat) (now : nat -> string) (cards : list card) : list value :=
  match cards with
  | [] => []
  | c :: cs =>
      match card_post index (now index) c with
      | Some post => VDict post :: for_each (S index) now cs
      | None => for_each (S index) now cs
      end
  end.

(** The script of [_extract_from_dom]. *)
Definition script (now : nat -> string) (cards : list card) : list value :=
  for_each 0 now cards.

End DomScript.

(** ** storage/json_writer.py *)

Module JsonWriter.

#[local] Open Scope N_scope.

(** A text is the list of its code points.  [alnum] is the Unicode
    database's alphanumeric class: [\w] is that class and the underscore. *)
Definition underscore : N := 95.
Definition hyphen : N := 45.

Definition word (alnum : N -> bool) (c : N) : bool := alnum c || (c =? underscore).

(** [re.sub(r"[^\w\-]", "_", text)] *)
Definition replace_special (alnum : N -> bool) (text : list N) : list N :=
  (fun c => if word alnum c || (c =? hyphen) then c else underscore) <$> text.

(** [re.sub(r"_+", "_", sanitized)] *)
Fixpoint collapse (s : list N) : list N :=
  match s with
  | [] => []
  | c :: s' =>
      if c =? underscore then
        match s' with
        | c' :: _ => if c' =? underscore then collapse s' else c :: collapse s'
        | [] => [c]
        end
      else c :: collapse s'
  end.

Fixpoint lstrip (s : list N) : list N :=
  match s with
  | [] => []
  | c :: s' => if c =? underscore then lstrip s' else s
  end.

Fixpoint rstrip (s : list N) : list N :=
  match s with
  | [] => []
  | c :: s' =>
      match rstrip s' with
      | [] => if c =? underscore then [] else [c]
      | kept => c :: kept
      end
  end.

(** [sanitized.strip("_")] *)
Definition strip (s : list N) : list N := rstrip (lstrip s).

(** [_sanitize_filename] *)
Definition _sanitize_filename (alnum : N -> bool) (text : list N) : list N :=
  take 50 (strip (collapse (replace_special alnum text))).

End JsonWriter.

(** ** cli/commands.py *)

Module Commands.

Import Models SearchScraper.

(** The [for keyword in keywords] loop of [_search_async]: [all_results]
    after it.  A search that raises is reported and skipped.  [None] when
    one of the searches does not return. *)
Fixpoint search_loop (fuel : nat) (max_no_change_iterations : Z)
    (envs : nat -> env) (rl : RateLimiter.t)
    (keywords : list string) (limit : Z) (fetch_content : bool)
    : option (list SearchResult) :=
  match keywords with
  | [] => Some []
  | keyword :: keywords' =>
      let '(rl', outcome) :=
        search fuel max_no_change_iterations fetch_content (envs 0) rl
               keyword limit (Some fetch_content) in
      match outcome with
      | None => None
      | Some outcome =>
          all_results ← search_loop fuel max_no_change_iterations
                          (fun k => envs (S k)) rl' keywords' limit fetch_content;
          Some (match outcome with
                | Ok result => result :: all_results
                | Raise _ => all_results
                end)
      end
  end.

(** [_search_async], on a fresh manager and a fresh limiter: the outcome
    with [all_results], the manager and the calls made to start and stop
    the browser.  [browser.stop()] runs in the [finally]; an exception
    raised there replaces the outcome. *)
Definition _search_async (fails : nat -> bool) (fuel : nat)
    (max_no_change_iterations : Z) (envs : nat -> env)
    (rate_limit_requests rate_limit_window_seconds : Z)
    (keywords : list string) (limit : Z) (fetch_content : bool)
    : option (result (list SearchResult) * BrowserManager.t * BrowserManager.world) :=
  let '(started, browser, w) := BrowserManager.start fails BrowserManager.init [] in
  body ← match started with
         | Raise ex => Some (Raise ex)
         | Ok _ =>
             all_results ← search_loop fuel max_no_change_iterations envs
                             (RateLimiter.init rate_limit_requests rate_limit_window_seconds)
                             keywords limit fetch_content;
             Some (Ok all_results)
         end;
  let '(stopped, browser', w') := BrowserManager.stop fails browser w in
  Some (match stopped with
        | Raise ex => Raise ex
        | Ok _ => body
        end, browser', w').

End Commands.

(** * Properties *)

(** ** RateLimiter *)

Section rate_limiter_facts.

Import RateLimiter.
#[local] Open Scope Z_scope.

Lemma evict_split (bound : Z) (q : list Z) :
  exists dropped, q = dropped ++ evict bound q /\ Forall (fun d => d < bound) dropped.
Proof.
  induction q as [|r q IH]; simpl.
  - exists []. split; [reflexivity | constructor].
  - destruct (Z.ltb_spec r bound) as [Hlt|Hge].
    + destruct IH as (dropped & Heq & Hall).
      exists (r :: dropped). split.
      * simpl. f_equal. exact Heq.
      * constructor; assumption.
    + exists []. split; [reflexivity | constructor].
Qed.

Lemma window_count_app (t w : Z) (h1 h2 : list Z) :
  window_count t w (h1 ++ h2) = (window_count t w h1 + window_count t w h2)%nat.
Proof. unfold window_count. rewrite filter_app, length_app. reflexivity. Qed.

Lemma window_count_le_length (t w : Z) (h : list Z) :
  (window_count t w h <= length h)%nat.
Proof. unfold window_count. apply length_filter. Qed.

Lemma window_count_expired (t w now : Z) (h : list Z) :
  Forall (fun d => d + w <= now) h -> now <= t + w ->
  window_count t w h = 0%nat.
Proof.
  intros Hall Hnow. unfold window_count.
  induction Hall as [|d h Hd _ IH]; [reflexivity|].
  rewrite filter_cons. destruct (decide (t < d ∧ d <= t + w)) as [[? ?]|_].
  - lia.
  - exact IH.
Qed.

Lemma window_count_outside (t w r : Z) :
  ¬ (t < r ∧ r <= t + w) -> window_count t w [r] = 0%nat.
Proof.
  intros Hout. unfold window_count. rewrite filter_cons.
  destruct (decide (t < r ∧ r <= t + w)); [contradiction | reflexivity].
Qed.

(** The state kept by the limiter, seen against the whole history
    [gone ++ requests rl]: what has left the queue had expired by [clk],
    the queue holds at most [max_requests] entries, and no window of the
    history holds more than [max_requests]. *)
Definition bounded (rl : t) (gone : list Z) (clk : Z) : Prop :=
  Forall (fun d => d + window rl <= clk) gone /\
  Z.of_nat (length (requests rl)) <= max_requests rl /\
  forall u, Z.of_nat (window_count u (window rl) (gone ++ requests rl)) <= max_requests rl.

Lemma bounded_later (rl : t) (gone : list Z) (clk clk' : Z) :
  clk <= clk' -> bounded rl gone clk -> bounded rl gone clk'.
Proof.
  intros Hle (Hgone & Hlen & Hwin). repeat split; try assumption.
  eapply Forall_impl; [exact Hgone|]. simpl. intros; lia.
Qed.

(** One [acquire] that is not on the boundary keeps the state bounded and
    appends its timestamp to the history. *)
Lemma acquire_bounded (rl rl' : t) (gone : list Z) (clk now now' : Z) :
  bounded rl gone clk ->
  clk <= now -> now <= now' ->
  match wait_until now rl with Some w => w <= now' | None => True end ->
  on_boundary now rl = false ->
  acquire now now' rl = Ok rl' ->
  max_requests rl' = max_requests rl /\ window rl' = window rl /\
  exists gone',
    gone' ++ requests rl' = (gone ++ requests rl) ++ [now'] /\
    bounded rl' gone' now'.
Proof.
  intros (Hgone & Hlen & Hwin) Hclk Hnow Hsleep Hoff Hacq.
  destruct (evict_split (now - window rl) (requests rl)) as (dropped & Hq & Hdropped).
  unfold acquire in Hacq. unfold wait_until in Hsleep. unfold on_boundary in Hoff.
  set (q := evict (now - window rl) (requests rl)) in *.
  assert (Hlenq : Z.of_nat (length q) <= max_requests rl).
  { rewrite Hq, length_app in Hlen. lia. }
  assert (Hgone1 : Forall (fun d => d + window rl <= now') (gone ++ dropped)).
  { apply Forall_app. split.
    - eapply Forall_impl; [exact Hgone|]. simpl. intros; lia.
    - eapply Forall_impl; [exact Hdropped|]. simpl. intros; lia. }
  (* the common conclusion, from the entries that left and those that stay *)
  assert (Hfin : forall gone' q',
    gone' ++ q' = gone ++ requests rl ->
    Forall (fun d => d + window rl <= now') gone' ->
    Z.of_nat (length q') + 1 <= max_requests rl ->
    bounded (set_requests rl (q' ++ [now'])) gone' now').
  { intros gone' q' Heq Hg Hl. unfold bounded. simpl. repeat split.
    - exact Hg.
    - rewrite length_app. simpl. lia.
    - intros u. rewrite app_assoc, Heq, window_count_app.
      destruct (decide (u < now' ∧ now' <= u + window rl)) as [Hin|Hout].
      + rewrite <- Heq, window_count_app.
        rewrite (window_count_expired u (window rl) now' gone') by (tauto || lia).
        pose proof (window_count_le_length u (window rl) q').
        pose proof (window_count_le_length u (window rl) [now']).
        simpl in *. lia.
      + rewrite (window_count_outside _ _ _ Hout). specialize (Hwin u). lia. }
  destruct (Z.leb_spec (max_requests rl) (Z.of_nat (length q))) as [Hfull|Hfree].
  - destruct q as [|oldest rest] eqn:Eq; [discriminate|].
    simpl in Hoff.
    destruct (Z.ltb_spec 0 (oldest + window rl - now)) as [Hwait|Hnowait];
      [|discriminate].
    inversion Hacq; subst rl'; clear Hacq. simpl.
    split; [reflexivity|]. split; [reflexivity|].
    exists (gone ++ dropped ++ [oldest]). split.
    + rewrite Hq. rewrite <- !app_assoc. reflexivity.
    + apply Hfin.
      * rewrite Hq. rewrite <- !app_assoc. reflexivity.
      * rewrite app_assoc. apply Forall_app. split; [exact Hgone1|].
        constructor; [lia | constructor].
      * simpl in Hlenq, Hfull. lia.
  - inversion Hacq; subst rl'; clear Hacq. simpl.
    split; [reflexivity|]. split; [reflexivity|].
    exists (gone ++ dropped). split.
    + rewrite Hq. rewrite <- !app_assoc. reflexivity.
    + apply Hfin.
      * rewrite Hq. rewrite <- !app_assoc. reflexivity.
      * exact Hgone1.
      * lia.
Qed.

Lemma run_bounded (calls : list (Z * Z)) :
  forall (rl : t) (gone : list Z) (clk : Z),
  bounded rl gone clk ->
  clock_ok clk calls rl ->
  off_boundary calls rl ->
  forall u,
    Z.of_nat (window_count u (window rl) ((gone ++ requests rl) ++ (run calls rl).2))
    <= max_requests rl.
Proof.
  induction calls as [|[now now'] cs IH]; intros rl gone clk Hb Hclock Hoff u.
  - simpl. rewrite app_nil_r. apply Hb.
  - simpl in Hclock, Hoff. destruct Hclock as (Hclk & Hnow & Hsleep & Hrest).
    destruct Hoff as (Hoff1 & Hoffrest). simpl.
    destruct (acquire now now' rl) as [rl'|ex] eqn:Hacq; simpl in *.
    + destruct (acquire_bounded rl rl' gone clk now now' Hb Hclk Hnow Hsleep Hoff1 Hacq)
        as (HC & HW & gone' & Hhist & Hb').
      specialize (IH rl' gone' now' Hb' Hrest Hoffrest u).
      destruct (run cs rl') as [r h] eqn:Hrun. simpl in *.
      rewrite HC, HW, Hhist in IH. rewrite <- app_assoc in IH. simpl in IH.
      exact IH.
    + apply (IH rl gone now'); try assumption.
      apply (bounded_later rl gone clk); [lia | exact Hb].
Qed.

(** X1.  Away from the boundary the limiter does what its name says: among the
    timestamps recorded by any sequence of [acquire] calls on a fresh
    limiter, no window [(u, u + window]] holds more than [max_requests]. *)
Lemma acquire_window_bound (C W clk : Z) (calls : list (Z * Z)) :
  0 <= C ->
  clock_ok clk calls (init C W) ->
  off_boundary calls (init C W) ->
  forall u, Z.of_nat (window_count u W (run calls (init C W)).2) <= C.
Proof.
  intros HC Hclock Hoff u.
  assert (Hb : bounded (init C W) [] clk).
  { unfold bounded, init, window_count. simpl.
    split; [constructor | split; [lia | intros _; lia]]. }
  exact (run_bounded calls (init C W) [] clk Hb Hclock Hoff u).
Qed.

(** C1 (code_bug).  [RateLimiter(max_requests=1, window_seconds=10)] and
    three [acquire] calls whose clock readings are 0, then 10, then 10
    again: the second call finds the oldest entry exactly one window old,
    which is neither evicted (the eviction test is strict) nor waited for
    ([wait_seconds > 0] fails), so nothing is removed and the call is
    recorded at once: the queue then holds two entries that the limiter's
    own test ([r >= now - window]) counts as active, and [try_acquire] in
    that state refuses.  The third call is let through in the same way,
    so the timestamps 10 and 10 are both recorded within one window. *)
Theorem acquire_on_boundary_exceeds_capacity :
  let rl := init 1 10 in
  let calls := [(0, 0); (10, 10); (10, 10)] in
  clock_ok 0 calls rl /\
  run [(0, 0); (10, 10)] rl = (mk 1 10 [0; 10], [0; 10]) /\
  active_requests 10 (mk 1 10 [0; 10]) = 2 /\
  (try_acquire 10 (mk 1 10 [0; 10])).1 = false /\
  run calls rl = (mk 1 10 [0; 10; 10], [0; 10; 10]) /\
  window_count 0 10 [0; 10; 10] = 2%nat.
Proof.
  cbv zeta. split; [simpl; lia|].
  repeat split; vm_compute; reflexivity.
Qed.

End rate_limiter_facts.

(** ** ScrollHandler *)

Section scroll_facts.

Import ScrollHandler.
#[local] Open Scope Z_scope.

Lemma loop_fuel_mono (M target : Z) (e : env) (fuel : nat) :
  forall (fuel' : nat) (st : locals) (r : result locals),
  loop fuel M target e st = Some r -> (fuel <= fuel')%nat ->
  loop fuel' M target e st = Some r.
Proof.
  induction fuel as [|fuel IH]; intros fuel' st r Hrun Hle; [discriminate|].
  destruct fuel' as [|fuel']; [lia|].
  simpl in *.
  destruct (target <=? get_current_count e (probe_calls st)); [exact Hrun|].
  destruct (scroll_height e (scroll_count st)) as [new_height|ex]; [|exact Hrun].
  destruct ((new_height =? last_height st)
            && (get_current_count e (S (probe_calls st)) =? last_count st)).
  - destruct (M <=? no_change_iterations st + 1); [exact Hrun|].
    apply IH; [exact Hrun | lia].
  - apply IH; [exact Hrun | lia].
Qed.

Section constant_probe.

Variables (M target c : Z) (e : env) (K : nat) (H : Z).
Hypothesis HM : 1 <= M.
Hypothesis Hcount : forall k, get_current_count e k = c.
Hypothesis Hpage : forall k, is_ok (scroll_height e k) = true.
Hypothesis Hstable : forall k, (K <= k)%nat -> scroll_height e k = Ok H.
Hypothesis Hbelow : c < target.

(** How many more iterations the loop can take from a state: until the
    height has settled, once more, and then until the counter reaches [M]. *)
Definition potential (st : locals) : nat :=
  if (scroll_count st <=? K)%nat
  then (K - scroll_count st + 1 + Z.to_nat M)%nat
  else Z.to_nat (M - no_change_iterations st).

Definition settled (st : locals) : Prop :=
  0 <= no_change_iterations st < M /\
  ((K < scroll_count st)%nat -> last_height st = H /\ last_count st = c).

Lemma loop_reaches_break (m : nat) :
  forall st : locals,
  settled st -> (potential st <= m)%nat ->
  exists st',
    loop m M target e st = Some (Ok st') /\
    no_change_iterations st' <= M /\
    (scroll_count st' <= scroll_count st + m)%nat.
Proof.
  induction m as [|m IH]; intros st [Hn Hlast] Hpot.
  - exfalso. unfold potential in Hpot.
    destruct (Nat.leb_spec (scroll_count st) K); lia.
  - simpl. rewrite !Hcount.
    destruct (Z.leb_spec target c) as [?|_]; [lia|].
    pose proof (Hpage (scroll_count st)) as Hok.
    destruct (scroll_height e (scroll_count st)) as [new_height|ex] eqn:Hh;
      [clear Hok | discriminate].
    assert (Hnext : forall n', 0 <= n' < M ->
              (n' = 0 \/ n' = no_change_iterations st + 1) ->
              (n' = no_change_iterations st + 1 \/ (scroll_count st <= K)%nat) ->
              exists st',
                loop m M target e
                  (mk_locals new_height c n' (S (scroll_count st)) (S (S (probe_calls st))))
                = Some (Ok st') /\
                no_change_iterations st' <= M /\
                (scroll_count st' <= scroll_count st + S m)%nat).
    { intros n' Hn' Hcase Hwhen.
      destruct (IH (mk_locals new_height c n' (S (scroll_count st)) (S (S (probe_calls st)))))
        as (st' & Hrun & Hfin & Hsc).
      - split; simpl; [exact Hn'|]. intros HK. split; [|reflexivity].
        assert (Hge : (K <= scroll_count st)%nat) by lia.
        rewrite (Hstable _ Hge) in Hh. congruence.
      - unfold potential in *. cbn [scroll_count no_change_iterations].
        destruct (Nat.leb_spec (S (scroll_count st)) K);
          destruct (Nat.leb_spec (scroll_count st) K); lia.
      - exists st'. simpl in Hsc. repeat split; [exact Hrun | exact Hfin | lia]. }
    destruct ((new_height =? last_height st) && (c =? last_count st)) eqn:Hsame.
    + destruct (Z.leb_spec M (no_change_iterations st + 1)) as [Hstop|Hgo].
      * eexists. split; [reflexivity|]. simpl. split; lia.
      * apply Hnext; [lia | right; reflexivity | left; reflexivity].
    + apply Hnext; [lia | left; reflexivity |].
      destruct (Nat.leb_spec (scroll_count st) K) as [?|HK]; [right; assumption|].
      exfalso. destruct (Hlast HK) as [Hlh Hlc].
      assert (Hge : (K <= scroll_count st)%nat) by lia.
      rewrite (Hstable _ Hge) in Hh. injection Hh as <-.
      rewrite Hlh, Hlc, !Z.eqb_refl in Hsame. discriminate.
Qed.

End constant_probe.

(** C2.  With a probe that always answers [c] and a page height that is the
    same from the [K]-th scroll on, [scroll_to_load_results] returns [c]
    whatever the target: at once when [c] reaches the target, and
    otherwise after at most [K + M + 1] scrolls, the counter of consecutive
    iterations without progress never exceeding [M =
    max_no_change_iterations]. *)
Theorem scroll_constant_probe_terminates
    (M target c : Z) (e : env) (K : nat) (H : Z) :
  1 <= M ->
  (forall k, get_current_count e k = c) ->
  (forall k, is_ok (scroll_height e k) = true) ->
  (forall k, (K <= k)%nat -> scroll_height e k = Ok H) ->
  exists st,
    (forall fuel, (K + 1 + Z.to_nat M <= fuel)%nat ->
       scroll_to_load_results fuel M target e = Some (Ok (c, st))) /\
    no_change_iterations st <= M /\
    (scroll_count st <= K + 1 + Z.to_nat M)%nat.
Proof.
  intros HM Hcount Hpage Hstable.
  destruct (Z.leb_spec target c) as [Hreached|Hbelow].
  - exists (mk_locals 0 0 0 0 1). split; [|simpl; lia].
    intros fuel Hfuel. destruct fuel as [|fuel]; [lia|].
    unfold scroll_to_load_results. simpl. rewrite !Hcount.
    destruct (Z.leb_spec target c); [|lia]. rewrite Hcount. reflexivity.
  - destruct (loop_reaches_break M target c e K H HM Hcount Hpage Hstable Hbelow
                (K + 1 + Z.to_nat M) init) as (st & Hrun & Hfin & Hsc).
    + split; simpl; [lia|]. intros; lia.
    + unfold potential. simpl. lia.
    + exists st. split; [|split; [exact Hfin | exact Hsc]].
      intros fuel Hfuel. unfold scroll_to_load_results.
      rewrite (loop_fuel_mono M target e _ fuel init (Ok st) Hrun Hfuel).
      rewrite Hcount. reflexivity.
Qed.

Lemma scroll_constant_probe_witness :
  exists st,
    (forall fuel, (0 + 1 + Z.to_nat 3 <= fuel)%nat ->
       scroll_to_load_results fuel 3 50 (mk_env (fun _ => 7) (fun _ => Ok 1000))
       = Some (Ok (7, st))) /\
    no_change_iterations st <= 3 /\
    (scroll_count st <= 0 + 1 + Z.to_nat 3)%nat.
Proof.
  apply (scroll_constant_probe_terminates 3 50 7
           (mk_env (fun _ => 7) (fun _ => Ok 1000)) 0 1000).
  - lia.
  - intros k. reflexivity.
  - intros k. reflexivity.
  - intros k _. reflexivity.
Defined.

End scroll_facts.

(** With the default of three, a page that has stopped growing from the
    start is scrolled four times: the first scroll is compared with the
    initial zeros and counts as progress. *)
Example scroll_default_run :
  ScrollHandler.scroll_to_load_results 10 3 50
    (ScrollHandler.mk_env (fun _ => 7%Z) (fun _ => Ok 1000%Z))
  = Some (Ok (7%Z, ScrollHandler.mk_locals 1000 7 3 4 8)).
Proof. vm_compute. reflexivity. Qed.

(** ** BrowserManager *)

Section browser_facts.

Import BrowserManager.

Variable fails : nat -> bool.

Lemma start_when_running (m : t) (w : world) :
  running m -> start fails m w = (Ok tt, m, w).
Proof. intros [b Hb]. unfold start. rewrite Hb. reflexivity. Qed.

Lemma stop_when_stopped (m : t) (w : world) :
  stopped m -> stop fails m w = (Ok tt, m, w).
Proof. intros [Hb Hp]. unfold stop. rewrite Hb. simpl. rewrite Hp. reflexivity. Qed.

Lemma start_returns_running (m m' : t) (w w' : world) :
  start fails m w = (Ok tt, m', w') -> running m'.
Proof.
  unfold start, running. destruct (_browser m) as [b|] eqn:Hb.
  - intros [= <- <-]. rewrite Hb. eexists; reflexivity.
  - destruct (fails (length w)); [discriminate|].
    destruct (fails (length (w ++ [PlaywrightStart]))); [discriminate|].
    intros [= <- <-]. simpl. eexists; reflexivity.
Qed.

Lemma stop_returns_stopped (m m' : t) (w w' : world) :
  stop fails m w = (Ok tt, m', w') -> stopped m'.
Proof.
  unfold stop, stopped.
  destruct m as [p b]. simpl.
  destruct b as [b|]; [destruct (fails (length w)); [discriminate|]|]; simpl;
    (destruct p as [p|]; simpl;
     [match goal with |- context [fails ?n] => destruct (fails n) end;
      [discriminate|] |]);
    intros [= <- <-]; simpl; split; reflexivity.
Qed.

End browser_facts.

(** C9.  [start] on a running manager and [stop] on a stopped one change
    nothing and call nothing; hence starting twice is starting once, and
    stopping twice is stopping once, on the manager and on the calls made
    to the browser driver alike. *)
Theorem browser_lifecycle_idempotent
    (fails : nat -> bool) (m : BrowserManager.t) (w : BrowserManager.world) :
  (BrowserManager.running m ->
     BrowserManager.start fails m w = (Ok tt, m, w)) /\
  (BrowserManager.stopped m ->
     BrowserManager.stop fails m w = (Ok tt, m, w)) /\
  BrowserManager.seq (BrowserManager.start fails) (BrowserManager.start fails) m w
    = BrowserManager.start fails m w /\
  BrowserManager.seq (BrowserManager.stop fails) (BrowserManager.stop fails) m w
    = BrowserManager.stop fails m w.
Proof.
  split; [apply start_when_running|].
  split; [apply stop_when_stopped|].
  split; unfold BrowserManager.seq.
  - destruct (BrowserManager.start fails m w) as [[[[]|ex] m1] w1] eqn:Hs;
      [|reflexivity].
    apply start_when_running. exact (start_returns_running fails _ _ _ _ Hs).
  - destruct (BrowserManager.stop fails m w) as [[[[]|ex] m1] w1] eqn:Hs;
      [|reflexivity].
    apply stop_when_stopped. exact (stop_returns_stopped fails _ _ _ _ Hs).
Qed.

Lemma browser_lifecycle_witness :
  BrowserManager.start (fun _ => false) (BrowserManager.mk (Some 0) (Some 1))
    [BrowserManager.PlaywrightStart; BrowserManager.ChromiumLaunch]
  = (Ok tt, BrowserManager.mk (Some 0) (Some 1),
     [BrowserManager.PlaywrightStart; BrowserManager.ChromiumLaunch])
  /\
  BrowserManager.stop (fun _ => false) BrowserManager.init []
  = (Ok tt, BrowserManager.init, []).
Proof.
  split.
  - apply (proj1 (browser_lifecycle_idempotent (fun _ => false)
                    (BrowserManager.mk (Some 0) (Some 1))
                    [BrowserManager.PlaywrightStart; BrowserManager.ChromiumLaunch])).
    exists 1. reflexivity.
  - apply (proj1 (proj2 (browser_lifecycle_idempotent (fun _ => false)
                           BrowserManager.init []))).
    split; reflexivity.
Defined.

(** ** DataExtractor *)

Section extractor_facts.

Import DataExtractor.

(** A strategy whose page evaluation raises produces no record. *)
Lemma failed_strategy_is_empty (p : page) :
  (is_ok (react_state p) = false -> run_strategy ReactState p = VList []) /\
  (is_ok (next_data p) = false -> run_strategy NextData p = VList []) /\
  (is_ok (preloads p) = false -> run_strategy Preloads p = VList []) /\
  (is_ok (dom_cards p) = false -> run_strategy Dom p = VList []).
Proof.
  repeat split; simpl;
    unfold _extract_from_react_state, _extract_from_next_data,
      _extract_from_preloads, _extract_from_dom;
    match goal with |- is_ok ?m = false -> _ => destruct m end;
    simpl; intros; (discriminate || reflexivity).
Qed.

(** The last strategy returns a list, so when it is falsy it is [[]]. *)
Lemma dom_strategy_empty (p : page) :
  truthy (run_strategy Dom p) = false -> run_strategy Dom p = VList [].
Proof.
  simpl. unfold _extract_from_dom.
  destruct (dom_cards p) as [[|c cs]|ex]; simpl; intros; (discriminate || reflexivity).
Qed.

Lemma fallback_stop (s : strategy) (p : page) (invoked : list strategy) (posts : value) :
  truthy posts = true -> fallback s p (invoked, posts) = (invoked, posts).
Proof. intros Hp. unfold fallback. simpl. rewrite Hp. reflexivity. Qed.

Lemma fallback_next (s : strategy) (p : page) (invoked : list strategy) (posts : value) :
  truthy posts = false ->
  fallback s p (invoked, posts) = (invoked ++ [s], run_strategy s p).
Proof. intros Hp. unfold fallback. simpl. rewrite Hp. reflexivity. Qed.

End extractor_facts.

(** C3.  [extract_posts] invokes the strategies in the order React state,
    [__NEXT_DATA__], [window._preloads], DOM, and stops at the first one
    whose result is not empty: the strategies after it are not invoked,
    and what [extract_posts] returns is the stamping of that result.  When
    all four come back empty, and so when all four fail (a strategy that
    fails comes back empty), [extract_posts] returns the empty list
    without raising. *)
Theorem extract_posts_fallback_chain
    (p : DataExtractor.page) (keyword scraped_at : string) :
  let run s := DataExtractor.run_strategy s p in
  let stamped posts :=
    items <- py_iter posts ;; mapM (DataExtractor.stamp keyword scraped_at) items in
  let ReactState := DataExtractor.ReactState in
  let NextData := DataExtractor.NextData in
  let Preloads := DataExtractor.Preloads in
  let Dom := DataExtractor.Dom in
  (truthy (run ReactState) = true ->
     DataExtractor.extract_posts p keyword scraped_at
     = ([ReactState], stamped (run ReactState))) /\
  (truthy (run ReactState) = false -> truthy (run NextData) = true ->
     DataExtractor.extract_posts p keyword scraped_at
     = ([ReactState; NextData], stamped (run NextData))) /\
  (truthy (run ReactState) = false -> truthy (run NextData) = false ->
   truthy (run Preloads) = true ->
     DataExtractor.extract_posts p keyword scraped_at
     = ([ReactState; NextData; Preloads], stamped (run Preloads))) /\
  (truthy (run ReactState) = false -> truthy (run NextData) = false ->
   truthy (run Preloads) = false ->
     DataExtractor.extract_posts p keyword scraped_at
     = ([ReactState; NextData; Preloads; Dom], stamped (run Dom))) /\
  (truthy (run ReactState) = false -> truthy (run NextData) = false ->
   truthy (run Preloads) = false -> truthy (run Dom) = false ->
     DataExtractor.extract_posts p keyword scraped_at
     = ([ReactState; NextData; Preloads; Dom], Ok [])) /\
  (is_ok (DataExtractor.react_state p) = false ->
   is_ok (DataExtractor.next_data p) = false ->
   is_ok (DataExtractor.preloads p) = false ->
   is_ok (DataExtractor.dom_cards p) = false ->
     DataExtractor.extract_posts p keyword scraped_at
     = ([ReactState; NextData; Preloads; Dom], Ok [])).
Proof.
  cbv zeta. unfold DataExtractor.extract_posts, DataExtractor.chain.
  split; [|split; [|split; [|split; [|split]]]].
  - intros H1. rewrite !fallback_stop by exact H1. reflexivity.
  - intros H1 H2. rewrite (fallback_next _ _ _ _ H1).
    rewrite !fallback_stop by exact H2. reflexivity.
  - intros H1 H2 H3. rewrite (fallback_next _ _ _ _ H1), (fallback_next _ _ _ _ H2).
    rewrite fallback_stop by exact H3. reflexivity.
  - intros H1 H2 H3.
    rewrite (fallback_next _ _ _ _ H1), (fallback_next _ _ _ _ H2),
      (fallback_next _ _ _ _ H3). reflexivity.
  - intros H1 H2 H3 H4.
    rewrite (fallback_next _ _ _ _ H1), (fallback_next _ _ _ _ H2),
      (fallback_next _ _ _ _ H3).
    rewrite (dom_strategy_empty p H4). reflexivity.
  - intros F1 F2 F3 F4.
    destruct (failed_strategy_is_empty p) as (E1 & E2 & E3 & E4).
    specialize (E1 F1). specialize (E2 F2). specialize (E3 F3). specialize (E4 F4).
    rewrite (fallback_next _ _ _ _ (f_equal truthy E1)).
    rewrite (fallback_next _ _ _ _ (f_equal truthy E2)).
    rewrite (fallback_next _ _ _ _ (f_equal truthy E3)).
    rewrite E4. reflexivity.
Qed.

Lemma extract_posts_fallback_witness :
  let failing :=
    DataExtractor.mk_page (Raise PlaywrightError) (Raise PlaywrightError)
      (Raise PlaywrightError) (Raise PlaywrightError) in
  let answering :=
    DataExtractor.mk_page (Ok [VDict {[ "id" := VInt 7 ]}]) (Raise PlaywrightError)
      (Raise PlaywrightError) (Raise PlaywrightError) in
  DataExtractor.extract_posts failing "ai" "2025-01-01T00:00:00Z"
  = ([DataExtractor.ReactState; DataExtractor.NextData;
      DataExtractor.Preloads; DataExtractor.Dom], Ok [])
  /\
  DataExtractor.extract_posts answering "ai" "2025-01-01T00:00:00Z"
  = ([DataExtractor.ReactState],
     Ok [<["scrapedAt" := VStr "2025-01-01T00:00:00Z"]>
           (<["keyword" := VStr "ai"]> {[ "id" := VInt 7 ]})]).
Proof.
  cbv zeta. split.
  - apply (proj2 (proj2 (proj2 (proj2 (proj2 (extract_posts_fallback_chain
             (DataExtractor.mk_page (Raise PlaywrightError) (Raise PlaywrightError)
                (Raise PlaywrightError) (Raise PlaywrightError))
             "ai" "2025-01-01T00:00:00Z")))))); reflexivity.
  - apply (proj1 (extract_posts_fallback_chain
             (DataExtractor.mk_page (Ok [VDict {[ "id" := VInt 7 ]}])
                (Raise PlaywrightError) (Raise PlaywrightError) (Raise PlaywrightError))
             "ai" "2025-01-01T00:00:00Z")); reflexivity.
Defined.

(** ** Models *)

Section model_facts.

Import Models.

Variable validate : validator.
Variable now : Z.

Lemma construct_raised (kwargs : record) (fields : list field) (ex : exn) :
  foldl (fun acc f => self <- acc ;; init_field validate now kwargs f self)
        (Raise ex) fields = Raise ex.
Proof. induction fields as [|f fields IH]; simpl; [reflexivity | exact IH]. Qed.

(** [keyword] is declared with [Field(...)]: without it the model is not
    built, whatever else the record holds. *)
Lemma SubstackPost_requires_keyword (kwargs : record) :
  kwargs !! "keyword" = None ->
  SubstackPost validate now kwargs = Raise ValidationError.
Proof.
  intros Hk. unfold SubstackPost, construct, SubstackPost_fields.
  match goal with
  | |- foldl ?F ?a (?f :: ?fs) = _ =>
      change (foldl F (F a f) fs = Raise ValidationError)
  end.
  cbn [bind]. unfold init_field at 2, field_value. rewrite Hk. apply construct_raised.
Qed.

(** The model seen as the list of its field values assigned in turn. *)
Definition named_value (kwargs : record) (f : field) : result (string * value) :=
  v <- field_value validate now kwargs f ;; Ok (f.1.1, v).

Definition assign (self : record) (kv : string * value) : record :=
  <[kv.1 := kv.2]> self.

Lemma construct_values (kwargs : record) (fields : list field) :
  forall self : record,
  foldl (fun acc f => self <- acc ;; init_field validate now kwargs f self)
        (Ok self) fields
  = (vals <- mapM (named_value kwargs) fields ;; Ok (foldl assign self vals)).
Proof.
  induction fields as [|f fields IH]; intros self; [reflexivity|].
  cbn [foldl mapM bind]. unfold init_field at 2, named_value at 1.
  destruct (field_value validate now kwargs f) as [v|ex]; cbn [bind].
  - rewrite IH. destruct (mapM (named_value kwargs) fields); reflexivity.
  - apply construct_raised.
Qed.

(** The value last assigned to [k], if any. *)
Fixpoint assigned (k : string) (vals : list (string * value)) : option value :=
  match vals with
  | [] => None
  | kv :: vals' =>
      match assigned k vals' with
      | Some v => Some v
      | None => if String.eqb kv.1 k then Some kv.2 else None
      end
  end.

Lemma lookup_assign (k : string) (vals : list (string * value)) :
  forall self : record,
  foldl assign self vals !! k
  = match assigned k vals with Some v => Some v | None => self !! k end.
Proof.
  induction vals as [|kv vals IH]; intros self; [reflexivity|].
  cbn [foldl assigned]. rewrite IH. destruct (assigned k vals); [reflexivity|].
  unfold assign. destruct (String.eqb_spec kv.1 k) as [->|Hne].
  - apply lookup_insert_eq.
  - apply lookup_insert_ne. exact Hne.
Qed.

End model_facts.

(** A raw record holding exactly [id], [publication_id], [title], [slug],
    [canonical_url] and [post_date]. *)
Definition minimal_record (id publication_id : Z) (title slug canonical_url : string)
    (post_date : value) : record :=
  <["id" := VInt id]>
  (<["publication_id" := VInt publication_id]>
  (<["title" := VStr title]>
  (<["slug" := VStr slug]>
  (<["canonical_url" := VStr canonical_url]>
  (<["post_date" := post_date]> ∅))))).

(** Evaluates the field values of a model built from explicit keys. *)
Ltac eval_field_values :=
  match goal with
  | |- context [mapM ?G ?l] =>
      let r := eval vm_compute in (mapM G l) in
      replace (mapM G l) with r by (vm_cast_no_check (eq_refl r))
  end.

(** C7, as stated, fails: the record of the six fields alone is rejected,
    because [keyword] is a required field of [SubstackPost]. *)
Lemma post_without_keyword_counterexample :
  Models.SubstackPost Models.exact_types 0
    (minimal_record 1 1 "Minimal Post" "minimal-post"
       "https://example.substack.com/p/minimal" (VStr "2025-01-01T10:00:00.000Z"))
  = Raise ValidationError.
Proof. apply SubstackPost_requires_keyword. vm_compute. reflexivity. Qed.

(** C7, amended.  With [keyword] next to the six fields the post is built,
    with [type = "newsletter"] and [audience = "everyone"]; and so is the
    minimal post that [_create_minimal_post] builds from the six fields and
    the keyword it is given.  The validator is any one that accepts a string
    for [str], an integer for [int] and the given date for [datetime | str]. *)
Theorem post_minimal_defaults
    (validate : Models.validator) (now : Z) (keyword : string)
    (id publication_id : Z) (title slug canonical_url : string) (post_date : value) :
  (forall s, validate Models.TStr (VStr s) = Some (VStr s)) ->
  (forall z, validate Models.TInt (VInt z) = Some (VInt z)) ->
  is_Some (validate (Models.TUnion Models.TDatetime Models.TStr) post_date) ->
  let raw := minimal_record id publication_id title slug canonical_url post_date in
  (exists post,
     Models.SubstackPost validate now (<["keyword" := VStr keyword]> raw) = Ok post /\
     post !! "type" = Some (VStr "newsletter") /\
     post !! "audience" = Some (VStr "everyone")) /\
  (exists post,
     SearchScraper._create_minimal_post validate now raw keyword = Ok post /\
     post !! "type" = Some (VStr "newsletter") /\
     post !! "audience" = Some (VStr "everyone")).
Proof.
  intros Hstr Hint [d Hd] raw. subst raw. split.
  - unfold Models.SubstackPost, Models.construct. rewrite construct_values.
    eval_field_values. rewrite !Hstr, !Hint, Hd. cbn [bind].
    eexists. split; [reflexivity|].
    rewrite !lookup_assign. split; vm_compute; reflexivity.
  - unfold SearchScraper._create_minimal_post, Models.SubstackPost, Models.construct.
    rewrite construct_values.
    eval_field_values. rewrite !Hstr, !Hint, Hd. cbn [bind].
    eexists. split; [reflexivity|].
    rewrite !lookup_assign. split; vm_compute; reflexivity.
Qed.

Lemma post_minimal_defaults_witness :
  let raw := minimal_record 1 1 "Minimal Post" "minimal-post"
               "https://example.substack.com/p/minimal"
               (VStr "2025-01-01T10:00:00.000Z") in
  (exists post,
     Models.SubstackPost Models.exact_types 0 (<["keyword" := VStr "test"]> raw) = Ok post /\
     post !! "type" = Some (VStr "newsletter") /\
     post !! "audience" = Some (VStr "everyone")) /\
  (exists post,
     SearchScraper._create_minimal_post Models.exact_types 0 raw "test" = Ok post /\
     post !! "type" = Some (VStr "newsletter") /\
     post !! "audience" = Some (VStr "everyone")).
Proof.
  apply (post_minimal_defaults Models.exact_types 0 "test" 1 1 "Minimal Post"
           "minimal-post" "https://example.substack.com/p/minimal"
           (VStr "2025-01-01T10:00:00.000Z")).
  - intros s. reflexivity.
  - intros z. reflexivity.
  - eexists. reflexivity.
Defined.

(** ** PostFetcher *)

Section fetcher_facts.

Import PostFetcher.

(** The keys that [_extract_content] can set. *)
Definition content_keys : gset string :=
  {[ "body_html"; "body_json"; "wordcount";
     "reactions"; "comment_count"; "restacks"; "audio_items" ]}.

Lemma copy_if_set_dom (post content : record) (key : string) (keys : gset string) :
  key ∈ keys -> dom content ⊆ keys -> dom (copy_if_set post key content) ⊆ keys.
Proof.
  intros Hkey Hdom. unfold copy_if_set. destruct (post !! key) as [v|]; [|exact Hdom].
  destruct (truthy v); [|exact Hdom]. rewrite dom_insert_L. set_solver.
Qed.

Lemma content_of_next_data_dom (pg : post_page) (content : record) :
  content_of_next_data pg = Ok content -> dom content ⊆ content_keys.
Proof.
  unfold content_of_next_data.
  destruct (next_data pg) as [[data|]|ex]; simpl; [| intros [= <-]; set_solver | discriminate].
  destruct (py_get data "props" (VDict ∅)) as [props|]; simpl; [|discriminate].
  destruct (py_get props "pageProps" (VDict ∅)) as [page_props|]; simpl; [|discriminate].
  destruct (py_get page_props "post" (VDict ∅)) as [post|]; simpl; [|discriminate].
  destruct (truthy post); [| intros [= <-]; set_solver].
  destruct post as [| | | | | | |d]; simpl; try discriminate.
  intros [= <-].
  unfold content_keys.
  repeat (apply copy_if_set_dom; [set_solver|]).
  rewrite !dom_insert_L, dom_empty_L. set_solver.
Qed.

Lemma _extract_content_dom (pg : post_page) :
  dom (_extract_content pg) ⊆ content_keys.
Proof.
  unfold _extract_content.
  assert (Hc : dom (catch (content_of_next_data pg) ∅) ⊆ content_keys).
  { destruct (content_of_next_data pg) as [content|ex] eqn:Hc; simpl.
    - exact (content_of_next_data_dom pg content Hc).
    - set_solver. }
  destruct (truthy (get (catch (content_of_next_data pg) ∅) "body_html" VNone));
    [exact Hc|].
  destruct (body_container pg) as [body_html|ex]; [|exact Hc].
  destruct (truthy body_html); [|exact Hc].
  rewrite dom_insert_L. unfold content_keys in *. set_solver.
Qed.

Lemma fetch_post_content_dom (load : result post_page) :
  dom (fetch_post_content load) ⊆ content_keys.
Proof.
  unfold fetch_post_content. destruct load as [pg|ex]; simpl.
  - apply _extract_content_dom.
  - set_solver.
Qed.

Section run.

Variable fetch : nat -> value -> result record.
Variable posts : list nat.
Variable max_concurrent : Z.
Variable h0 : heap.

(** What a slot has been given so far is what it will return. *)
Definition returns_own_post (p : pool) : Prop :=
  forall i q, returned p !! i = Some (Ok q) -> posts !! i = Some q.

Lemma step_returns_own_post (ev : event) (p p' : pool) :
  step fetch posts max_concurrent ev p = Some p' ->
  returns_own_post p -> returns_own_post p'.
Proof.
  unfold returns_own_post. intros Hstep Hinv j q.
  destruct ev as [i|i]; simpl in Hstep.
  - destruct (bool_decide (i = started p) && _); [|discriminate].
    destruct (posts !! i) as [post|] eqn:Hpost; simpl in Hstep; [|discriminate].
    destruct (store p !! post) as [r|]; simpl in Hstep; [|discriminate].
    destruct (truthy _); injection Hstep as <-; simpl; [apply Hinv|].
    rewrite lookup_insert. case_decide as Hij; [|apply Hinv].
    intros [= <-]. subst j. exact Hpost.
  - destruct (running p !! i) as [url|]; simpl in Hstep; [|discriminate].
    destruct (posts !! i) as [post|] eqn:Hpost; simpl in Hstep; [|discriminate].
    destruct (fetch i url) as [content|ex]; injection Hstep as <-; simpl;
      rewrite lookup_insert; case_decide as Hij; try apply Hinv.
    + intros [= <-]. subst j. exact Hpost.
    + discriminate.
Qed.

Lemma steps_returns_own_post (sched : list event) :
  forall p p' : pool,
  steps fetch posts max_concurrent sched p = Some p' ->
  returns_own_post p -> returns_own_post p'.
Proof.
  induction sched as [|ev sched IH]; intros p p' Hrun Hinv; simpl in Hrun.
  - injection Hrun as <-. exact Hinv.
  - destruct (step fetch posts max_concurrent ev p) as [p1|] eqn:Hstep;
      simpl in Hrun; [|discriminate].
    exact (IH p1 p' Hrun (step_returns_own_post ev p p1 Hstep Hinv)).
Qed.

Lemma collect_own_posts (p : pool) (out : list nat) :
  returns_own_post p -> collect posts p = Some out -> out = posts.
Proof.
  intros Hinv. unfold collect.
  destruct (_ && _); [|discriminate]. intros [= <-].
  apply list_eq. intros i. rewrite list_lookup_imap.
  destruct (posts !! i) as [post|] eqn:Hpost; simpl; [|reflexivity].
  destruct (returned p !! i) as [[q|ex]|] eqn:Hret; try reflexivity.
  specialize (Hinv i q Hret). congruence.
Qed.

Lemma enrich_posts_run (sched : list event) (h h' : heap) (out : list nat) :
  enrich_posts fetch posts max_concurrent true sched h = Some (out, h') ->
  exists p,
    steps fetch posts max_concurrent sched (mk_pool h 0 ∅ ∅) = Some p /\
    collect posts p = Some out /\ h' = store p.
Proof.
  unfold enrich_posts. cbn [negb].
  destruct (max_concurrent <? 0)%Z; [discriminate|].
  destruct (steps fetch posts max_concurrent sched (mk_pool h 0 ∅ ∅)) as [p|] eqn:Hsteps;
    simpl; [|discriminate].
  destruct (collect posts p) as [out'|] eqn:Hcol; simpl; [|discriminate].
  intros [= <- <-]. exists p. split; [reflexivity|]. split; [exact Hcol | reflexivity].
Qed.

(** Whatever the interleaving, [enrich_posts] returns its argument: the
    same objects in the same slots. *)
Lemma enrich_posts_returns_argument (fetch_content : bool) (sched : list event)
    (h h' : heap) (out : list nat) :
  enrich_posts fetch posts max_concurrent fetch_content sched h = Some (out, h') ->
  out = posts.
Proof.
  destruct fetch_content; [|intros [= <- _]; reflexivity].
  intros Hrun. destruct (enrich_posts_run sched h h' out Hrun) as (p & Hsteps & Hcol & _).
  apply (collect_own_posts p); [|exact Hcol].
  apply (steps_returns_own_post sched _ p Hsteps).
  intros i q. simpl. rewrite lookup_empty. discriminate.
Qed.

(** [r'] is [r] with some keys taken from what was fetched for [post]. *)
Definition merged (post : nat) (r r' : record) : Prop :=
  forall k,
    r' !! k = r !! k \/
    exists i url content,
      posts !! i = Some post /\ fetch i url = Ok content /\
      is_Some (content !! k) /\ r' !! k = content !! k.

Definition store_merged (p : pool) : Prop :=
  forall post r, h0 !! post = Some r ->
    exists r', store p !! post = Some r' /\ merged post r r'.

Lemma step_store_merged (ev : event) (p p' : pool) :
  step fetch posts max_concurrent ev p = Some p' ->
  store_merged p -> store_merged p'.
Proof.
  intros Hstep Hinv. destruct ev as [i|i]; simpl in Hstep.
  - destruct (bool_decide (i = started p) && _); [|discriminate].
    destruct (posts !! i) as [post|]; simpl in Hstep; [|discriminate].
    destruct (store p !! post) as [r|]; simpl in Hstep; [|discriminate].
    destruct (truthy _); injection Hstep as <-; exact Hinv.
  - destruct (running p !! i) as [url|]; simpl in Hstep; [|discriminate].
    destruct (posts !! i) as [post|] eqn:Hpost; simpl in Hstep; [|discriminate].
    destruct (fetch i url) as [content|ex] eqn:Hfetch; injection Hstep as <-;
      [|exact Hinv].
    intros q r Hq. destruct (Hinv q r Hq) as (r' & Hr' & Hm). simpl. unfold update.
    rewrite lookup_alter. case_decide as Hpq; [|exists r'; split; assumption].
    subst q. rewrite Hr'. simpl. eexists. split; [reflexivity|].
    intros k. destruct (content !! k) as [v|] eqn:Hk.
    + right. exists i, url, content. repeat split; try assumption.
      * rewrite Hk. eexists; reflexivity.
      * rewrite Hk. apply lookup_union_Some_l. exact Hk.
    + rewrite (lookup_union_r _ _ _ Hk). apply Hm.
Qed.

Lemma steps_store_merged (sched : list event) :
  forall p p' : pool,
  steps fetch posts max_concurrent sched p = Some p' ->
  store_merged p -> store_merged p'.
Proof.
  induction sched as [|ev sched IH]; intros p p' Hrun Hinv; simpl in Hrun.
  - injection Hrun as <-. exact Hinv.
  - destruct (step fetch posts max_concurrent ev p) as [p1|] eqn:Hstep;
      simpl in Hrun; [|discriminate].
    exact (IH p1 p' Hrun (step_store_merged ev p p1 Hstep Hinv)).
Qed.

(** What slot [i] makes of the record [r] when no other slot shares it. *)
Definition enriched (i : nat) (r : record) : record :=
  let url := get r "canonical_url" VNone in
  if truthy url then
    match fetch i url with
    | Ok content => content ∪ r
    | Raise _ => r
    end
  else r.

(** With pairwise distinct objects, every slot is in one of three states:
    not entered (its record untouched), inside the semaphore (the
    permalink read, the record untouched), or returned (its record
    enriched by its own fetch). *)
Definition slots_apart (p : pool) : Prop :=
  (forall i, is_Some (running p !! i) -> i < started p) /\
  (forall q, q ∉ posts -> store p !! q = h0 !! q) /\
  (forall i post r, posts !! i = Some post -> h0 !! post = Some r ->
     if decide (started p <= i) then store p !! post = Some r
     else match running p !! i with
          | Some url =>
              url = get r "canonical_url" VNone /\ truthy url = true /\
              store p !! post = Some r
          | None => store p !! post = Some (enriched i r)
          end).

Lemma step_slots_apart (ev : event) (p p' : pool) :
  NoDup posts ->
  step fetch posts max_concurrent ev p = Some p' ->
  slots_apart p -> slots_apart p'.
Proof.
  intros Hnodup Hstep (Hrun & Hout & Hslot). destruct ev as [i|i]; simpl in Hstep.
  - destruct (bool_decide (i = started p)) eqn:Hi; simpl in Hstep; [|discriminate].
    apply bool_decide_eq_true in Hi.
    destruct (Z.of_nat (size (running p)) <? max_concurrent)%Z; [|discriminate].
    destruct (posts !! i) as [post|] eqn:Hpost; simpl in Hstep; [|discriminate].
    destruct (store p !! post) as [r|] eqn:Hr; simpl in Hstep; [|discriminate].
    assert (Hidle : running p !! i = None).
    { destruct (running p !! i) as [u|] eqn:Hu; [|reflexivity].
      assert (i < started p) by (apply Hrun; exists u; exact Hu). lia. }
    destruct (truthy (get r "canonical_url" VNone)) eqn:Hurl;
      injection Hstep as <-; unfold slots_apart; cbn [store started running returned];
      (split; [|split; [exact Hout|]]).
    + intros j [u Hu]. rewrite lookup_insert in Hu.
      destruct (decide (i = j)); [lia|].
      assert (j < started p) by (apply Hrun; eexists; exact Hu). lia.
    + intros j pj rj Hpj Hrj. specialize (Hslot j pj rj Hpj Hrj).
      destruct (decide (S (started p) <= j)) as [Hge|Hlt].
      * destruct (decide (started p <= j)); [exact Hslot | lia].
      * rewrite lookup_insert. destruct (decide (i = j)) as [Hij|Hij].
        -- subst j. destruct (decide (started p <= i)); [|lia].
           assert (pj = post) by congruence. subst pj.
           assert (rj = r) by congruence. subst rj. repeat split; assumption.
        -- destruct (decide (started p <= j)); [lia | exact Hslot].
    + intros j Hj. specialize (Hrun j Hj). lia.
    + intros j pj rj Hpj Hrj. specialize (Hslot j pj rj Hpj Hrj).
      destruct (decide (S (started p) <= j)) as [Hge|Hlt].
      * destruct (decide (started p <= j)); [exact Hslot | lia].
      * destruct (decide (started p <= j)) as [Hle|Hgt]; [|exact Hslot].
        assert (j = i) by lia. subst j.
        assert (pj = post) by congruence. subst pj.
        assert (rj = r) by congruence. subst rj.
        rewrite Hidle. unfold enriched. rewrite Hurl. exact Hr.
  - destruct (running p !! i) as [url|] eqn:Hurl; simpl in Hstep; [|discriminate].
    destruct (posts !! i) as [post|] eqn:Hpost; simpl in Hstep; [|discriminate].
    assert (Hi : i < started p) by (apply Hrun; eexists; exact Hurl).
    assert (Hother : forall j pj, posts !! j = Some pj -> j ≠ i -> pj ≠ post).
    { intros j pj Hpj Hji ->. apply Hji. exact (NoDup_lookup posts j i post Hnodup Hpj Hpost). }
    assert (Hslots :
      forall store',
      (forall q, q ≠ post -> store' !! q = store p !! q) ->
      (forall r, h0 !! post = Some r -> store' !! post = Some (enriched i r)) ->
      slots_apart (mk_pool store' (started p) (delete i (running p))
                     (<[i := match fetch i url with Ok _ => Ok post | Raise e => Raise e end]>
                        (returned p)))).
    { intros store' Hframe Hmine. unfold slots_apart.
      cbn [store started running returned]. split; [|split].
      - intros j [u Hu]. rewrite lookup_delete in Hu.
        destruct (decide (i = j)); [discriminate|].
        apply Hrun. eexists; exact Hu.
      - intros q Hq. rewrite Hframe; [apply Hout; exact Hq|].
        intros ->. apply Hq. apply list_elem_of_lookup. exists i. exact Hpost.
      - intros j pj rj Hpj Hrj. specialize (Hslot j pj rj Hpj Hrj).
        destruct (decide (j = i)) as [->|Hji].
        + destruct (decide (started p <= i)); [lia|].
          rewrite lookup_delete_eq. assert (pj = post) by congruence. subst pj.
          apply Hmine. exact Hrj.
        + rewrite (Hframe pj (Hother j pj Hpj Hji)).
          rewrite lookup_delete_ne by congruence. exact Hslot. }
    destruct (fetch i url) as [content|ex] eqn:Hfetch; injection Hstep as <-.
    + apply Hslots.
      * intros q Hq. unfold update. apply lookup_alter_ne. congruence.
      * intros r Hr. specialize (Hslot i post r Hpost Hr).
        destruct (decide (started p <= i)); [lia|]. rewrite Hurl in Hslot.
        destruct Hslot as (-> & Htruthy & Hstore).
        unfold update. rewrite lookup_alter_eq, Hstore. simpl.
        unfold enriched. rewrite Htruthy, Hfetch. reflexivity.
    + apply Hslots.
      * intros q _. reflexivity.
      * intros r Hr. specialize (Hslot i post r Hpost Hr).
        destruct (decide (started p <= i)); [lia|]. rewrite Hurl in Hslot.
        destruct Hslot as (-> & Htruthy & Hstore).
        unfold enriched. rewrite Htruthy, Hfetch. exact Hstore.
Qed.

Lemma steps_slots_apart (sched : list event) :
  NoDup posts ->
  forall p p' : pool,
  steps fetch posts max_concurrent sched p = Some p' ->
  slots_apart p -> slots_apart p'.
Proof.
  intros Hnodup.
  induction sched as [|ev sched IH]; intros p p' Hrun Hinv; simpl in Hrun.
  - injection Hrun as <-. exact Hinv.
  - destruct (step fetch posts max_concurrent ev p) as [p1|] eqn:Hstep;
      simpl in Hrun; [|discriminate].
    exact (IH p1 p' Hrun (step_slots_apart ev p p1 Hnodup Hstep Hinv)).
Qed.

End run.

End fetcher_facts.

Section enrich_returns.

Import PostFetcher.

Variable fetch : nat -> value -> result record.
Variable posts : list nat.
Variable max_concurrent : Z.
Variable h : heap.
Hypothesis Hmc : (1 <= max_concurrent)%Z.
Hypothesis Hnodup : NoDup posts.

Lemma steps_app (s1 s2 : list event) (p : pool) :
  steps fetch posts max_concurrent (s1 ++ s2) p
  = p' ← steps fetch posts max_concurrent s1 p; steps fetch posts max_concurrent s2 p'.
Proof.
  revert p. induction s1 as [|ev s1 IH]; intros p; simpl; [reflexivity|].
  destruct (step fetch posts max_concurrent ev p) as [p1|]; simpl; [apply IH | reflexivity].
Qed.

(** Between two tasks of the one-by-one schedule: the tasks before [i]
    have returned, and the records of the others are untouched. *)
Lemma one_by_one_completes (rest : list nat) :
  forall (before : list nat) (p : pool),
  posts = before ++ rest ->
  started p = length before ->
  running p = ∅ ->
  (forall post, post ∈ rest -> is_Some (h !! post) /\ store p !! post = h !! post) ->
  exists p',
    steps fetch posts max_concurrent (one_by_one (length before) rest h) p = Some p' /\
    started p' = length posts /\ running p' = ∅.
Proof.
  induction rest as [|post rest IH]; intros before p Hposts Hstarted Hidle Hrest.
  - exists p. simpl. rewrite Hposts, app_nil_r. repeat split; assumption.
  - assert (Hpost : posts !! length before = Some post).
    { rewrite Hposts. apply list_lookup_middle. reflexivity. }
    assert (Hfresh : post ∉ rest).
    { rewrite Hposts in Hnodup. apply NoDup_app in Hnodup.
      destruct Hnodup as (_ & _ & Hnd). apply NoDup_cons in Hnd. tauto. }
    destruct (Hrest post) as [[r Hr] Hstore]; [left|].
    rewrite Hr in Hstore.
    assert (Hnext : forall p1,
      started p1 = S (length before) -> running p1 = ∅ ->
      (forall q, q ≠ post -> store p1 !! q = store p !! q) ->
      exists p',
        steps fetch posts max_concurrent (one_by_one (S (length before)) rest h) p1 = Some p' /\
        started p' = length posts /\ running p' = ∅).
    { intros p1 Hs1 Hi1 Hframe.
      specialize (IH (before ++ [post]) p1).
      rewrite length_app in IH. simpl in IH. rewrite Nat.add_1_r in IH.
      apply IH; try assumption.
      - rewrite Hposts, <- app_assoc. reflexivity.
      - intros q Hq. destruct (Hrest q) as [Hsome Hsame]; [right; exact Hq|].
        split; [exact Hsome|]. rewrite Hframe; [exact Hsame|].
        intros ->. contradiction. }
    cbn [one_by_one]. rewrite steps_app.
    assert (Hguard : bool_decide (length before = started p)
                     && (Z.of_nat (size (running p)) <? max_concurrent)%Z = true).
    { rewrite Hidle, map_size_empty, bool_decide_eq_true_2 by congruence.
      simpl. apply Z.ltb_lt. lia. }
    assert (Hderef : deref h post = r) by (unfold deref; rewrite Hr; reflexivity).
    rewrite Hderef.
    destruct (truthy (get r "canonical_url" VNone)) eqn:Hurl.
    + cbn [steps step]. rewrite Hguard, Hpost. cbn [mbind option_bind].
      rewrite Hstore. cbn [mbind option_bind]. rewrite Hurl.
      cbn [mbind option_bind store started running returned].
      rewrite lookup_insert_eq. cbn [mbind option_bind].
      rewrite Hidle.
      destruct (fetch (length before) (get r "canonical_url" VNone)) as [content|ex];
        cbn [mbind option_bind]; apply Hnext; cbn [store started running returned].
      * rewrite Hstarted. reflexivity.
      * rewrite delete_insert_eq. apply delete_empty.
      * intros q Hq. unfold update. apply lookup_alter_ne. congruence.
      * rewrite Hstarted. reflexivity.
      * rewrite delete_insert_eq. apply delete_empty.
      * intros q _. reflexivity.
    + cbn [steps step]. rewrite Hguard, Hpost. cbn [mbind option_bind].
      rewrite Hstore. cbn [mbind option_bind]. rewrite Hurl.
      cbn [mbind option_bind]. apply Hnext; cbn [store started running returned].
      * rewrite Hstarted. reflexivity.
      * exact Hidle.
      * intros q _. reflexivity.
Qed.

(** With room for one task at a time and every record in the store, the
    one-by-one schedule is a complete run: [enrich_posts] returns. *)
Lemma enrich_posts_returns :
  (forall post, post ∈ posts -> is_Some (h !! post)) ->
  is_Some (enrich_posts fetch posts max_concurrent true (one_by_one 0 posts h) h).
Proof.
  intros Hall. unfold enrich_posts. cbn [negb].
  destruct (Z.ltb_spec max_concurrent 0) as [?|_]; [lia|].
  destruct (one_by_one_completes posts [] (mk_pool h 0 ∅ ∅)) as (p' & Hsteps & Hs & Hi);
    try reflexivity.
  - intros post Hpost. split; [apply Hall; exact Hpost | reflexivity].
  - simpl in Hsteps. rewrite Hsteps. cbn [mbind option_bind].
    unfold collect. rewrite Hs, Hi, map_size_empty.
    rewrite !bool_decide_eq_true_2 by reflexivity. simpl. eexists. reflexivity.
Qed.

End enrich_returns.

(** A slot whose fetch raises or yields nothing leaves its record as it was. *)
Lemma enriched_nothing_fetched (fetch : nat -> value -> result record) (i : nat) (r : record) :
  (forall content, fetch i (get r "canonical_url" VNone) = Ok content -> content = ∅) ->
  enriched fetch i r = r.
Proof.
  intros Hnone. unfold enriched.
  destruct (truthy (get r "canonical_url" VNone)); [|reflexivity].
  destruct (fetch i (get r "canonical_url" VNone)) as [content|ex]; [|reflexivity].
  rewrite (Hnone content eq_refl). apply (left_id_L ∅ (∪)).
Qed.

(** C4, as stated, fails when two slots of the list hold the same object:
    the fetch of slot 0 succeeds, the fetch of slot 1 yields nothing, and
    the record returned in slot 1 is the one updated by slot 0, not the
    record that was passed in. *)
Lemma enrich_posts_shared_object_counterexample :
  let r : record := {[ "canonical_url" := VStr "https://a.substack.com/p/x" ]} in
  let h : heap := {[ 0 := r ]} in
  let fetch := fun (i : nat) (_ : value) =>
    if Nat.eqb i 0 then Ok ({[ "body_html" := VStr "<p>x</p>" ]} : record) else Ok ∅ in
  let sched := [PostFetcher.Start 0; PostFetcher.Start 1;
                PostFetcher.Finish 0; PostFetcher.Finish 1] in
  fetch 1 (VStr "https://a.substack.com/p/x") = Ok ∅ /\
  deref h 0 !! "body_html" = None /\
  match PostFetcher.enrich_posts fetch [0; 0] 3 true sched h with
  | Some (out, h') =>
      out !! 1 = Some 0 /\ deref h' 0 !! "body_html" = Some (VStr "<p>x</p>")
  | None => False
  end.
Proof. cbv zeta. vm_compute. repeat split; reflexivity. Qed.

(** C4, amended.  When the records of the list are pairwise distinct
    objects, [enrich_posts] returns the same objects in the same slots;
    afterwards the record of slot [i] is its input record merged with what
    its own fetch returned, hence the input record itself when that fetch
    raised or yielded nothing; objects outside the list are untouched.
    With [fetch_content] false the list and the store come back as they
    were.  A complete run exists as soon as one task at a time is admitted
    and every record is in the store. *)
Theorem enrich_posts_slotwise
    (fetch : nat -> value -> result record) (posts : list nat)
    (max_concurrent : Z) (sched : list PostFetcher.event)
    (h h' : heap) (out : list nat) :
  NoDup posts ->
  PostFetcher.enrich_posts fetch posts max_concurrent true sched h = Some (out, h') ->
  out = posts /\
  (forall i post r, posts !! i = Some post -> h !! post = Some r ->
     h' !! post = Some (enriched fetch i r) /\
     ((forall content, fetch i (get r "canonical_url" VNone) = Ok content -> content = ∅) ->
      h' !! post = Some r)) /\
  (forall q, q ∉ posts -> h' !! q = h !! q) /\
  PostFetcher.enrich_posts fetch posts max_concurrent false sched h = Some (posts, h) /\
  ((1 <= max_concurrent)%Z ->
   (forall post, post ∈ posts -> is_Some (h !! post)) ->
   is_Some (PostFetcher.enrich_posts fetch posts max_concurrent true
              (PostFetcher.one_by_one 0 posts h) h)).
Proof.
  intros Hnodup Hrun.
  split; [exact (enrich_posts_returns_argument fetch posts max_concurrent true sched h h' out Hrun)|].
  destruct (enrich_posts_run fetch posts max_concurrent sched h h' out Hrun)
    as (p & Hsteps & Hcol & ->).
  assert (Hinit : slots_apart fetch posts h (PostFetcher.mk_pool h 0 ∅ ∅)).
  { split; [|split]; simpl.
    - intros i [u Hu]. rewrite lookup_empty in Hu. discriminate.
    - reflexivity.
    - intros i post r _ Hr. exact Hr. }
  destruct (steps_slots_apart fetch posts max_concurrent h sched Hnodup _ p Hsteps Hinit)
    as (_ & Hout & Hslot).
  unfold PostFetcher.collect in Hcol.
  destruct (bool_decide (PostFetcher.started p = length posts)) eqn:Hall;
    simpl in Hcol; [|discriminate].
  destruct (bool_decide (size (PostFetcher.running p) = 0)) eqn:Hidle; [|discriminate].
  apply bool_decide_eq_true in Hall, Hidle. apply map_size_empty_inv in Hidle.
  assert (Hmine : forall i post r, posts !! i = Some post -> h !! post = Some r ->
                  PostFetcher.store p !! post = Some (enriched fetch i r)).
  { intros i post r Hpost Hr. specialize (Hslot i post r Hpost Hr).
    apply lookup_lt_Some in Hpost.
    destruct (decide (PostFetcher.started p <= i)); [lia|].
    rewrite Hidle, lookup_empty in Hslot. exact Hslot. }
  split; [|split; [exact Hout | split; [reflexivity|]]].
  2: { intros Hmc Hstored.
       exact (enrich_posts_returns fetch posts max_concurrent h Hmc Hnodup Hstored). }
  intros i post r Hpost Hr. split; [exact (Hmine i post r Hpost Hr)|].
  intros Hnone. rewrite (Hmine i post r Hpost Hr).
  rewrite (enriched_nothing_fetched fetch i r Hnone). reflexivity.
Qed.

Lemma enrich_posts_slotwise_witness :
  let a : record := {[ "canonical_url" := VStr "https://a.substack.com/p/x" ]} in
  let b : record := {[ "canonical_url" := VStr "https://b.substack.com/p/y" ]} in
  let h : heap := <[ 0 := a ]> {[ 1 := b ]} in
  let fetch := fun (i : nat) (_ : value) =>
    if Nat.eqb i 0 then Ok ({[ "body_html" := VStr "<p>x</p>" ]} : record)
    else Raise PlaywrightError in
  let h' : heap :=
    <[ 0 := <[ "body_html" := VStr "<p>x</p>" ]> a ]> {[ 1 := b ]} in
  h' !! 0 = Some (enriched fetch 0 a) /\ h' !! 1 = Some b.
Proof.
  cbv zeta.
  pose proof (enrich_posts_slotwise
    (fun (i : nat) (_ : value) =>
       if Nat.eqb i 0 then Ok ({[ "body_html" := VStr "<p>x</p>" ]} : record)
       else Raise PlaywrightError)
    [0; 1] 3
    [PostFetcher.Start 0; PostFetcher.Start 1; PostFetcher.Finish 1; PostFetcher.Finish 0]
    (<[ 0 := {[ "canonical_url" := VStr "https://a.substack.com/p/x" ]} ]>
       {[ 1 := {[ "canonical_url" := VStr "https://b.substack.com/p/y" ]} ]})
    (<[ 0 := <[ "body_html" := VStr "<p>x</p>" ]>
               {[ "canonical_url" := VStr "https://a.substack.com/p/x" ]} ]>
       {[ 1 := {[ "canonical_url" := VStr "https://b.substack.com/p/y" ]} ]})
    [0; 1]) as Hthm.
  destruct Hthm as (_ & Hslot & _).
  - apply NoDup_cons. split; [set_solver|]. apply NoDup_singleton.
  - vm_compute. reflexivity.
  - split.
    + refine (proj1 (Hslot 0 0 _ eq_refl _)). vm_compute. reflexivity.
    + refine (proj2 (Hslot 1 1 _ eq_refl _) _).
      * vm_compute. reflexivity.
      * intros content Heq. discriminate Heq.
Defined.

(** C10.  Whatever the interleaving and whether or not slots share
    objects, after [enrich_posts] every record of the store still has all
    its keys, and each key holds either its input value or the value that
    a fetch made for that record returned under that key; a record for
    which nothing was fetched is equal to its input.  The dictionary
    returned by [fetch_post_content] only has keys among [body_html],
    [body_json], [wordcount], [reactions], [comment_count], [restacks] and
    [audio_items], and is empty when the page could not be loaded. *)
Theorem enrichment_merges_fetched_content
    (fetch : nat -> value -> result record) (posts : list nat)
    (max_concurrent : Z) (sched : list PostFetcher.event)
    (h h' : heap) (out : list nat) :
  PostFetcher.enrich_posts fetch posts max_concurrent true sched h = Some (out, h') ->
  (forall post r, h !! post = Some r ->
     exists r',
       h' !! post = Some r' /\
       merged fetch posts post r r' /\
       dom r ⊆ dom r' /\
       ((forall i url content,
           posts !! i = Some post -> fetch i url = Ok content -> content = ∅) ->
        r' = r)) /\
  (forall load, dom (PostFetcher.fetch_post_content load) ⊆ content_keys) /\
  (forall ex, PostFetcher.fetch_post_content (Raise ex) = ∅).
Proof.
  intros Hrun. split; [|split; [exact fetch_post_content_dom | reflexivity]].
  destruct (enrich_posts_run fetch posts max_concurrent sched h h' out Hrun)
    as (p & Hsteps & _ & ->).
  assert (Hinit : store_merged fetch posts h (PostFetcher.mk_pool h 0 ∅ ∅)).
  { intros post r Hr. exists r. split; [exact Hr|]. intros k. left. reflexivity. }
  pose proof (steps_store_merged fetch posts max_concurrent h sched _ p Hsteps Hinit) as Hinv.
  intros post r Hr. destruct (Hinv post r Hr) as (r' & Hr' & Hm).
  exists r'. split; [exact Hr'|]. split; [exact Hm|]. split.
  - intros k Hk. apply elem_of_dom in Hk. apply elem_of_dom.
    destruct (Hm k) as [Heq|(i & url & content & _ & _ & Hc & Heq)]; rewrite Heq; assumption.
  - intros Hnone. apply map_eq. intros k.
    destruct (Hm k) as [Heq|(i & url & content & Hpost & Hfetch & Hc & _)]; [exact Heq|].
    rewrite (Hnone i url content Hpost Hfetch), lookup_empty in Hc.
    destruct Hc as [v Hv]. discriminate.
Qed.

Lemma enrichment_merges_fetched_content_witness :
  let r : record :=
    <[ "canonical_url" := VStr "https://a.substack.com/p/x" ]>
      (<[ "keyword" := VStr "ai" ]> {[ "wordcount" := VInt 10 ]}) in
  let content : record :=
    <[ "body_html" := VStr "<p>x</p>" ]> {[ "wordcount" := VNone ]} in
  let fetch := fun (_ : nat) (_ : value) => Ok content in
  exists r',
    ({[ 0 := content ∪ r ]} : heap) !! 0 = Some r' /\
    merged fetch [0] 0 r r' /\
    dom r ⊆ dom r' /\
    ((forall (i : nat) (url : value) (c : record),
        [0] !! i = Some 0 -> fetch i url = Ok c -> c = ∅) -> r' = r).
Proof.
  cbv zeta.
  pose proof (enrichment_merges_fetched_content
    (fun (_ : nat) (_ : value) =>
       Ok (<[ "body_html" := VStr "<p>x</p>" ]> ({[ "wordcount" := VNone ]} : record)))
    [0] 3 [PostFetcher.Start 0; PostFetcher.Finish 0]
    ({[ 0 := <[ "canonical_url" := VStr "https://a.substack.com/p/x" ]>
               (<[ "keyword" := VStr "ai" ]> ({[ "wordcount" := VInt 10 ]} : record)) ]} : heap)
    ({[ 0 := (<[ "body_html" := VStr "<p>x</p>" ]> ({[ "wordcount" := VNone ]} : record))
             ∪ (<[ "canonical_url" := VStr "https://a.substack.com/p/x" ]>
                  (<[ "keyword" := VStr "ai" ]> ({[ "wordcount" := VInt 10 ]} : record))) ]} : heap)
    [0]) as Hthm.
  destruct Hthm as (Hrec & _).
  - vm_compute. reflexivity.
  - apply (Hrec 0). vm_compute. reflexivity.
Defined.

(** ** SearchScraper *)

Section scraper_facts.

Import Models SearchScraper.

Lemma slice_to_length {A : Type} (l : list A) (limit : Z) :
  (0 <= limit)%Z -> (Z.of_nat (length (slice_to l limit)) <= limit)%Z.
Proof.
  intros Hlimit. unfold slice_to.
  destruct (Z.leb_spec 0 limit) as [_|?]; [|lia].
  pose proof (length_take_le l (Z.to_nat limit)).
  pose proof (length_take_ge l (Z.to_nat limit)).
  destruct (Nat.le_ge_cases (Z.to_nat limit) (length l)); lia.
Qed.

Lemma slice_to_take {A : Type} (l : list A) (limit : Z) :
  (0 <= limit)%Z -> slice_to l limit = take (Z.to_nat limit) l.
Proof.
  intros Hlimit. unfold slice_to. destruct (Z.leb_spec 0 limit); [reflexivity | lia].
Qed.

Lemma round2_nonneg (x : Z) : (0 <= x)%Z -> (0 <= round2 x)%Z.
Proof.
  intros Hx. unfold round2.
  assert (0 <= x / 10000)%Z by (apply Z.div_pos; lia).
  destruct (2 * (x mod 10000) <? 10000)%Z; [lia|].
  destruct (10000 <? 2 * (x mod 10000))%Z; [lia|].
  destruct (Z.even (x / 10000)); lia.
Qed.

Lemma length_omap_le {A B : Type} (f : A -> option B) (l : list A) :
  length (omap f l) <= length l.
Proof.
  induction l as [|x l IH]; [reflexivity|].
  change (omap f (x :: l))
    with (match f x with Some y => y :: omap f l | None => omap f l end).
  destruct (f x); cbn [length]; lia.
Qed.

(** What lines 170-171 make of one record. *)
Definition stamped (keyword scraped_at : string) (r : record) : record :=
  <["scrapedAt" := VStr scraped_at]> (<["keyword" := VStr keyword]> r).

Lemma stamped_twice (keyword scraped_at : string) (r : record) :
  stamped keyword scraped_at (stamped keyword scraped_at r) = stamped keyword scraped_at r.
Proof.
  unfold stamped. apply map_eq. intros k.
  rewrite !lookup_insert. repeat case_decide; reflexivity.
Qed.

Lemma stamp_all_lookup (keyword scraped_at : string) (raw_posts : list nat) :
  forall (h : heap) (post : nat),
  stamp_all keyword scraped_at raw_posts h !! post
  = if decide (post ∈ raw_posts)
    then stamped keyword scraped_at <$> h !! post
    else h !! post.
Proof.
  induction raw_posts as [|l raw_posts IH]; intros h post.
  - simpl. destruct (decide (post ∈ [])) as [Hin|_]; [|reflexivity].
    apply elem_of_nil in Hin. contradiction.
  - unfold stamp_all in *. cbn [foldl]. rewrite IH. unfold setitem.
    destruct (decide (l = post)) as [->|Hne].
    + rewrite !lookup_alter_eq.
      destruct (decide (post ∈ post :: raw_posts)) as [_|Hout];
        [|exfalso; apply Hout; left].
      destruct (h !! post) as [r|]; simpl.
      * destruct (decide (post ∈ raw_posts)); simpl; [|reflexivity].
        f_equal. apply stamped_twice.
      * destruct (decide (post ∈ raw_posts)); reflexivity.
    + rewrite !lookup_alter_ne by exact Hne.
      destruct (decide (post ∈ raw_posts)) as [Hin|Hout].
      * destruct (decide (post ∈ l :: raw_posts)) as [_|Hout];
          [reflexivity | exfalso; apply Hout; right; exact Hin].
      * destruct (decide (post ∈ l :: raw_posts)) as [Hin|_]; [|reflexivity].
        apply elem_of_cons in Hin. destruct Hin as [->|Hin]; contradiction.
Qed.

End scraper_facts.

(** A search page answered by one API response carrying three posts. *)
Definition sample_post (id : Z) : value :=
  VDict (minimal_record id 1 "Title" "slug" "https://a.substack.com/p/slug"
           (VStr "2025-01-01T10:00:00.000Z")).

Definition sample_response : SearchScraper.response :=
  SearchScraper.mk_response "https://substack.com/api/v1/post/search?query=ai"
    (Some "application/json")
    (Ok (VDict {[ "results" := VList [sample_post 1; sample_post 2; sample_post 3] ]})).

Definition sample_env : SearchScraper.env :=
  SearchScraper.mk_env 0 0 0 (Ok tt) [sample_response]
    (fun _ => Ok 3%Z) (fun _ => Ok 1000%Z) []
    (DataExtractor.mk_page (Ok []) (Ok None) (Ok None) (Ok []))
    "2025-01-01T00:00:01Z" "2025-01-01T00:00:02Z" (Ok tt)
    (fun _ => Raise PlaywrightError) [] Models.exact_types
    2000000 2500000 2000000.

(** C6, as stated, fails: a captured record that already carries a keyword
    and a capture timestamp has both overwritten. *)
Lemma materialize_overwrites_counterexample :
  let r : record :=
    <["keyword" := VStr "old"]>
      (<["scrapedAt" := VStr "2020-01-01T00:00:00Z"]> {[ "id" := VInt 1 ]}) in
  r !! "keyword" = Some (VStr "old") /\
  r !! "scrapedAt" = Some (VStr "2020-01-01T00:00:00Z") /\
  match SearchScraper.materialize sample_env "new" [r] with
  | Ok (raw_posts, h) =>
      raw_posts = [0] /\
      deref h 0 !! "keyword" = Some (VStr "new") /\
      deref h 0 !! "scrapedAt" = Some (VStr "2025-01-01T00:00:02Z")
  | Raise _ => False
  end /\
  match DataExtractor.stamp "new" "2025-01-01T00:00:01Z" (VDict r) with
  | Ok r' => r' !! "keyword" = Some (VStr "new")
  | Raise _ => False
  end.
Proof. cbv zeta. vm_compute. repeat split; reflexivity. Qed.

(** C6, amended.  The stamping of lines 169-171 is unconditional: after
    it every raw record carries the keyword of the search and the capture
    timestamp of the call, whatever it carried before, and every other key
    of a captured record keeps its value. *)
Theorem materialize_stamps_every_record
    (e : SearchScraper.env) (keyword : string) (captured_posts : list record)
    (raw_posts : list nat) (h : heap) :
  SearchScraper.materialize e keyword captured_posts = Ok (raw_posts, h) ->
  forall post, post ∈ raw_posts ->
    deref h post !! "keyword" = Some (VStr keyword) /\
    deref h post !! "scrapedAt" = Some (VStr (SearchScraper.scraped_at_iso e)) /\
    (forall r, captured_posts !! post = Some r ->
       forall k, k ≠ "keyword" -> k ≠ "scrapedAt" -> deref h post !! k = r !! k).
Proof.
  unfold SearchScraper.materialize. intros Hm post Hpost.
  set (src := if bool_decide (length captured_posts = 0)
              then (DataExtractor.extract_posts (SearchScraper.page e) keyword
                      (SearchScraper.extract_scraped_at e)).2
              else Ok captured_posts) in *.
  destruct src as [raw|ex] eqn:Hsrc; simpl in Hm; [|discriminate].
  destruct (SearchScraper.close_page e); simpl in Hm; [|discriminate].
  injection Hm as <- <-.
  apply elem_of_seq in Hpost. destruct Hpost as [_ Hlt]. simpl in Hlt.
  destruct (lookup_lt_is_Some_2 raw post Hlt) as [r0 Hr0].
  assert (Hh : deref (SearchScraper.stamp_all keyword (SearchScraper.scraped_at_iso e)
                        (seq 0 (length raw)) (map_seq 0 raw)) post
               = stamped keyword (SearchScraper.scraped_at_iso e) r0).
  { unfold deref. rewrite stamp_all_lookup.
    destruct (decide (post ∈ seq 0 (length raw))) as [_|Hout].
    - rewrite lookup_map_seq_0, Hr0. reflexivity.
    - exfalso. apply Hout. apply elem_of_seq. lia. }
  rewrite Hh. unfold stamped. split; [|split].
  - rewrite lookup_insert_ne by discriminate. apply lookup_insert_eq.
  - apply lookup_insert_eq.
  - intros r Hr k Hk Hs.
    rewrite !lookup_insert_ne by congruence.
    subst src. destruct (bool_decide (length captured_posts = 0)) eqn:Hlen.
    + apply bool_decide_eq_true in Hlen. destruct captured_posts; [|discriminate].
      rewrite lookup_nil in Hr. discriminate.
    + injection Hsrc as <-. congruence.
Qed.

Lemma materialize_stamps_witness :
  deref (SearchScraper.stamp_all "ai" "2025-01-01T00:00:02Z" [0]
           {[ 0 := <["keyword" := VStr "old"]> ({[ "id" := VInt 1 ]} : record) ]}) 0
    !! "keyword" = Some (VStr "ai").
Proof.
  refine (proj1 (materialize_stamps_every_record sample_env "ai"
            [<["keyword" := VStr "old"]> ({[ "id" := VInt 1 ]} : record)]
            [0]
            (SearchScraper.stamp_all "ai" "2025-01-01T00:00:02Z" [0]
               {[ 0 := <["keyword" := VStr "old"]> ({[ "id" := VInt 1 ]} : record) ]})
            _ 0 _)).
  - vm_compute. reflexivity.
  - set_solver.
Defined.

(** C5, as stated, fails: a negative [limit] is a slice from the end, and
    the result holds more than [limit] posts. *)
Lemma search_negative_limit_counterexample :
  match (SearchScraper.search 10 3 true sample_env (RateLimiter.init 10 60)
           "ai" (-1) (Some false)).2 with
  | Some (Ok sr) =>
      Models.total_results sr = 2%Z /\ length (Models.posts sr) = 2 /\
      ¬ (Z.of_nat (length (Models.posts sr)) <= -1)%Z
  | _ => False
  end.
Proof. vm_compute. repeat split; try reflexivity. intros H. exact (H eq_refl). Qed.

Lemma search_keyword (fuel : nat) (M : Z) (ffc : bool) (e : SearchScraper.env)
    (rl rl' : RateLimiter.t) (keyword : string) (limit : Z) (fc : option bool)
    (sr : Models.SearchResult) :
  SearchScraper.search fuel M ffc e rl keyword limit fc = (rl', Some (Ok sr)) ->
  Models.keyword sr = keyword.
Proof.
  unfold SearchScraper.search.
  destruct (RateLimiter.acquire _ _ rl); [|discriminate].
  destruct (SearchScraper.open_page e); [|discriminate].
  destruct (SearchScraper.grow fuel M limit e) as [[captured|]|]; try discriminate.
  destruct (SearchScraper.materialize e keyword captured) as [[raw_posts h]|];
    [|discriminate].
  destruct (SearchScraper.enrich e _ _ h) as [[raw_posts' h']|]; [|discriminate].
  intros [= _ <-]. reflexivity.
Qed.

(** C5, amended.  For a [limit] that is not negative, and a clock that
    does not go back between lines 83 and 203, the result of [search] has
    [total_results] equal to the number of its posts, at most [limit]
    posts, a duration that is not negative, and its posts are the typed
    conversions, in order, of the first [limit] raw records (captured or
    extracted), truncated before the enrichment. *)
Theorem search_result_truncated
    (fuel : nat) (M : Z) (ffc : bool) (e : SearchScraper.env)
    (rl rl' : RateLimiter.t) (keyword : string) (limit : Z) (fc : option bool)
    (sr : Models.SearchResult) :
  SearchScraper.search fuel M ffc e rl keyword limit fc = (rl', Some (Ok sr)) ->
  (0 <= limit)%Z ->
  (SearchScraper.start_time e <= SearchScraper.end_time e)%Z ->
  Models.total_results sr = Z.of_nat (length (Models.posts sr)) /\
  (Z.of_nat (length (Models.posts sr)) <= limit)%Z /\
  (0 <= Models.duration_seconds sr)%Z /\
  exists captured_posts raw_posts h h',
    SearchScraper.grow fuel M limit e = Some (Ok captured_posts) /\
    SearchScraper.materialize e keyword captured_posts = Ok (raw_posts, h) /\
    SearchScraper.enrich e (default ffc fc) (take (Z.to_nat limit) raw_posts) h
      = Some (take (Z.to_nat limit) raw_posts, h') /\
    Models.posts sr
    = omap (fun post =>
              SearchScraper.to_model (SearchScraper.validate e)
                (SearchScraper.model_now e) keyword (deref h' post))
           (take (Z.to_nat limit) raw_posts).
Proof.
  unfold SearchScraper.search. intros Hsearch Hlimit Hclock.
  destruct (RateLimiter.acquire _ _ rl); [|discriminate].
  destruct (SearchScraper.open_page e); [|discriminate].
  destruct (SearchScraper.grow fuel M limit e) as [[captured|]|] eqn:Hgrow;
    try discriminate.
  destruct (SearchScraper.materialize e keyword captured) as [[raw_posts h]|] eqn:Hmat;
    [|discriminate].
  rewrite (slice_to_take raw_posts limit Hlimit) in Hsearch.
  destruct (SearchScraper.enrich e _ _ h) as [[raw_posts' h']|] eqn:Henrich;
    [|discriminate].
  assert (Hsame : raw_posts' = take (Z.to_nat limit) raw_posts).
  { unfold SearchScraper.enrich in Henrich.
    destruct (_ && _).
    - exact (enrich_posts_returns_argument _ _ _ _ _ _ _ _ Henrich).
    - injection Henrich as <- _. reflexivity. }
  subst raw_posts'. injection Hsearch as _ <-.
  unfold SearchScraper.assemble. cbn [Models.total_results Models.posts Models.duration_seconds].
  split; [reflexivity|]. split; [|split].
  - pose proof (length_omap_le
      (fun post => SearchScraper.to_model (SearchScraper.validate e)
                     (SearchScraper.model_now e) keyword (deref h' post))
      (take (Z.to_nat limit) raw_posts)) as Hle.
    rewrite length_take in Hle. lia.
  - apply round2_nonneg. lia.
  - exists captured, raw_posts, h, h'. repeat split; try reflexivity; assumption.
Qed.

Lemma search_result_truncated_witness :
  exists sr,
    (SearchScraper.search 10 3 true sample_env (RateLimiter.init 10 60)
       "ai" 2 (Some false)).2 = Some (Ok sr) /\
    Models.total_results sr = Z.of_nat (length (Models.posts sr)) /\
    (Z.of_nat (length (Models.posts sr)) <= 2)%Z /\
    (0 <= Models.duration_seconds sr)%Z.
Proof.
  assert (Hret : match (SearchScraper.search 10 3 true sample_env
                          (RateLimiter.init 10 60) "ai" 2 (Some false)).2 with
                 | Some (Ok _) => true
                 | _ => false
                 end = true) by (vm_compute; reflexivity).
  destruct (SearchScraper.search 10 3 true sample_env (RateLimiter.init 10 60)
              "ai" 2 (Some false)) as [rl' [[sr|ex]|]] eqn:Hs;
    cbn [snd] in Hret; try discriminate Hret.
  exists sr. split; [reflexivity|].
  destruct (search_result_truncated 10 3 true sample_env (RateLimiter.init 10 60)
              rl' "ai" 2 (Some false) sr Hs) as (H1 & H2 & H3 & _).
  - lia.
  - vm_compute. discriminate.
  - repeat split; assumption.
Defined.

(** The limiter as the [k]-th search of [search_multiple] finds it. *)
Fixpoint limiter_before (fuel : nat) (M : Z) (ffc : bool)
    (envs : nat -> SearchScraper.env) (rl : RateLimiter.t)
    (keywords : list string) (limit : Z) (fc : option bool) (k : nat)
    : RateLimiter.t :=
  match k, keywords with
  | S k', keyword :: keywords' =>
      limiter_before fuel M ffc (fun j => envs (S j))
        (SearchScraper.search fuel M ffc (envs 0) rl keyword limit fc).1
        keywords' limit fc k'
  | _, _ => rl
  end.

(** The outcome of the [k]-th search of [search_multiple]. *)
Definition kth_search (fuel : nat) (M : Z) (ffc : bool)
    (envs : nat -> SearchScraper.env) (rl : RateLimiter.t)
    (keywords : list string) (limit : Z) (fc : option bool)
    (k : nat) (keyword : string) : option (result Models.SearchResult) :=
  (SearchScraper.search fuel M ffc (envs k)
     (limiter_before fuel M ffc envs rl keywords limit fc k) keyword limit fc).2.

(** C8.  When each search returns or raises, [search_multiple] returns one
    result per keyword, in the order of the keywords: the result of the
    search when it returned, and the empty result for that keyword when it
    raised; either way the result carries its keyword. *)
Theorem search_multiple_one_result_per_keyword
    (fuel : nat) (M : Z) (ffc : bool) (limit : Z) (fc : option bool)
    (keywords : list string) :
  forall (envs : nat -> SearchScraper.env) (rl : RateLimiter.t),
  (forall k keyword, keywords !! k = Some keyword ->
     kth_search fuel M ffc envs rl keywords limit fc k keyword ≠ None) ->
  exists results,
    SearchScraper.search_multiple fuel M ffc envs rl keywords limit fc = Some results /\
    length results = length keywords /\
    forall k keyword, keywords !! k = Some keyword ->
      exists r,
        results !! k = Some r /\
        Models.keyword r = keyword /\
        match kth_search fuel M ffc envs rl keywords limit fc k keyword with
        | Some (Ok sr) => r = sr
        | _ => r = SearchScraper.empty_result keyword
                     (SearchScraper.result_scraped_at (envs k))
        end.
Proof.
  induction keywords as [|keyword keywords IH]; intros envs rl Hterm.
  - exists []. split; [reflexivity|]. split; [reflexivity|].
    intros k kw Hk. rewrite lookup_nil in Hk. discriminate.
  - pose proof (Hterm 0 keyword eq_refl) as H0. unfold kth_search in H0.
    cbn [limiter_before] in H0.
    cbn [SearchScraper.search_multiple].
    destruct (SearchScraper.search fuel M ffc (envs 0) rl keyword limit fc)
      as [rl' outcome] eqn:Hsearch.
    cbn [fst snd] in H0.
    destruct (IH (fun j => envs (S j)) rl') as (results & Hrest & Hlen & Hslots).
    { intros k kw Hk. specialize (Hterm (S k) kw Hk).
      unfold kth_search in *. cbn [limiter_before] in Hterm.
      rewrite Hsearch in Hterm. exact Hterm. }
    rewrite Hrest.
    assert (Hhead : exists r,
      match outcome with
      | Some (Ok result) => Some result
      | Some (Raise _) =>
          Some (SearchScraper.empty_result keyword (SearchScraper.result_scraped_at (envs 0)))
      | None => None
      end = Some r /\
      Models.keyword r = keyword /\
      match outcome with
      | Some (Ok sr) => r = sr
      | _ => r = SearchScraper.empty_result keyword (SearchScraper.result_scraped_at (envs 0))
      end).
    { destruct outcome as [[sr|ex]|]; [| |contradiction].
      - exists sr. repeat split.
        exact (search_keyword fuel M ffc (envs 0) rl rl' keyword limit fc sr Hsearch).
      - eexists. repeat split. }
    destruct Hhead as (r & Hr & Hkw & Hout). rewrite Hr. simpl.
    exists (r :: results). split; [reflexivity|]. split; [simpl; lia|].
    intros [|k] kw Hk.
    + injection Hk as <-. exists r. split; [reflexivity|]. split; [exact Hkw|].
      unfold kth_search. cbn [limiter_before]. rewrite Hsearch. exact Hout.
    + destruct (Hslots k kw Hk) as (r' & Hr' & Hkw' & Hout').
      exists r'. split; [exact Hr'|]. split; [exact Hkw'|].
      unfold kth_search in *. cbn [limiter_before]. rewrite Hsearch. exact Hout'.
Qed.

(** A search that cannot open its page. *)
Definition failing_env : SearchScraper.env :=
  SearchScraper.mk_env 0 0 0 (Raise PlaywrightError) []
    (fun _ => Ok 0%Z) (fun _ => Ok 0%Z) []
    (DataExtractor.mk_page (Ok []) (Ok None) (Ok None) (Ok []))
    "2025-01-01T00:00:01Z" "2025-01-01T00:00:02Z" (Ok tt)
    (fun _ => Raise PlaywrightError) [] Models.exact_types
    2000000 2500000 2000000.

Lemma search_multiple_witness :
  exists results,
    SearchScraper.search_multiple 10 3 false
      (fun k => if Nat.eqb k 0 then failing_env else sample_env)
      (RateLimiter.init 10 60) ["rust"; "ai"] 2 None = Some results /\
    length results = 2 /\
    results !! 0 = Some (SearchScraper.empty_result "rust" 2000000).
Proof.
  destruct (search_multiple_one_result_per_keyword 10 3 false 2 None ["rust"; "ai"]
              (fun k => if Nat.eqb k 0 then failing_env else sample_env)
              (RateLimiter.init 10 60)) as (results & Hrun & Hlen & Hslots).
  - intros [|[|k]] kw Hk; [injection Hk as <- | injection Hk as <- | discriminate Hk].
    + assert (Hraised : kth_search 10 3 false
                          (fun k => if Nat.eqb k 0 then failing_env else sample_env)
                          (RateLimiter.init 10 60) ["rust"; "ai"] 2 None 0 "rust"
                        = Some (Raise PlaywrightError)) by (vm_compute; reflexivity).
      rewrite Hraised. discriminate.
    + assert (Hret : match kth_search 10 3 false
                             (fun k => if Nat.eqb k 0 then failing_env else sample_env)
                             (RateLimiter.init 10 60) ["rust"; "ai"] 2 None 1 "ai" with
                     | Some _ => true | None => false end = true)
        by (vm_compute; reflexivity).
      intros Hnone. rewrite Hnone in Hret. discriminate Hret.
  - exists results. split; [exact Hrun|]. split; [exact Hlen|].
    destruct (Hslots 0 "rust" eq_refl) as (r & Hr & _ & Hout).
    rewrite Hr. f_equal.
    assert (Hraised : kth_search 10 3 false
                        (fun k => if Nat.eqb k 0 then failing_env else sample_env)
                        (RateLimiter.init 10 60) ["rust"; "ai"] 2 None 0 "rust"
                      = Some (Raise PlaywrightError)) by (vm_compute; reflexivity).
    rewrite Hraised in Hout. exact Hout.
Defined.

(** * Further properties *)

(** ** RateLimiter: [try_acquire], [get_remaining], [reset] *)

Section rate_limiter_more.

Import RateLimiter RateLimiterMore.
#[local] Open Scope Z_scope.

Lemma try_acquire_bounded (rl : t) (gone : list Z) (clk now : Z) :
  bounded rl gone clk -> clk <= now ->
  max_requests (try_acquire now rl).2 = max_requests rl /\
  window (try_acquire now rl).2 = window rl /\
  exists gone',
    gone' ++ requests (try_acquire now rl).2
    = (gone ++ requests rl) ++ (if (try_acquire now rl).1 then [now] else []) /\
    bounded (try_acquire now rl).2 gone' now.
Proof.
  intros (Hgone & Hlen & Hwin) Hclk.
  destruct (evict_split (now - window rl) (requests rl)) as (dropped & Hq & Hdropped).
  unfold try_acquire.
  set (q := evict (now - window rl) (requests rl)) in *.
  assert (Hlenq : Z.of_nat (length q) <= Z.of_nat (length (requests rl))).
  { rewrite Hq, length_app. lia. }
  assert (Hgone1 : Forall (fun d => d + window rl <= now) (gone ++ dropped)).
  { apply Forall_app. split.
    - eapply Forall_impl; [exact Hgone|]. simpl. intros; lia.
    - eapply Forall_impl; [exact Hdropped|]. simpl. intros; lia. }
  destruct (Z.ltb_spec (Z.of_nat (length q)) (max_requests rl)) as [Hfree|Hfull];
    cbn [fst snd max_requests window requests set_requests];
    (split; [reflexivity|]); (split; [reflexivity|]);
    exists (gone ++ dropped); (split; [rewrite Hq; rewrite <- ?app_assoc, ?app_nil_r; reflexivity|]).
  - unfold bounded. cbn [max_requests window requests set_requests]. split; [exact Hgone1|].
    split; [rewrite length_app; simpl; lia|].
    intros u. rewrite app_assoc, <- (app_assoc gone), <- Hq, window_count_app.
    destruct (decide (u < now ∧ now <= u + window rl)) as [Hin|Hout].
    + rewrite Hq, app_assoc, window_count_app.
      rewrite (window_count_expired u (window rl) now (gone ++ dropped)) by (tauto || lia).
      pose proof (window_count_le_length u (window rl) q).
      pose proof (window_count_le_length u (window rl) [now]).
      simpl in *. lia.
    + rewrite (window_count_outside _ _ _ Hout). specialize (Hwin u). lia.
  - unfold bounded. cbn [max_requests window requests set_requests]. split; [exact Hgone1|].
    split; [lia|].
    intros u. rewrite <- app_assoc, <- Hq. apply Hwin.
Qed.

Lemma try_run_bounded (nows : list Z) :
  forall (rl : t) (gone : list Z) (clk : Z),
  bounded rl gone clk -> ascending clk nows ->
  forall u,
    Z.of_nat (window_count u (window rl) ((gone ++ requests rl) ++ (try_run nows rl).2))
    <= max_requests rl.
Proof.
  induction nows as [|now ns IH]; intros rl gone clk Hb Hasc u.
  - simpl. rewrite app_nil_r. apply Hb.
  - destruct Hasc as [Hclk Hasc]. cbn [try_run].
    destruct (try_acquire_bounded rl gone clk now Hb Hclk) as (HC & HW & gone' & Hhist & Hb').
    specialize (IH (try_acquire now rl).2 gone' now Hb' Hasc u).
    destruct (try_run ns (try_acquire now rl).2) as [r h]. cbn [snd] in *.
    rewrite HC, HW, Hhist in IH. rewrite <- app_assoc in IH.
    destruct (try_acquire now rl).1; exact IH.
Qed.

Lemma filter_all {A : Type} (P : A -> Prop) `{!forall x, Decision (P x)} (l : list A) :
  Forall P l -> filter P l = l.
Proof.
  induction 1 as [|x l Hx _ IH]; [reflexivity|].
  rewrite filter_cons. destruct (decide (P x)); [|contradiction]. f_equal. exact IH.
Qed.

(** On a deque in chronological order, evicting from the left removes
    exactly the entries older than the bound. *)
Lemma evict_chronological (bound : Z) (q : list Z) :
  StronglySorted Z.le q -> evict bound q = filter (fun r => bound <= r) q.
Proof.
  induction 1 as [|r q Hq IH Hr]; [reflexivity|].
  cbn [evict]. rewrite filter_cons.
  destruct (Z.ltb_spec r bound) as [Hlt|Hge].
  - destruct (decide (bound <= r)); [lia | exact IH].
  - destruct (decide (bound <= r)); [|lia]. f_equal. symmetry. apply filter_all.
    eapply Forall_impl; [exact Hr|]. simpl. intros; lia.
Qed.

Lemma chronological_append (q : list Z) (x : Z) :
  StronglySorted Z.le q -> Forall (fun r => r <= x) q ->
  StronglySorted Z.le (q ++ [x]).
Proof.
  induction 1 as [|r q Hq IH Hr]; intros Hall; simpl.
  - repeat constructor.
  - apply Forall_cons in Hall. destruct Hall as [Hrx Hall].
    constructor; [apply IH; exact Hall|].
    apply Forall_app. split; [exact Hr|]. repeat constructor. exact Hrx.
Qed.

Lemma chronological_evict (bound clk : Z) (q : list Z) :
  StronglySorted Z.le q -> Forall (fun r => r <= clk) q ->
  StronglySorted Z.le (evict bound q) /\ Forall (fun r => r <= clk) (evict bound q).
Proof.
  intros Hs Hall. destruct (evict_split bound q) as (dropped & Hq & _).
  rewrite Hq in Hs, Hall. split.
  - exact (StronglySorted_app_1_r _ _ _ Hs).
  - apply Forall_app in Hall. tauto.
Qed.

Lemma chronological_record (clk x : Z) (rl : t) (q : list Z) :
  StronglySorted Z.le q -> Forall (fun r => r <= clk) q -> clk <= x ->
  chronological x (set_requests rl (q ++ [x])).
Proof.
  intros Hs Hall Hx.
  assert (Hall' : Forall (fun r => r <= x) q).
  { eapply Forall_impl; [exact Hall|]. simpl. intros; lia. }
  split; cbn [requests set_requests].
  - apply chronological_append; assumption.
  - apply Forall_app. split; [exact Hall'|]. repeat constructor. lia.
Qed.

End rate_limiter_more.

(** A limiter of capacity 2 and window 10 whose third call has to sleep. *)
Lemma acquire_window_bound_witness :
  (Z.of_nat (RateLimiter.window_count 3 10
     (RateLimiter.run [(0, 0); (1, 1); (2, 12); (13, 13)]%Z (RateLimiter.init 2 10)).2)
   <= 2)%Z.
Proof.
  apply (acquire_window_bound 2 10 0 [(0, 0); (1, 1); (2, 12); (13, 13)]%Z).
  - lia.
  - simpl. repeat split; lia.
  - simpl. repeat split; reflexivity.
Defined.

(** X2.  [try_acquire] has no boundary case: whatever the instants of a
    sequence of calls on a fresh limiter, as long as the clock does not go
    back, no window [(u, u + window]] holds more than [max_requests] of
    the timestamps it recorded. *)
Theorem try_acquire_never_exceeds_capacity (C W clk : Z) (nows : list Z) :
  (0 <= C)%Z ->
  RateLimiterMore.ascending clk nows ->
  forall u,
    (Z.of_nat (RateLimiter.window_count u W
       (RateLimiterMore.try_run nows (RateLimiter.init C W)).2) <= C)%Z.
Proof.
  intros HC Hasc u.
  assert (Hb : bounded (RateLimiter.init C W) [] clk).
  { unfold bounded, RateLimiter.init, RateLimiter.window_count. simpl.
    split; [constructor | split; [lia | intros _; lia]]. }
  exact (try_run_bounded nows (RateLimiter.init C W) [] clk Hb Hasc u).
Qed.

Lemma try_acquire_never_exceeds_capacity_witness :
  (Z.of_nat (RateLimiter.window_count 0 10
     (RateLimiterMore.try_run [0; 10; 10; 11]%Z (RateLimiter.init 1 10)).2) <= 1)%Z.
Proof.
  apply (try_acquire_never_exceeds_capacity 1 10 0 [0; 10; 10; 11]%Z).
  - lia.
  - simpl. repeat split; lia.
Defined.

(** X3.  On a deque in chronological order [get_remaining] and
    [try_acquire] agree: the slots reported are the capacity minus what is
    left after eviction, floored at zero, and [try_acquire] succeeds
    exactly when a slot is reported. *)
Theorem get_remaining_agrees_with_try_acquire (now : Z) (rl : RateLimiter.t) :
  StronglySorted Z.le (RateLimiter.requests rl) ->
  RateLimiter.get_remaining now rl
  = Z.max 0 (RateLimiter.max_requests rl
             - Z.of_nat (length (RateLimiter.evict (now - RateLimiter.window rl)
                                   (RateLimiter.requests rl)))) /\
  ((RateLimiter.try_acquire now rl).1 = true <-> (0 < RateLimiter.get_remaining now rl)%Z).
Proof.
  intros Hs.
  assert (Hrem : RateLimiter.get_remaining now rl
    = Z.max 0 (RateLimiter.max_requests rl
               - Z.of_nat (length (RateLimiter.evict (now - RateLimiter.window rl)
                                     (RateLimiter.requests rl))))).
  { unfold RateLimiter.get_remaining, RateLimiter.active_requests.
    rewrite (evict_chronological _ _ Hs). reflexivity. }
  split; [exact Hrem|]. rewrite Hrem. unfold RateLimiter.try_acquire.
  destruct (Z.ltb_spec
    (Z.of_nat (length (RateLimiter.evict (now - RateLimiter.window rl)
                         (RateLimiter.requests rl))))
    (RateLimiter.max_requests rl)); cbn [fst]; split; intros; (lia || congruence).
Qed.

Lemma get_remaining_agrees_witness :
  RateLimiter.get_remaining 12 (RateLimiter.mk 3 10 [0; 5; 11]%Z) = 1%Z.
Proof.
  refine (eq_trans (proj1 (get_remaining_agrees_with_try_acquire 12
            (RateLimiter.mk 3 10 [0; 5; 11]%Z) _)) _).
  - simpl. repeat constructor; lia.
  - reflexivity.
Defined.

(** X4.  The deque stays in chronological order and never holds a
    timestamp later than the last clock reading: [acquire], [try_acquire]
    and [reset] all keep it so, as long as the clock does not go back. *)
Theorem limiter_stays_chronological (clk now now' : Z) (rl : RateLimiter.t) :
  RateLimiterMore.chronological clk rl ->
  (clk <= now)%Z -> (now <= now')%Z ->
  (forall rl', RateLimiter.acquire now now' rl = Ok rl' ->
     RateLimiterMore.chronological now' rl') /\
  RateLimiterMore.chronological now (RateLimiter.try_acquire now rl).2 /\
  RateLimiterMore.chronological clk (RateLimiter.reset rl).
Proof.
  intros [Hs Hall] Hclk Hnow.
  destruct (chronological_evict (now - RateLimiter.window rl) clk
              (RateLimiter.requests rl) Hs Hall) as [Hs' Hall'].
  split; [|split].
  - intros rl'. unfold RateLimiter.acquire.
    destruct (RateLimiter.max_requests rl <=? _)%Z.
    + destruct (RateLimiter.evict _ _) as [|oldest rest]; [discriminate|].
      destruct (0 <? _)%Z; intros [= <-].
      * apply StronglySorted_inv in Hs'. apply Forall_cons in Hall'.
        apply (chronological_record clk); [tauto | tauto | lia].
      * exact (chronological_record clk now' rl (oldest :: rest) Hs' Hall' ltac:(lia)).
    + intros [= <-]. apply (chronological_record clk); [assumption | assumption | lia].
  - unfold RateLimiter.try_acquire.
    destruct (_ <? _)%Z; cbn [snd].
    + apply (chronological_record clk); assumption.
    + split; cbn [RateLimiter.requests RateLimiter.set_requests]; [exact Hs'|].
      eapply Forall_impl; [exact Hall'|]. simpl. intros; lia.
  - split; simpl; constructor.
Qed.

Lemma limiter_stays_chronological_witness :
  RateLimiterMore.chronological 12 (RateLimiter.try_acquire 12 (RateLimiter.mk 3 10 [0; 5; 11]%Z)).2.
Proof.
  refine (proj1 (proj2 (limiter_stays_chronological 11 12 12
                          (RateLimiter.mk 3 10 [0; 5; 11]%Z) _ _ _))).
  - split; simpl; repeat constructor; lia.
  - lia.
  - lia.
Defined.

(** X5.  A limiter built with [max_requests <= 0] never admits anything:
    on its empty deque every [acquire] raises [IndexError] (it reads
    [self.requests[0]]) and every [try_acquire] refuses, so no sequence of
    calls records a timestamp. *)
Theorem limiter_without_capacity_lets_nothing_in (C W : Z) :
  (C <= 0)%Z ->
  (forall now now', RateLimiter.acquire now now' (RateLimiter.init C W) = Raise IndexError) /\
  (forall calls,
     RateLimiter.run calls (RateLimiter.init C W) = (RateLimiter.init C W, [])) /\
  (forall nows,
     RateLimiterMore.try_run nows (RateLimiter.init C W) = (RateLimiter.init C W, [])).
Proof.
  intros HC.
  assert (Hacq : forall now now',
            RateLimiter.acquire now now' (RateLimiter.init C W) = Raise IndexError).
  { intros now now'. unfold RateLimiter.acquire, RateLimiter.init. simpl.
    destruct (Z.leb_spec C (Z.of_nat 0)); [reflexivity | lia]. }
  split; [exact Hacq|]. split.
  - induction calls as [|[now now'] cs IH]; [reflexivity|].
    cbn [RateLimiter.run]. rewrite Hacq. exact IH.
  - assert (Htry : forall now, RateLimiter.try_acquire now (RateLimiter.init C W)
                               = (false, RateLimiter.init C W)).
    { intros now. unfold RateLimiter.try_acquire, RateLimiter.init. simpl.
      destruct (Z.ltb_spec (Z.of_nat 0) C); [lia | reflexivity]. }
    induction nows as [|now ns IH]; [reflexivity|].
    cbn [RateLimiterMore.try_run]. rewrite Htry. cbn [fst snd]. rewrite IH. reflexivity.
Qed.

Lemma limiter_without_capacity_witness :
  RateLimiter.run [(0, 0); (5, 5)]%Z (RateLimiter.init 0 60) = (RateLimiter.init 0 60, []).
Proof.
  refine (proj1 (proj2 (limiter_without_capacity_lets_nothing_in 0 60 _)) _). lia.
Defined.

(** ** ScrollHandler: exits of the loop, [scroll_for_time] *)

Section scroll_more.

Import ScrollHandler.
#[local] Open Scope Z_scope.

Lemma loop_exits (M target : Z) (e : env) (fuel : nat) :
  forall st : locals,
  match loop fuel M target e st with
  | None => True
  | Some (Raise ex) =>
      exists k, (scroll_count st <= k)%nat /\ scroll_height e k = Raise ex
  | Some (Ok st') =>
      (scroll_count st <= scroll_count st')%nat /\
      ((target <= get_current_count e (Nat.pred (probe_calls st')) /\
        probe_calls st' = (probe_calls st + 2 * (scroll_count st' - scroll_count st) + 1)%nat)
       \/
       (M <= no_change_iterations st' /\ (scroll_count st < scroll_count st')%nat /\
        probe_calls st' = (probe_calls st + 2 * (scroll_count st' - scroll_count st))%nat))
  end.
Proof.
  induction fuel as [|fuel IH]; intros st; [exact I|].
  cbn [loop].
  destruct (Z.leb_spec target (get_current_count e (probe_calls st))) as [Hreached|_].
  { cbn [scroll_count probe_calls Nat.pred]. split; [lia|]. left. split; [exact Hreached | lia]. }
  destruct (scroll_height e (scroll_count st)) as [new_height|ex] eqn:Hh.
  2: { exists (scroll_count st). split; [lia | exact Hh]. }
  assert (Hnext : forall st1,
            scroll_count st1 = S (scroll_count st) ->
            probe_calls st1 = S (S (probe_calls st)) ->
            match loop fuel M target e st1 with
            | None => True
            | Some (Raise ex) =>
                exists k, (scroll_count st <= k)%nat /\ scroll_height e k = Raise ex
            | Some (Ok st') =>
                (scroll_count st <= scroll_count st')%nat /\
                ((target <= get_current_count e (Nat.pred (probe_calls st')) /\
                  probe_calls st' = (probe_calls st + 2 * (scroll_count st' - scroll_count st) + 1)%nat)
                 \/
                 (M <= no_change_iterations st' /\ (scroll_count st < scroll_count st')%nat /\
                  probe_calls st' = (probe_calls st + 2 * (scroll_count st' - scroll_count st))%nat))
            end).
  { intros st1 Hs Hp. specialize (IH st1).
    destruct (loop fuel M target e st1) as [[st'|ex]|]; [| |exact I].
    - rewrite Hs, Hp in IH. destruct IH as [Hle [[Hr Hc]|(Hm & Hlt & Hc)]].
      + split; [lia|]. left. split; [exact Hr | lia].
      + split; [lia|]. right. split; [exact Hm|]. split; lia.
    - destruct IH as (k & Hk & Hr). exists k. split; [lia | exact Hr]. }
  destruct ((new_height =? last_height st)
            && (get_current_count e (S (probe_calls st)) =? last_count st)).
  - destruct (Z.leb_spec M (no_change_iterations st + 1)) as [Hstop|_].
    + cbn [scroll_count probe_calls no_change_iterations]. split; [lia|]. right.
      split; [exact Hstop|]. split; lia.
    + apply Hnext; reflexivity.
  - apply Hnext; reflexivity.
Qed.

(** A page that is taller after every scroll while the count stays below
    the target keeps the loop busy for ever. *)
Lemma loop_runs_on (M target : Z) (e : env) (heights : nat -> Z) :
  (forall k, get_current_count e k < target) ->
  (forall k, scroll_height e k = Ok (heights k)) ->
  (forall k, heights k < heights (S k)) ->
  forall (fuel : nat) (st : locals),
  last_height st < heights (scroll_count st) ->
  loop fuel M target e st = None.
Proof.
  intros Hcount Hpage Hgrow.
  induction fuel as [|fuel IH]; intros st Hlast; [reflexivity|].
  cbn [loop].
  destruct (Z.leb_spec target (get_current_count e (probe_calls st))) as [Hreached|_].
  { specialize (Hcount (probe_calls st)). lia. }
  rewrite Hpage.
  destruct (Z.eqb_spec (heights (scroll_count st)) (last_height st)) as [Heq|_]; [lia|].
  cbn [andb]. apply IH. cbn [last_height scroll_count]. apply Hgrow.
Qed.

End scroll_more.

(** X6.  Why [scroll_to_load_results] comes back: when it returns, either
    the last probe made by the loop had reached the target, or at least
    one scroll was made and the counter of iterations without progress had
    reached [max_no_change_iterations]; the probe is called twice per
    scroll, once more when the target stops the loop, and once more for
    the value returned.  When it raises, a scroll of the page raised. *)
Theorem scroll_to_load_results_exits
    (fuel : nat) (M target : Z) (e : ScrollHandler.env) :
  match ScrollHandler.scroll_to_load_results fuel M target e with
  | None => True
  | Some (Raise ex) => exists k, ScrollHandler.scroll_height e k = Raise ex
  | Some (Ok (count, st)) =>
      count = ScrollHandler.get_current_count e (ScrollHandler.probe_calls st) /\
      (((target <= ScrollHandler.get_current_count e
                     (Nat.pred (ScrollHandler.probe_calls st)))%Z /\
        ScrollHandler.probe_calls st = 2 * ScrollHandler.scroll_count st + 1)
       \/
       ((M <= ScrollHandler.no_change_iterations st)%Z /\
        0 < ScrollHandler.scroll_count st /\
        ScrollHandler.probe_calls st = 2 * ScrollHandler.scroll_count st))
  end.
Proof.
  unfold ScrollHandler.scroll_to_load_results.
  pose proof (loop_exits M target e fuel ScrollHandler.init) as Hloop.
  destruct (ScrollHandler.loop fuel M target e ScrollHandler.init) as [[st|ex]|];
    [| |exact I].
  - split; [reflexivity|]. cbn [ScrollHandler.init ScrollHandler.scroll_count
                                 ScrollHandler.probe_calls] in Hloop.
    destruct Hloop as [_ [[Hr Hc]|(Hm & Hlt & Hc)]].
    + left. split; [exact Hr | lia].
    + right. split; [exact Hm|]. split; lia.
  - destruct Hloop as (k & _ & Hk). exists k. exact Hk.
Qed.

(** X7.  The loop has no time limit of its own ([timeout_ms] is never
    read): on a page that is taller after every scroll, with a count that
    stays below the target, [scroll_to_load_results] does not return,
    whatever [max_no_change_iterations]. *)
Theorem scroll_to_load_results_has_no_timeout
    (M target : Z) (e : ScrollHandler.env) (heights : nat -> Z) :
  (forall k, (ScrollHandler.get_current_count e k < target)%Z) ->
  (forall k, ScrollHandler.scroll_height e k = Ok (heights k)) ->
  (0 < heights 0%nat)%Z ->
  (forall k, (heights k < heights (S k))%Z) ->
  forall fuel, ScrollHandler.scroll_to_load_results fuel M target e = None.
Proof.
  intros Hcount Hpage Hfirst Hgrow fuel. unfold ScrollHandler.scroll_to_load_results.
  rewrite (loop_runs_on M target e heights Hcount Hpage Hgrow fuel ScrollHandler.init);
    [reflexivity | exact Hfirst].
Qed.

Lemma scroll_to_load_results_has_no_timeout_witness :
  ScrollHandler.scroll_to_load_results 1000 3 50
    (ScrollHandler.mk_env (fun _ => 7%Z) (fun k => Ok (Z.of_nat k + 1)%Z)) = None.
Proof.
  apply (scroll_to_load_results_has_no_timeout 3 50
           (ScrollHandler.mk_env (fun _ => 7%Z) (fun k => Ok (Z.of_nat k + 1)%Z))
           (fun k => (Z.of_nat k + 1)%Z)).
  - intros k. simpl. lia.
  - intros k. reflexivity.
  - simpl. lia.
  - intros k. lia.
Defined.

Lemma timed_loop_fuel_mono (duration : Z) (e : ScrollTimer.env) (fuel : nat) :
  forall (fuel' n : nat) (r : result nat),
  fuel <= fuel' ->
  ScrollTimer.timed_loop fuel duration e n = Some r ->
  ScrollTimer.timed_loop fuel' duration e n = Some r.
Proof.
  induction fuel as [|fuel IH]; intros fuel' n r Hle Hrun; [discriminate|].
  destruct fuel' as [|fuel']; [lia|].
  cbn [ScrollTimer.timed_loop] in *.
  destruct (_ <? _)%Z; [|exact Hrun].
  destruct (ScrollTimer.scroll e n); [|exact Hrun].
  apply IH; [lia | exact Hrun].
Qed.

Section timer_facts.

Import ScrollTimer.
#[local] Open Scope Z_scope.

Variables (duration d : Z) (e : env).
Hypothesis Hd : 0 < d.
Hypothesis Hfirst : clock e 0 <= clock e 1.
Hypothesis Hsleep : forall k, clock e (S k) + d <= clock e (S (S k)).
Hypothesis Hscroll : forall k, scroll e k = Ok tt.

(** The reading of the test made after [k] scrolls. *)
Lemma clock_advances (k : nat) : clock e 0 + Z.of_nat k * d <= clock e (S k).
Proof.
  induction k as [|k IH]; [lia|]. specialize (Hsleep k). lia.
Qed.

Lemma timed_loop_ends (fuel : nat) :
  forall n : nat,
  (n = 0%nat \/ (Z.of_nat n - 1) * d < duration) ->
  (Z.to_nat (duration / d) + 2 <= n + fuel)%nat ->
  exists n',
    timed_loop fuel duration e n = Some (Ok n') /\
    (n' = 0%nat \/ (Z.of_nat n' - 1) * d < duration).
Proof.
  induction fuel as [|fuel IH]; intros n Hn Hfuel.
  - exfalso. destruct Hn as [->|Hn]; [lia|].
    assert (Z.of_nat n - 1 <= duration / d) by (apply Z.div_le_lower_bound; lia).
    lia.
  - cbn [timed_loop].
    destruct (Z.ltb_spec (clock e (S n) - clock e 0) duration) as [Hgo|Hstop].
    + rewrite Hscroll. apply IH; [|lia]. right.
      pose proof (clock_advances n). lia.
    + exists n. split; [reflexivity | exact Hn].
Qed.

End timer_facts.

(** X8.  [scroll_for_time] ends when the clock does not go back between
    the reading of [start_time] and the first test of the loop, every
    pass of the loop (a scroll, then the sleep of [scroll_delay_ms]) lasts
    at least [d > 0] on the clock, and no scroll raises; no sleep comes
    before the first test, so it makes [n] scrolls with [n = 0] or
    [(n - 1) * d < duration], then returns the probe's answer, and 0 when
    no probe was supplied. *)
Theorem scroll_for_time_ends
    (duration d : Z) (e : ScrollTimer.env) (probe : option (result Z)) :
  (0 < d)%Z ->
  (ScrollTimer.clock e 0 <= ScrollTimer.clock e 1)%Z ->
  (forall k, (ScrollTimer.clock e (S k) + d <= ScrollTimer.clock e (S (S k)))%Z) ->
  (forall k, ScrollTimer.scroll e k = Ok tt) ->
  exists n,
    (n = 0 \/ ((Z.of_nat n - 1) * d < duration)%Z) /\
    forall fuel, Z.to_nat (duration / d) + 2 <= fuel ->
      ScrollTimer.scroll_for_time fuel duration e probe
      = Some (match probe with
              | Some answer => count <- answer ;; Ok (count, n)
              | None => Ok (0%Z, n)
              end).
Proof.
  intros Hd Hfirst Hsleep Hscroll.
  destruct (timed_loop_ends duration d e Hd Hfirst Hsleep Hscroll
              (Z.to_nat (duration / d) + 2) 0) as (n & Hrun & Hn); [left; reflexivity | lia |].
  exists n. split; [exact Hn|]. intros fuel Hfuel.
  unfold ScrollTimer.scroll_for_time.
  rewrite (timed_loop_fuel_mono duration e _ fuel 0 (Ok n) Hfuel Hrun).
  destruct probe; reflexivity.
Qed.

(** A first test made at once, then one second per pass: three scrolls in
    two and a half seconds. *)
Lemma scroll_for_time_ends_witness :
  (exists n,
     (n = 0 \/ ((Z.of_nat n - 1) * 1000 < 2500)%Z) /\
     forall fuel, Z.to_nat (2500 / 1000) + 2 <= fuel ->
       ScrollTimer.scroll_for_time fuel 2500
         (ScrollTimer.mk_env (fun k => (1000 * Z.of_nat (Nat.pred k))%Z) (fun _ => Ok tt))
         None
       = Some (Ok (0%Z, n))) /\
  ScrollTimer.scroll_for_time 4 2500
    (ScrollTimer.mk_env (fun k => (1000 * Z.of_nat (Nat.pred k))%Z) (fun _ => Ok tt)) None
  = Some (Ok (0%Z, 3)).
Proof.
  split; [|vm_compute; reflexivity].
  apply (scroll_for_time_ends 2500 1000
           (ScrollTimer.mk_env (fun k => (1000 * Z.of_nat (Nat.pred k))%Z) (fun _ => Ok tt))
           None).
  - lia.
  - simpl. lia.
  - intros k. cbn [ScrollTimer.clock Nat.pred]. lia.
  - intros k. reflexivity.
Defined.

(** ** BrowserManager: sequences of [start] and [stop], [new_context],
    [new_page] *)

Section browser_more.

Import BrowserManager BrowserSessions.

Lemma sessions_S (k : nat) :
  sessions (S k) = sessions k ++ [PlaywrightStart; ChromiumLaunch; BrowserClose; PlaywrightStop].
Proof.
  unfold sessions. induction k as [|k IH]; [reflexivity|].
  change (replicate (S (S k)) ?x) with (x :: replicate (S k) x).
  rewrite concat_cons, IH at 1. cbn [replicate concat]. rewrite <- !app_assoc. reflexivity.
Qed.

(** With no failure the manager is either stopped or holds both handles,
    and the world is a number of complete sessions and its open one. *)
Definition in_session (m : t) (w : world) : Prop :=
  (is_Some (_playwright m) <-> is_Some (_browser m)) /\
  exists k, w = sessions k ++ open_session m.

Lemma method_in_session (o : op) (m : t) (w : world) :
  in_session m w ->
  exists m1 w1, method_of (fun _ => false) o m w = (Ok tt, m1, w1) /\ in_session m1 w1.
Proof.
  intros [Hboth [k Hw]]. destruct m as [p b]. cbn [_playwright _browser] in Hboth.
  unfold open_session in Hw. cbn [_browser] in Hw.
  destruct o; cbn [method_of]; unfold start, stop; cbn [_playwright _browser].
  - destruct b as [b|].
    + eexists _, _. split; [reflexivity|]. split; [exact Hboth|]. exists k. exact Hw.
    + eexists _, _. split; [reflexivity|]. split.
      * cbn [_playwright _browser]. split; intros _; eexists; reflexivity.
      * exists k. unfold open_session. cbn [_browser]. rewrite Hw, app_nil_r, <- app_assoc.
        reflexivity.
  - destruct b as [b|].
    + destruct p as [p|]; [|exfalso; destruct Hboth as [_ H]; destruct H as [x Hx];
                             [eexists; reflexivity | discriminate]].
      cbn [_playwright _browser]. eexists _, _. split; [reflexivity|]. split.
      * cbn [_playwright _browser]. split; intros [x Hx]; discriminate.
      * exists (S k). unfold open_session. cbn [_browser].
        rewrite sessions_S, Hw, app_nil_r, <- !app_assoc. reflexivity.
    + destruct p as [p|]; [exfalso; destruct Hboth as [H _]; destruct H as [x Hx];
                            [eexists; reflexivity | discriminate]|].
      cbn [_playwright _browser]. eexists _, _. split; [reflexivity|]. split.
      * exact Hboth.
      * exists k. exact Hw.
Qed.

End browser_more.

(** X9.  Without failures, any sequence of [start()] and [stop()] calls on
    a fresh manager leaves it stopped or holding both handles, and the
    calls made into Playwright are a number of complete sessions (start,
    launch, close, stop) followed by the two calls of the session that is
    open, if one is: repeated starts and repeated stops add nothing. *)
Theorem start_stop_sequences_are_sessions (ops : list BrowserSessions.op) :
  let '(m, w) := BrowserSessions.calls (fun _ => false) ops BrowserManager.init [] in
  (BrowserManager.stopped m \/
   (is_Some (BrowserManager._playwright m) /\ BrowserManager.running m)) /\
  exists k, w = BrowserSessions.sessions k ++ BrowserSessions.open_session m.
Proof.
  assert (Hgen : forall ops m w, in_session m w ->
            in_session (BrowserSessions.calls (fun _ => false) ops m w).1
                       (BrowserSessions.calls (fun _ => false) ops m w).2).
  { clear ops. induction ops as [|o ops IH]; intros m w Hin; [exact Hin|].
    cbn [BrowserSessions.calls].
    destruct (method_in_session o m w Hin) as (m1 & w1 & -> & Hin1).
    apply IH. exact Hin1. }
  assert (Hinit : in_session BrowserManager.init []).
  { split; [|exists 0; reflexivity]. cbn. split; intros [x Hx]; discriminate. }
  specialize (Hgen ops BrowserManager.init [] Hinit).
  destruct (BrowserSessions.calls (fun _ => false) ops BrowserManager.init []) as [m w].
  cbn [fst snd] in Hgen. destruct Hgen as [Hboth Hw].
  split; [|exact Hw].
  unfold BrowserManager.stopped, BrowserManager.running.
  destruct (BrowserManager._browser m) as [b|] eqn:Hb.
  - right. split; [apply Hboth|]; eexists; reflexivity.
  - left. split; [reflexivity|].
    destruct (BrowserManager._playwright m) as [p|]; [|reflexivity].
    destruct Hboth as [H _]. destruct H as [x Hx]; [eexists; reflexivity | discriminate].
Qed.

(** X10.  A launch that fails leaves the Playwright driver started and its
    handle in [_playwright]; since [start] tests [_browser] only, the next
    [start] starts a second driver and overwrites the handle, and the
    [stop] that follows stops one driver: the first is never stopped. *)
Theorem failed_launch_leaves_driver_behind
    (fails : nat -> bool) (m : BrowserManager.t) (w : BrowserManager.world) :
  BrowserManager.stopped m ->
  fails (length w) = false ->
  fails (S (length w)) = true ->
  (forall n, 2 <= n < 6 -> fails (length w + n) = false) ->
  let '(r1, m1, w1) := BrowserManager.start fails m w in
  let '(r2, m2, w2) := BrowserManager.start fails m1 w1 in
  let '(r3, m3, w3) := BrowserManager.stop fails m2 w2 in
  r1 = Raise PlaywrightError /\
  m1 = BrowserManager.mk (Some (length w)) None /\
  r2 = Ok tt /\
  m2 = BrowserManager.mk (Some (length w + 2)) (Some (length w + 3)) /\
  r3 = Ok tt /\ BrowserManager.stopped m3 /\
  w3 = w ++ [BrowserManager.PlaywrightStart; BrowserManager.ChromiumLaunch;
             BrowserManager.PlaywrightStart; BrowserManager.ChromiumLaunch;
             BrowserManager.BrowserClose; BrowserManager.PlaywrightStop].
Proof.
  intros [Hb Hp] H0 H1 Hrest. destruct m as [p b]. cbn in Hb, Hp. subst p b.
  assert (Hlater : forall n, length w + 2 <= n < length w + 6 -> fails n = false).
  { intros n Hn. replace n with (length w + (n - length w)) by lia. apply Hrest. lia. }
  unfold BrowserManager.start at 1. cbn [BrowserManager._browser BrowserManager._playwright].
  rewrite H0. rewrite length_app. cbn [length]. rewrite Nat.add_1_r, H1.
  unfold BrowserManager.start, BrowserManager.stop.
  cbn [BrowserManager._browser BrowserManager._playwright].
  repeat match goal with
         | |- context [fails ?n] =>
             let H := fresh in
             assert (H : fails n = false)
               by (apply Hlater; rewrite ?length_app; cbn [length]; lia);
             rewrite H; clear H;
             cbn [BrowserManager._browser BrowserManager._playwright]
         end.
  rewrite !length_app. cbn [length]. rewrite <- !app_assoc. cbn [app].
  repeat split; f_equal; f_equal; lia.
Qed.

Lemma failed_launch_leaves_driver_behind_witness :
  let '(r1, m1, w1) :=
    BrowserManager.start (fun n => Nat.eqb n 1) BrowserManager.init [] in
  let '(r2, m2, w2) := BrowserManager.start (fun n => Nat.eqb n 1) m1 w1 in
  let '(r3, m3, w3) := BrowserManager.stop (fun n => Nat.eqb n 1) m2 w2 in
  r1 = Raise PlaywrightError /\
  m1 = BrowserManager.mk (Some 0) None /\
  r2 = Ok tt /\
  m2 = BrowserManager.mk (Some 2) (Some 3) /\
  r3 = Ok tt /\ BrowserManager.stopped m3 /\
  w3 = [BrowserManager.PlaywrightStart; BrowserManager.ChromiumLaunch;
        BrowserManager.PlaywrightStart; BrowserManager.ChromiumLaunch;
        BrowserManager.BrowserClose; BrowserManager.PlaywrightStop].
Proof.
  apply (failed_launch_leaves_driver_behind (fun n => Nat.eqb n 1) BrowserManager.init []).
  - split; reflexivity.
  - reflexivity.
  - reflexivity.
  - intros n Hn. simpl. apply Nat.eqb_neq. lia.
Defined.

Section pages_more.

Import BrowserManager.

(** [BrowserPages.start] is [BrowserManager.start] on the wider world. *)
Lemma start_on_wider_world (fails : nat -> bool) (m : t)
    (w0 : BrowserManager.world) (w : BrowserPages.world) :
  length w = length w0 ->
  exists calls,
    (BrowserManager.start fails m w0).2 = w0 ++ calls /\
    BrowserPages.start fails m w
    = ((BrowserManager.start fails m w0).1.1, (BrowserManager.start fails m w0).1.2,
       w ++ map BrowserPages.Lifecycle calls).
Proof.
  intros Hlen. unfold BrowserManager.start, BrowserPages.start.
  destruct (_browser m).
  - exists []. rewrite !app_nil_r. split; reflexivity.
  - rewrite !length_app, Hlen. cbn [length].
    destruct (fails (length w0)).
    + exists [PlaywrightStart]. split; reflexivity.
    + destruct (fails (length w0 + 1)).
      * exists [PlaywrightStart; ChromiumLaunch]. rewrite <- !app_assoc. split; reflexivity.
      * exists [PlaywrightStart; ChromiumLaunch]. rewrite <- !app_assoc. split; reflexivity.
Qed.

Lemma start_returns_with_browser (fails : nat -> bool) (m : t) (w : BrowserPages.world) :
  forall m0 w0, BrowserPages.start fails m w = (Ok tt, m0, w0) -> is_Some (_browser m0).
Proof.
  intros m0 w0. unfold BrowserPages.start.
  destruct (_browser m) as [b|] eqn:Hb.
  - intros [= <- <-]. rewrite Hb. eexists; reflexivity.
  - destruct (fails _); [discriminate|]. destruct (fails _); [discriminate|].
    intros [= <- <-]. eexists; reflexivity.
Qed.

End pages_more.

(** X11.  [new_page] on a running browser whose context and page open:
    whatever the block does, return or raise, the page is closed and then
    the context, as the last two calls; the block's outcome is what the
    caller gets unless one of the two closes raises. *)
Theorem new_page_closes_page_and_context
    {A : Type} (fails : nat -> bool) (body : BrowserPages.block A)
    (m : BrowserManager.t) (w : BrowserPages.world) (browser : nat) :
  BrowserManager._browser m = Some browser ->
  (forall n, n < 3 -> fails (length w + n) = false) ->
  let context := length w in
  let page := S (length w) in
  let '(r, m3, w3) :=
    body page m (w ++ [BrowserPages.NewContext browser; BrowserPages.NewPage context;
                       BrowserPages.Route page]) in
  exists r',
    BrowserPages.new_page fails body m w
    = (r', m3, w3 ++ [BrowserPages.PageClose page; BrowserPages.ContextClose context]) /\
    (r' = r \/ r' = Raise PlaywrightError) /\
    (fails (length w3) = false -> fails (S (length w3)) = false -> r' = r).
Proof.
  intros Hb Hopen. cbn zeta.
  destruct (body _ _ _) as [[r m3] w3] eqn:Hbody.
  unfold BrowserPages.new_page, BrowserPages.new_context. rewrite Hb. cbn iota beta.
  rewrite Hb.
  pose proof (Hopen 0 ltac:(lia)) as H0. rewrite Nat.add_0_r in H0.
  pose proof (Hopen 1 ltac:(lia)) as H1.
  pose proof (Hopen 2 ltac:(lia)) as H2.
  rewrite H0. cbn beta. rewrite !length_app. cbn [length]. rewrite H1.
  replace (length w + 1 + 1) with (length w + 2) by lia. rewrite H2.
  replace (length w + 1) with (S (length w)) by lia.
  rewrite <- !app_assoc. cbn [app]. rewrite Hbody. cbn iota beta.
  destruct (fails (length w3)) eqn:Hpc; cbn iota beta;
    rewrite length_app; cbn [length];
    replace (length w3 + 1) with (S (length w3)) by lia;
    rewrite <- !app_assoc; cbn [app];
    destruct (fails (S (length w3))) eqn:Hcc;
    eexists; (split; [reflexivity|]); split; auto; intros; congruence.
Qed.

Lemma new_page_closes_page_and_context_witness :
  exists r',
    BrowserPages.new_page (fun _ => false)
      (fun page m w => (Raise TypeError : result unit, m, w))
      (BrowserManager.mk (Some 0) (Some 1))
      [BrowserPages.Lifecycle BrowserManager.PlaywrightStart;
       BrowserPages.Lifecycle BrowserManager.ChromiumLaunch]
    = (r', BrowserManager.mk (Some 0) (Some 1),
       ([BrowserPages.Lifecycle BrowserManager.PlaywrightStart;
         BrowserPages.Lifecycle BrowserManager.ChromiumLaunch]
        ++ [BrowserPages.NewContext 1; BrowserPages.NewPage 2; BrowserPages.Route 3])
       ++ [BrowserPages.PageClose 3; BrowserPages.ContextClose 2]) /\
    (r' = Raise TypeError \/ r' = Raise PlaywrightError) /\
    (false = false -> false = false -> r' = Raise TypeError).
Proof.
  apply (new_page_closes_page_and_context (fun _ => false)
           (fun page m w => (Raise TypeError : result unit, m, w))
           (BrowserManager.mk (Some 0) (Some 1))
           [BrowserPages.Lifecycle BrowserManager.PlaywrightStart;
            BrowserPages.Lifecycle BrowserManager.ChromiumLaunch] 1).
  - reflexivity.
  - intros n _. reflexivity.
Defined.

(** X12.  [new_context] starts a stopped browser before it opens a context
    and never reaches [self._browser.new_context] with [_browser] unset:
    it raises [AttributeError] only if its block does. *)
Theorem new_context_never_uses_unset_browser
    {A : Type} (fails : nat -> bool) (body : BrowserPages.block A)
    (m : BrowserManager.t) (w : BrowserPages.world) :
  (forall context m1 w1, (body context m1 w1).1.1 <> Raise AttributeError) ->
  (BrowserPages.new_context fails body m w).1.1 <> Raise AttributeError.
Proof.
  intros Hbody. unfold BrowserPages.new_context.
  destruct (BrowserManager._browser m) as [b|] eqn:Hb.
  - rewrite Hb. destruct (fails (length w)); [discriminate|].
    specialize (Hbody (length w) m (w ++ [BrowserPages.NewContext b])).
    destruct (body _ _ _) as [[r m2] w2]. cbn [fst] in Hbody.
    destruct (fails (length w2)); [discriminate | exact Hbody].
  - destruct (BrowserPages.start fails m w) as [[[[]|e] m0] w0] eqn:Hstart.
    + destruct (start_returns_with_browser fails m w m0 w0 Hstart) as [b' Hb'].
      rewrite Hb'. destruct (fails (length w0)); [discriminate|].
      specialize (Hbody (length w0) m0 (w0 ++ [BrowserPages.NewContext b'])).
      destruct (body _ _ _) as [[r m2] w2]. cbn [fst] in Hbody.
      destruct (fails (length w2)); [discriminate | exact Hbody].
    + cbn [fst]. revert Hstart. unfold BrowserPages.start. rewrite Hb.
      destruct (fails _); [intros [= <- _ _]; discriminate|].
      destruct (fails _); [intros [= <- _ _]; discriminate|]. discriminate.
Qed.

Lemma new_context_never_uses_unset_browser_witness :
  (BrowserPages.new_context (fun _ => false)
     (fun context m w => (Ok context, m, w)) BrowserManager.init []).1.1
  <> Raise AttributeError.
Proof.
  apply (new_context_never_uses_unset_browser (fun _ => false)
           (fun context m w => (Ok context, m, w)) BrowserManager.init []).
  intros context m1 w1. discriminate.
Defined.

(** ** DataExtractor: what [extract_posts] returns, and when it raises *)

Section extractor_more.

Import DataExtractor.

Definition is_dict (v : value) : bool :=
  match v with
  | VDict _ => true
  | _ => false
  end.

(** The payload that leaves the chain is truthy, or the list of the last
    strategy. *)
Lemma chain_payload (p : page) :
  truthy (chain p).2 = true \/ exists cards, (chain p).2 = VList cards.
Proof.
  unfold chain. set (acc := fallback Preloads p _). clearbody acc.
  unfold fallback. destruct (truthy acc.2) eqn:Ht; [left; exact Ht|].
  right. cbn [snd run_strategy]. unfold _extract_from_dom.
  destruct (dom_cards p) as [cards|ex]; cbn [bind catch]; eexists; reflexivity.
Qed.

Lemma stamp_ok (keyword scraped_at : string) (v : value) (r : record) :
  stamp keyword scraped_at v = Ok r <->
  exists d, v = VDict d /\
            r = <["scrapedAt" := VStr scraped_at]> (<["keyword" := VStr keyword]> d).
Proof.
  destruct v; cbn [stamp]; split;
    try discriminate; try (intros (d0 & [=] & _); fail).
  - intros [= <-]. eexists. split; reflexivity.
  - intros (d0 & [= <-] & ->). reflexivity.
Qed.

Lemma stamp_raises (keyword scraped_at : string) (v : value) (e : exn) :
  stamp keyword scraped_at v = Raise e -> e = TypeError /\ is_dict v = false.
Proof. destruct v; cbn [stamp]; intros [=]; subst; split; reflexivity. Qed.

Lemma mapM_stamp_ok (keyword scraped_at : string) (items : list value) :
  forall posts,
  mapM (stamp keyword scraped_at) items = Ok posts <->
  Forall2 (fun v r => exists d, v = VDict d /\
             r = <["scrapedAt" := VStr scraped_at]> (<["keyword" := VStr keyword]> d))
          items posts.
Proof.
  induction items as [|v items IH]; intros posts; cbn [mapM].
  - split.
    + intros [= <-]. constructor.
    + intros H. inversion H. reflexivity.
  - destruct (stamp keyword scraped_at v) as [r|e] eqn:Hv; cbn [bind].
    + destruct (mapM (stamp keyword scraped_at) items) as [rs|e] eqn:Hrest; cbn [bind].
      * split.
        -- intros [= <-]. constructor; [apply stamp_ok; exact Hv | apply IH; reflexivity].
        -- intros H. inversion H as [|? r' ? rs' (d & -> & ->) Hrs]; subst.
           apply IH in Hrs. injection Hrs as <-.
           apply stamp_ok in Hv as (d' & [= <-] & ->). reflexivity.
      * split; [discriminate|].
        intros H. inversion H as [|? r' ? rs' _ Hrs]; subst.
        apply IH in Hrs. discriminate.
    + split; [discriminate|].
      intros H. inversion H as [|? r' ? rs' (d & -> & ->) _]; subst. discriminate.
Qed.

Lemma mapM_stamp_raises (keyword scraped_at : string) (items : list value) (e : exn) :
  mapM (stamp keyword scraped_at) items = Raise e ->
  e = TypeError /\ forallb is_dict items = false.
Proof.
  induction items as [|v items IH]; cbn [mapM forallb]; [discriminate|].
  destruct (stamp keyword scraped_at v) as [r|e'] eqn:Hv; cbn [bind].
  - apply stamp_ok in Hv as (d & -> & _). cbn [is_dict andb].
    destruct (mapM (stamp keyword scraped_at) items) as [rs|e'']; cbn [bind]; [discriminate|].
    intros [= ->]. apply IH. reflexivity.
  - intros [= ->]. apply stamp_raises in Hv as [-> Hd]. rewrite Hd. split; reflexivity.
Qed.

Lemma mapM_stamp_dicts (keyword scraped_at : string) (items : list value) :
  forallb is_dict items = true -> is_ok (mapM (stamp keyword scraped_at) items) = true.
Proof.
  intros Hd. destruct (mapM (stamp keyword scraped_at) items) as [rs|e] eqn:Hm; [reflexivity|].
  apply mapM_stamp_raises in Hm as [_ Hm]. congruence.
Qed.

(** Iterating over a truthy payload that is not a list yields nothing that
    can be stamped. *)
Lemma truthy_payload_not_list (keyword scraped_at : string) (payload : value) :
  truthy payload = true ->
  (forall items, payload <> VList items) ->
  exists e, (items <- py_iter payload ;; mapM (stamp keyword scraped_at) items) = Raise e
            /\ e = TypeError.
Proof.
  intros Ht Hnl. destruct payload as [| | | |s| |l|d]; cbn [py_iter bind];
    try (eexists; split; reflexivity).
  - destruct s as [|c s]; [discriminate|]. cbn. eexists; split; reflexivity.
  - exfalso. apply (Hnl l). reflexivity.
  - destruct (map_to_list d) as [|[k v] kvs] eqn:Hl.
    + apply map_to_list_empty_iff in Hl. subst d. discriminate.
    + cbn. eexists; split; reflexivity.
Qed.

End extractor_more.

(** X13.  [extract_posts] returns exactly when the payload that leaves
    the chain of strategies is a list of dictionaries; otherwise (a page
    whose embedded JSON holds a string, a number or a dictionary under
    [posts], or a list with an item that is not a dictionary) it raises
    [TypeError]. *)
Theorem extract_posts_returns_iff_list_of_dicts
    (p : DataExtractor.page) (keyword scraped_at : string) :
  match (DataExtractor.extract_posts p keyword scraped_at).2 with
  | Ok posts =>
      exists items, (DataExtractor.chain p).2 = VList items /\
                    forallb is_dict items = true /\ length posts = length items
  | Raise e =>
      e = TypeError /\
      forall items, (DataExtractor.chain p).2 = VList items -> forallb is_dict items = false
  end.
Proof.
  unfold DataExtractor.extract_posts.
  destruct (DataExtractor.chain p) as [invoked payload] eqn:Hchain. cbn [snd].
  pose proof (chain_payload p) as Hpay. rewrite Hchain in Hpay. cbn [snd] in Hpay.
  assert (Hcases : (exists items, payload = VList items) \/
                   (truthy payload = true /\ forall items, payload <> VList items)).
  { destruct payload; try (right; split; [|discriminate]);
      try (destruct Hpay as [Ht|[c Hc]]; [exact Ht | discriminate]).
    left. eexists; reflexivity. }
  destruct Hcases as [[items ->]|[Ht Hnl]].
  - cbn [py_iter bind].
    destruct (mapM (DataExtractor.stamp keyword scraped_at) items) as [posts|e] eqn:Hm.
    + exists items. split; [reflexivity|]. apply mapM_stamp_ok in Hm. split.
      * clear -Hm. induction Hm as [|v r vs rs (d & -> & _) _ IH]; [reflexivity|].
        cbn [forallb is_dict andb]. exact IH.
      * symmetry. exact (Forall2_length _ _ _ Hm).
    + apply mapM_stamp_raises in Hm as [-> Hd]. split; [reflexivity|].
      intros items' [= <-]. exact Hd.
  - destruct (truthy_payload_not_list keyword scraped_at payload Ht Hnl) as (e & -> & ->).
    split; [reflexivity|]. intros items Hp. exfalso. exact (Hnl items Hp).
Qed.

(** X14.  What [extract_posts] returns: one record per item of the
    payload, in order; each carries the search keyword under [keyword] and
    the time of the extraction under [scrapedAt], whatever the payload had
    there, and every other key as the payload had it. *)
Theorem extract_posts_stamps_and_keeps
    (p : DataExtractor.page) (keyword scraped_at : string) (posts : list record) :
  (DataExtractor.extract_posts p keyword scraped_at).2 = Ok posts ->
  exists items,
    (DataExtractor.chain p).2 = VList items /\
    length posts = length items /\
    forall i post, posts !! i = Some post ->
      post !! "keyword" = Some (VStr keyword) /\
      post !! "scrapedAt" = Some (VStr scraped_at) /\
      exists d, items !! i = Some (VDict d) /\
                forall k, k <> "keyword" -> k <> "scrapedAt" -> post !! k = d !! k.
Proof.
  intros Hret.
  pose proof (extract_posts_shape := chain_payload p).
  unfold DataExtractor.extract_posts in Hret.
  destruct (DataExtractor.chain p) as [invoked payload] eqn:Hchain. cbn [snd] in *.
  assert (Hlist : exists items, payload = VList items).
  { destruct payload as [| | | |s| |l|d]; try discriminate; [| eexists; reflexivity |].
    - destruct extract_posts_shape as [Ht|[c Hc]]; [|discriminate].
      destruct (truthy_payload_not_list keyword scraped_at (VStr s) Ht ltac:(discriminate))
        as (e & He & _). rewrite He in Hret. discriminate.
    - destruct extract_posts_shape as [Ht|[c Hc]]; [|discriminate].
      destruct (truthy_payload_not_list keyword scraped_at (VDict d) Ht ltac:(discriminate))
        as (e & He & _). rewrite He in Hret. discriminate. }
  destruct Hlist as [items ->]. cbn [py_iter bind] in Hret.
  apply mapM_stamp_ok in Hret. exists items. split; [reflexivity|].
  split; [symmetry; exact (Forall2_length _ _ _ Hret)|].
  intros i post Hi.
  destruct (Forall2_lookup_r _ _ _ _ _ Hret Hi) as (v & Hv & d & -> & ->).
  split; [|split].
  - rewrite lookup_insert_ne by discriminate. apply lookup_insert_eq.
  - apply lookup_insert_eq.
  - exists d. split; [exact Hv|]. intros k Hk Hs.
    rewrite !lookup_insert_ne by congruence. reflexivity.
Qed.

Lemma extract_posts_stamps_and_keeps_witness :
  let p := DataExtractor.mk_page (Ok []) (Ok None)
             (Ok (Some (VDict {[ "posts" := VList [VDict {[ "id" := VInt 1 ]}] ]})))
             (Ok []) in
  match (DataExtractor.extract_posts p "ai" "2025-01-01T00:00:01Z").2 with
  | Ok posts =>
      exists items,
        (DataExtractor.chain p).2 = VList items /\
        length posts = length items /\
        forall i post, posts !! i = Some post ->
          post !! "keyword" = Some (VStr "ai") /\
          post !! "scrapedAt" = Some (VStr "2025-01-01T00:00:01Z") /\
          exists d, items !! i = Some (VDict d) /\
                    forall k, k <> "keyword" -> k <> "scrapedAt" -> post !! k = d !! k
  | Raise _ => False
  end.
Proof.
  intros p.
  assert (Hret : is_ok (DataExtractor.extract_posts p "ai" "2025-01-01T00:00:01Z").2 = true)
    by (vm_compute; reflexivity).
  destruct (DataExtractor.extract_posts p "ai" "2025-01-01T00:00:01Z").2 as [posts|ex] eqn:Hrun;
    [|discriminate].
  exact (extract_posts_stamps_and_keeps p "ai" "2025-01-01T00:00:01Z" posts Hrun).
Defined.

(** ** DataExtractor: [__NEXT_DATA__], the script of the DOM strategy *)

Lemma get_present (d : record) (k : string) (v dflt : value) :
  d !! k = Some v -> get d k dflt = v.
Proof. intros H. unfold get. rewrite H. reflexivity. Qed.

(** X15.  In [_extract_from_next_data] a [searchData] that is not a
    dictionary (a JSON [null], say) hides the queries of
    [dehydratedState]: with no posts under [posts] and [results], the
    strategy comes back empty whatever else the page properties hold. *)
Theorem next_data_null_search_data_hides_queries
    (p : DataExtractor.page) (data props page_props : record) (search_data : value) :
  DataExtractor.next_data p = Ok (Some (VDict data)) ->
  data !! "props" = Some (VDict props) ->
  props !! "pageProps" = Some (VDict page_props) ->
  truthy (get page_props "posts" (VList [])) = false ->
  truthy (get page_props "results" (VList [])) = false ->
  page_props !! "searchData" = Some search_data ->
  is_dict search_data = false ->
  DataExtractor._extract_from_next_data p = VList [].
Proof.
  intros Hp Hdata Hprops Hposts Hresults Hsd Hnd.
  unfold DataExtractor._extract_from_next_data. rewrite Hp. cbn [bind py_get].
  rewrite (get_present _ _ _ _ Hdata). cbn [bind py_get].
  rewrite (get_present _ _ _ _ Hprops). cbn [bind py_get].
  rewrite Hposts. cbn [bind py_get]. rewrite Hresults. cbn [bind py_get].
  rewrite (get_present _ _ _ _ Hsd).
  destruct search_data; try discriminate; reflexivity.
Qed.

Lemma next_data_null_search_data_witness :
  DataExtractor._extract_from_next_data
    (DataExtractor.mk_page (Ok []) 
       (Ok (Some (VDict {[ "props" := VDict {[ "pageProps" :=
          VDict (<["searchData" := VNone]>
                 {[ "dehydratedState" := VDict {[ "queries" :=
                      VList [VDict {[ "state" := VDict {[ "data" :=
                        VDict {[ "posts" := VList [VDict {[ "id" := VInt 1 ]}] ]} ]} ]}] ]} ]}) ]} ]})))
       (Ok None) (Ok []))
  = VList [].
Proof.
  eapply next_data_null_search_data_hides_queries with (search_data := VNone).
  - reflexivity.
  - apply lookup_singleton_eq.
  - apply lookup_singleton_eq.
  - reflexivity.
  - reflexivity.
  - apply lookup_insert_eq.
  - reflexivity.
Defined.

Import Stdlib.Strings.Ascii.

(** What the pattern [/\/p\/([^/?]+)/] matches in a link.  A match can start
    after [pre] when [/p/] follows, and then a character that is neither
    [/] nor [?]; the group ends at the end of the link or before a [/] or
    a [?]; the match found is the leftmost one. *)
Definition clean (seg : string) : Prop :=
  forall ch, In ch (String.list_ascii_of_string seg) -> ch <> "/"%char /\ ch <> "?"%char.

Definition segment_start (url pre : string) : Prop :=
  exists ch rest,
    url = pre +:+ "/p/" +:+ String ch rest /\ ch <> "/"%char /\ ch <> "?"%char.

Definition segment_end (rest : string) : Prop :=
  rest = EmptyString \/
  exists ch rest', rest = String ch rest' /\ (ch = "/"%char \/ ch = "?"%char).

Definition leftmost_segment (url seg : string) : Prop :=
  exists pre rest,
    url = pre +:+ "/p/" +:+ seg +:+ rest /\
    seg <> EmptyString /\ clean seg /\ segment_end rest /\
    forall pre', segment_start url pre' -> String.length pre <= String.length pre'.

Section dom_script_facts.

Import DomScript.

Lemma segment_clean (s : string) : clean (segment s).
Proof.
  unfold clean.
  induction s as [|a s IH]; intros c; cbn [segment String.list_ascii_of_string In]; [tauto|].
  destruct (Ascii.eqb a "/"%char) eqn:H1; [cbn; tauto|].
  destruct (Ascii.eqb a "?"%char) eqn:H2; [cbn; tauto|].
  cbn [orb String.list_ascii_of_string In]. intros [<-|Hin]; [|apply IH; exact Hin].
  split; intros ->; discriminate.
Qed.

Lemma segment_rest (s : string) :
  exists rest, s = segment s +:+ rest /\ segment_end rest.
Proof.
  induction s as [|a s (rest & Hs & Hend)]; cbn [segment].
  - exists EmptyString. split; [reflexivity | left; reflexivity].
  - destruct (Ascii.eqb_spec a "/"%char) as [->|H1]; cbn [orb].
    + exists (String "/"%char s). split; [reflexivity|]. right. eexists _, _.
      split; [reflexivity | left; reflexivity].
    + destruct (Ascii.eqb_spec a "?"%char) as [->|H2].
      * exists (String "?"%char s). split; [reflexivity|]. right. eexists _, _.
        split; [reflexivity | right; reflexivity].
      * exists rest. split; [|exact Hend].
        change (String a s = String a (segment s +:+ rest)). congruence.
Qed.

Lemma segment_empty (ch : Ascii.ascii) (rest : string) :
  segment (String ch rest) = EmptyString -> ch = "/"%char \/ ch = "?"%char.
Proof.
  cbn [segment].
  destruct (Ascii.eqb_spec ch "/"%char) as [->|_]; [left; reflexivity|].
  destruct (Ascii.eqb_spec ch "?"%char) as [->|_]; [right; reflexivity|].
  discriminate.
Qed.

Lemma prefix_post_path (url : string) :
  String.prefix "/p/" url = true <-> exists t, url = "/p/" +:+ t.
Proof.
  split.
  - destruct url as [|a [|b [|c t]]]; cbn [String.prefix];
      repeat (match goal with
              | |- context [Ascii.ascii_dec ?x ?y] => destruct (Ascii.ascii_dec x y)
              end); try discriminate.
    subst. intros _. exists t. reflexivity.
  - intros [t ->]. apply String.prefix_correct. destruct t; reflexivity.
Qed.

Lemma substring_all (t : string) : String.substring 0 (String.length t) t = t.
Proof.
  induction t as [|c t IH]; [reflexivity|].
  cbn [String.length String.substring]. rewrite IH. reflexivity.
Qed.

Lemma after_post_path (t : string) :
  String.substring 3 (String.length ("/p/" +:+ t) - 3) ("/p/" +:+ t) = t.
Proof.
  replace (String.length ("/p/" +:+ t) - 3) with (String.length t)
    by (simpl; symmetry; apply Nat.sub_0_r).
  change (String.substring 0 (String.length t) t = t). apply substring_all.
Qed.

(** Where the pattern does not match at the start of the link, a match
    of the link is a match of its tail. *)
Lemma segment_start_tail (a : Ascii.ascii) (url pre : string) :
  ~ segment_start (String a url) EmptyString ->
  segment_start (String a url) pre ->
  exists pre', pre = String a pre' /\ segment_start url pre'.
Proof.
  intros Hhere Hpre. destruct pre as [|b pre']; [contradiction|].
  destruct Hpre as (ch & rest & Heq & Hch). cbn [String.append] in Heq.
  injection Heq as <- Hurl. exists pre'. split; [reflexivity|].
  exists ch, rest. split; [exact Hurl | exact Hch].
Qed.

Lemma match_post_id_leftmost (url : string) :
  match match_post_id url with
  | Some seg => leftmost_segment url seg
  | None => forall pre, ~ segment_start url pre
  end.
Proof.
  induction url as [|a url IH].
  - cbn [match_post_id]. intros pre (ch & rest & Heq & _).
    destruct pre; discriminate.
  - assert (Htail : ~ segment_start (String a url) EmptyString ->
              match match_post_id url with
              | Some seg => leftmost_segment (String a url) seg
              | None => forall pre, ~ segment_start (String a url) pre
              end).
    { intros Hhere. destruct (match_post_id url) as [seg|].
      - destruct IH as (pre & rest & Heq & Hne & Hclean & Hend & Hleft).
        exists (String a pre), rest. split.
        { change (String a url = String a (pre +:+ "/p/" +:+ seg +:+ rest)). congruence. }
        split; [exact Hne|]. split; [exact Hclean|]. split; [exact Hend|].
        intros pre' Hpre'.
        destruct (segment_start_tail a url pre' Hhere Hpre') as (pre'' & -> & Hpre'').
        cbn [String.length]. specialize (Hleft pre'' Hpre''). lia.
      - intros pre Hpre.
        destruct (segment_start_tail a url pre Hhere Hpre) as (pre'' & -> & Hpre'').
        exact (IH pre'' Hpre''). }
    cbn [match_post_id].
    destruct (String.prefix "/p/" (String a url)) eqn:Hprefix.
    + apply prefix_post_path in Hprefix as [t Ht]. rewrite Ht, after_post_path.
      rewrite <- Ht.
      destruct (segment t) as [|b seg] eqn:Hseg.
      * apply Htail. intros (ch & rest & Heq & Hslash & Hquery).
        rewrite Ht in Heq. cbv [String.append] in Heq. injection Heq as Hthere. subst t.
        apply segment_empty in Hseg. tauto.
      * destruct (segment_rest t) as (rest & Hrest & Hend). rewrite Hseg in Hrest.
        exists EmptyString, rest. split.
        { change (String a url = "/p/" +:+ String b seg +:+ rest). rewrite <- Hrest. exact Ht. }
        split; [discriminate|]. split; [rewrite <- Hseg; apply segment_clean|].
        split; [exact Hend|]. intros pre' _. cbn [String.length]. lia.
    + apply Htail. intros (ch & rest & Heq & _).
      assert (String.prefix "/p/" (String a url) = true); [|congruence].
      apply prefix_post_path. eexists. exact Heq.
Qed.

(** The posts of the script and the indices of the cards they come from. *)
Lemma for_each_indices (now : nat -> string) (cards : list card) :
  forall index,
  exists indices : list nat,
    StronglySorted lt indices /\
    Forall (fun i => index <= i < index + length cards) indices /\
    Forall2 (fun i post =>
               exists c d, cards !! (i - index) = Some c /\
                           card_post i (now i) c = Some d /\ post = VDict d)
            indices (for_each index now cards).
Proof.
  induction cards as [|c cs IH]; intros index.
  - exists []. repeat split; constructor.
  - destruct (IH (S index)) as (indices & Hsorted & Hrange & Hposts).
    assert (Hshift : Forall2 (fun i post =>
               exists c0 d, (c :: cs) !! (i - index) = Some c0 /\
                            card_post i (now i) c0 = Some d /\ post = VDict d)
               indices (for_each (S index) now cs)).
    { clear -Hrange Hposts. induction Hposts as [|i post idxs ps (c0 & d & Hc & Hd & ->) _ IHp].
      - constructor.
      - inversion Hrange as [|? ? Hi Hr]; subst. constructor; [|apply IHp; exact Hr].
        exists c0, d. split; [|split; [exact Hd | reflexivity]].
        replace (i - index) with (S (i - S index)) by lia. exact Hc. }
    cbn [for_each length]. destruct (card_post index (now index) c) as [d|] eqn:Hcard.
    + exists (index :: indices). split; [|split].
      * constructor; [exact Hsorted|].
        eapply Forall_impl; [exact Hrange|]. cbn. intros; lia.
      * constructor; [lia|]. eapply Forall_impl; [exact Hrange|]. cbn. intros; lia.
      * constructor; [|exact Hshift].
        exists c, d. rewrite Nat.sub_diag. split; [reflexivity|]. split; [exact Hcard | reflexivity].
    + exists indices. split; [exact Hsorted|]. split; [|exact Hshift].
      eapply Forall_impl; [exact Hrange|]. cbn. intros; lia.
Qed.

Lemma card_post_fields (index : nat) (now : string) (c : card) (d : record) :
  card_post index now c = Some d ->
  throws c = false /\
  js_truthy (title_text c) = true /\ js_truthy (link_href c) = true /\
  d !! "id" = Some (VInt (Z.of_nat index + 1)) /\
  d !! "title" = Some (js_value (title_text c)) /\
  d !! "canonical_url" = Some (js_value (link_href c)) /\
  d !! "publication_id" = Some (VInt 0).
Proof.
  unfold card_post. destruct (throws c); [discriminate|].
  destruct (js_truthy (title_text c)); [|discriminate].
  destruct (js_truthy (link_href c)); [|discriminate].
  cbn [andb]. intros [= <-].
  do 3 (split; [reflexivity|]).
  split; [apply lookup_insert_eq|].
  split; [do 2 (rewrite lookup_insert_ne by discriminate); apply lookup_insert_eq|].
  split; [do 4 (rewrite lookup_insert_ne by discriminate); apply lookup_insert_eq|].
  rewrite lookup_insert_ne by discriminate. apply lookup_insert_eq.
Qed.

End dom_script_facts.

(** X16.  The script of the DOM strategy numbers its posts by the position
    of their card among all the cards found, not among the posts kept:
    the posts come from cards of increasing positions [i], a card gives a
    post only if its title and its link are not empty, and the post's
    [id] is [i + 1]; so ids are distinct and increasing, at most the
    number of cards, with a gap wherever a card is skipped. *)
Theorem dom_script_numbers_posts_by_card
    (now : nat -> string) (cards : list DomScript.card) :
  exists indices : list nat,
    StronglySorted lt indices /\
    Forall (fun i => i < length cards) indices /\
    Forall2 (fun i post =>
               exists c d, cards !! i = Some c /\ post = VDict d /\
                           DomScript.js_truthy (DomScript.title_text c) = true /\
                           DomScript.js_truthy (DomScript.link_href c) = true /\
                           d !! "id" = Some (VInt (Z.of_nat i + 1)) /\
                           d !! "title" = Some (DomScript.js_value (DomScript.title_text c)) /\
                           d !! "canonical_url"
                           = Some (DomScript.js_value (DomScript.link_href c)))
            indices (DomScript.script now cards).
Proof.
  destruct (for_each_indices now cards 0) as (indices & Hsorted & Hrange & Hposts).
  exists indices. split; [exact Hsorted|]. split.
  - eapply Forall_impl; [exact Hrange|]. cbn. intros; lia.
  - unfold DomScript.script. eapply Forall2_impl; [exact Hposts|].
    cbn. intros i post (c & d & Hc & Hd & ->).
    rewrite Nat.sub_0_r in Hc.
    destruct (card_post_fields i (now i) c d Hd) as (_ & Ht & Hl & Hid & Htitle & Hurl & _).
    exists c, d. repeat split; assumption.
Qed.

(** X17.  The [slug] of a post of the DOM strategy is the group of the
    leftmost match of [/\/p\/([^/?]+)/] in its link: the longest run of
    characters other than [/] and [?] that follows the first [/p/] which
    has such a character after it; it is the empty string exactly when
    the link has no such place. *)
Theorem dom_script_slug_is_path_segment
    (index : nat) (now : string) (c : DomScript.card) (d : record) :
  DomScript.card_post index now c = Some d ->
  exists url,
    DomScript.link_href c = Some url /\
    ((exists slug, leftmost_segment url slug /\ d !! "slug" = Some (VStr slug)) \/
     ((forall pre, ~ segment_start url pre) /\ d !! "slug" = Some (VStr EmptyString))).
Proof.
  unfold DomScript.card_post. destruct (DomScript.throws c); [discriminate|].
  destruct (DomScript.js_truthy (DomScript.title_text c)); [|discriminate].
  destruct (DomScript.link_href c) as [url|] eqn:Hlink; [|discriminate].
  destruct (DomScript.js_truthy (Some url)); [|discriminate].
  cbn [andb]. intros [= <-]. exists url. split; [reflexivity|].
  do 3 (rewrite lookup_insert_ne by discriminate). rewrite lookup_insert_eq.
  pose proof (match_post_id_leftmost url) as Hmatch.
  destruct (DomScript.match_post_id url) as [seg|].
  - left. exists seg. split; [exact Hmatch|].
    destruct Hmatch as (_ & _ & _ & Hne & _).
    destruct seg as [|a seg]; [contradiction | reflexivity].
  - right. split; [exact Hmatch | reflexivity].
Qed.

Lemma dom_script_slug_witness :
  let post :=
    default ∅ (DomScript.card_post 4 "2024-01-01T00:00:00.000Z"
                 (DomScript.mk_card (Some "https://a.substack.com/p/hello?r=1") (Some "Hello")
                    None None None None None false)) in
  (exists url,
     Some "https://a.substack.com/p/hello?r=1" = Some url /\
     ((exists slug, leftmost_segment url slug /\ post !! "slug" = Some (VStr slug)) \/
      ((forall pre, ~ segment_start url pre) /\ post !! "slug" = Some (VStr EmptyString)))) /\
  post !! "slug" = Some (VStr "hello").
Proof.
  cbv zeta. split.
  - destruct (DomScript.card_post 4 "2024-01-01T00:00:00.000Z"
                (DomScript.mk_card (Some "https://a.substack.com/p/hello?r=1") (Some "Hello")
                   None None None None None false)) as [d|] eqn:Hd.
    + exact (dom_script_slug_is_path_segment _ _ _ d Hd).
    + exfalso. revert Hd. unfold DomScript.card_post.
      cbn [DomScript.throws DomScript.title_text DomScript.link_href DomScript.js_truthy andb].
      discriminate.
  - vm_compute. reflexivity.
Defined.

(** ** PostFetcher: what enrichment overwrites, leaves alone, and when it
    does not return *)

Section enrich_more.

Import PostFetcher.

Variable fetch : nat -> value -> result record.
Variable posts : list nat.
Variable max_concurrent : Z.
Variable h : heap.

(** A record that no task fetches: it is not in the list, or has no
    permalink when [enrich_posts] is called. *)
Definition left_alone (post : nat) : Prop :=
  post ∉ posts \/ truthy (get (deref h post) "canonical_url" VNone) = false.

(** Along a run, the records left alone are as they were, and every task
    inside the semaphore works on a record that had a permalink. *)
Definition others_kept (p : pool) : Prop :=
  (forall post, left_alone post -> store p !! post = h !! post) /\
  (forall i url, running p !! i = Some url ->
     exists post, posts !! i = Some post /\ ~ left_alone post).

Lemma step_others_kept (ev : event) (p p' : pool) :
  others_kept p -> step fetch posts max_concurrent ev p = Some p' -> others_kept p'.
Proof.
  intros [Hkept Hrun]. destruct ev as [i|i]; cbn [step].
  - destruct (bool_decide (i = started p) && _); [|discriminate].
    destruct (posts !! i) as [post|] eqn:Hpost; [|discriminate]. cbn [mbind option_bind].
    destruct (store p !! post) as [r|] eqn:Hr; [|discriminate]. cbn [mbind option_bind].
    destruct (truthy (get r "canonical_url" VNone)) eqn:Hurl; intros [= <-];
      (split; [exact Hkept|]); cbn [running]; [|exact Hrun].
    intros j url. destruct (decide (j = i)) as [->|Hne].
    + rewrite lookup_insert_eq. intros _. exists post. split; [exact Hpost|].
      intros [Hout|Hno].
      * apply Hout. eapply list_elem_of_lookup_2. exact Hpost.
      * pose proof (Hkept post (or_intror Hno)) as Hsame.
        unfold deref in Hno. rewrite <- Hsame, Hr in Hno.
        change (default ∅ (Some r)) with r in Hno. congruence.
    + rewrite lookup_insert_ne by congruence. apply Hrun.
  - destruct (running p !! i) as [url|] eqn:Hurl; [|discriminate]. cbn [mbind option_bind].
    destruct (posts !! i) as [post|] eqn:Hpost; [|discriminate]. cbn [mbind option_bind].
    destruct (Hrun i url Hurl) as (post' & Hpost' & Hbusy).
    assert (post' = post) as -> by congruence.
    assert (Hlater : forall j url', delete i (running p) !! j = Some url' ->
                       exists post0, posts !! j = Some post0 /\ ~ left_alone post0).
    { intros j url' Hj. apply lookup_delete_Some in Hj as [_ Hj]. exact (Hrun j url' Hj). }
    destruct (fetch i url) as [content|e]; intros [= <-]; (split; [|exact Hlater]);
      cbn [store]; [|exact Hkept].
    intros a Ha. unfold update. rewrite lookup_alter_ne; [apply Hkept; exact Ha|].
    intros ->. exact (Hbusy Ha).
Qed.

Lemma steps_others_kept (sched : list event) :
  forall p p', others_kept p -> steps fetch posts max_concurrent sched p = Some p' ->
               others_kept p'.
Proof.
  induction sched as [|ev sched IH]; intros p p' Hp; cbn [steps].
  - intros [= <-]. exact Hp.
  - destruct (step fetch posts max_concurrent ev p) as [p1|] eqn:Hstep; [|discriminate].
    cbn [mbind option_bind]. apply IH. exact (step_others_kept ev p p1 Hp Hstep).
Qed.

(** With no permit no task enters the semaphore. *)
Lemma steps_without_permit (sched : list event) (p : pool) :
  (max_concurrent <= 0)%Z -> running p = ∅ -> 
  forall p', steps fetch posts max_concurrent sched p = Some p' -> sched = [] /\ p' = p.
Proof.
  intros Hmc Hrun p'. destruct sched as [|[i|i] sched]; cbn [steps step].
  - intros [= <-]. split; reflexivity.
  - rewrite Hrun. rewrite map_size_empty.
    destruct (Z.ltb_spec (Z.of_nat 0) max_concurrent) as [Hlt|_]; [cbn in Hlt; lia|].
    rewrite andb_false_r. discriminate.
  - rewrite Hrun, lookup_empty. discriminate.
Qed.

End enrich_more.

(** X18.  Under every interleaving of the fetches, and whatever the
    fetches return, [enrich_posts] changes no record but those of its
    list that had a permalink when it was called: a record without
    [canonical_url] (absent, [None] or empty) is left as it was, and so
    is everything else in the store. *)
Theorem enrich_posts_leaves_other_records
    (fetch : nat -> value -> result record) (posts : list nat) (max_concurrent : Z)
    (fetch_content : bool) (sched : list PostFetcher.event) (h h' : heap) (out : list nat) :
  PostFetcher.enrich_posts fetch posts max_concurrent fetch_content sched h = Some (out, h') ->
  forall post,
    post ∉ posts \/ truthy (get (deref h post) "canonical_url" VNone) = false ->
    h' !! post = h !! post.
Proof.
  unfold PostFetcher.enrich_posts. destruct fetch_content; cbn [negb].
  2: { intros [= _ <-] post _. reflexivity. }
  destruct (max_concurrent <? 0)%Z; [discriminate|].
  destruct (PostFetcher.steps fetch posts max_concurrent sched _) as [p|] eqn:Hsteps;
    [|discriminate].
  cbn [mbind option_bind].
  destruct (PostFetcher.collect posts p) as [out'|]; [|discriminate].
  cbn [mbind option_bind]. intros [= _ <-] post Hpost.
  assert (Hinit : others_kept posts h (PostFetcher.mk_pool h 0 ∅ ∅)).
  { split; [reflexivity|]. intros i url Hi. cbn in Hi. rewrite lookup_empty in Hi. discriminate. }
  destruct (steps_others_kept fetch posts max_concurrent h sched _ p Hinit Hsteps) as [Hkept _].
  apply Hkept. exact Hpost.
Qed.

Lemma enrich_posts_leaves_other_records_witness :
  let h : heap :=
    <[0 := {[ "canonical_url" := VStr "https://a.substack.com/p/x" ]}]>
      (<[1 := {[ "title" := VStr "no link" ]}]> ∅) in
  match PostFetcher.enrich_posts (fun _ _ => Ok {[ "body_html" := VStr "<p>x</p>" ]})
          [0; 1] 3 true
          [PostFetcher.Start 0; PostFetcher.Start 1; PostFetcher.Finish 0] h with
  | Some (out, h') => h' !! 1 = h !! 1
  | None => False
  end.
Proof.
  intros h.
  assert (Hreturns :
            match PostFetcher.enrich_posts
                    (fun _ _ => Ok ({[ "body_html" := VStr "<p>x</p>" ]} : record))
                    [0; 1] 3 true
                    [PostFetcher.Start 0; PostFetcher.Start 1; PostFetcher.Finish 0] h with
            | Some _ => true
            | None => false
            end = true) by (vm_compute; reflexivity).
  destruct (PostFetcher.enrich_posts _ _ _ _ _ h) as [[out h']|] eqn:Hrun; [|discriminate].
  apply (enrich_posts_leaves_other_records _ _ _ _ _ _ h' out Hrun 1).
  right. reflexivity.
Defined.

(** X19.  A semaphore without permits lets no task in: with
    [fetch_content] set, [max_concurrent <= 0] and at least one post,
    [enrich_posts] returns no list, under any schedule. *)
Theorem enrich_posts_without_permits_never_returns
    (fetch : nat -> value -> result record) (posts : list nat) (max_concurrent : Z)
    (sched : list PostFetcher.event) (h : heap) :
  (max_concurrent <= 0)%Z ->
  posts <> [] ->
  PostFetcher.enrich_posts fetch posts max_concurrent true sched h = None.
Proof.
  intros Hmc Hposts. unfold PostFetcher.enrich_posts. cbn [negb].
  destruct (max_concurrent <? 0)%Z; [reflexivity|].
  destruct (PostFetcher.steps fetch posts max_concurrent sched _) as [p|] eqn:Hsteps;
    [|reflexivity].
  apply steps_without_permit in Hsteps as [_ ->]; [|exact Hmc|reflexivity].
  cbn [mbind option_bind]. unfold PostFetcher.collect. cbn [PostFetcher.started].
  destruct posts as [|post rest]; [contradiction|].
  rewrite bool_decide_eq_false_2 by (cbn [length]; lia). reflexivity.
Qed.

Lemma enrich_posts_without_permits_witness :
  PostFetcher.enrich_posts (fun _ _ => Ok ∅) [0] 0 true
    [PostFetcher.Start 0; PostFetcher.Finish 0]
    {[ 0 := {[ "canonical_url" := VStr "https://a.substack.com/p/x" ]} ]}
  = None.
Proof.
  apply (enrich_posts_without_permits_never_returns (fun _ _ => Ok ∅) [0] 0).
  - lia.
  - discriminate.
Defined.

(** X20.  Enrichment can erase: when the page of a post embeds a post
    object without [wordcount], [_extract_content] still sets
    [wordcount] (to [None]), and the [post.update(content)] of
    [enrich_posts] overwrites the word count the search record had. *)
Theorem extracted_content_overwrites_wordcount
    (pg : PostFetcher.post_page) (data props page_props post : record)
    (h : heap) (address : nat) :
  PostFetcher.next_data pg = Ok (Some (VDict data)) ->
  data !! "props" = Some (VDict props) ->
  props !! "pageProps" = Some (VDict page_props) ->
  page_props !! "post" = Some (VDict post) ->
  post <> ∅ ->
  post !! "wordcount" = None ->
  is_Some (h !! address) ->
  PostFetcher._extract_content pg !! "wordcount" = Some VNone /\
  deref (update address (PostFetcher._extract_content pg) h) address !! "wordcount"
  = Some VNone.
Proof.
  intros Hpg Hdata Hprops Hpost Hne Hwc [r Hr].
  assert (Hcontent : exists content,
            PostFetcher.content_of_next_data pg = Ok content /\
            content !! "wordcount" = Some VNone).
  { unfold PostFetcher.content_of_next_data. rewrite Hpg. cbn [bind py_get].
    rewrite (get_present _ _ _ _ Hdata). cbn [bind py_get].
    rewrite (get_present _ _ _ _ Hprops). cbn [bind py_get].
    rewrite (get_present _ _ _ _ Hpost). cbn [bind py_get].
    replace (truthy (VDict post)) with true.
    2: { cbn [truthy]. symmetry. apply negb_true_iff, bool_decide_eq_false.
         intros Hsz. apply map_size_empty_iff in Hsz. exact (Hne Hsz). }
    eexists. split; [reflexivity|].
    unfold PostFetcher.secondary_keys. cbn [foldl].
    assert (Hcopy : forall key content,
              key <> "wordcount" ->
              PostFetcher.copy_if_set post key content !! "wordcount"
              = content !! "wordcount").
    { intros key content Hk. unfold PostFetcher.copy_if_set.
      destruct (post !! key) as [v|]; [|reflexivity].
      destruct (truthy v); [|reflexivity]. apply lookup_insert_ne. exact Hk. }
    rewrite !Hcopy by discriminate. rewrite lookup_insert_eq.
    unfold get. rewrite Hwc. reflexivity. }
  destruct Hcontent as (content & Hc & Hcw).
  assert (Hextract : PostFetcher._extract_content pg !! "wordcount" = Some VNone).
  { unfold PostFetcher._extract_content. rewrite Hc. cbn [catch].
    destruct (truthy (get content "body_html" VNone)); [exact Hcw|].
    destruct (PostFetcher.body_container pg) as [b|e]; [|exact Hcw].
    destruct (truthy b); [|exact Hcw].
    rewrite lookup_insert_ne by discriminate. exact Hcw. }
  split; [exact Hextract|].
  unfold deref, update. rewrite lookup_alter_eq, Hr. cbn [fmap option_fmap option_map default].
  apply lookup_union_Some_l. exact Hextract.
Qed.

Lemma extracted_content_overwrites_wordcount_witness :
  let pg := PostFetcher.mk_post_page
              (Ok (Some (VDict {[ "props" := VDict {[ "pageProps" :=
                 VDict {[ "post" := VDict {[ "body_html" := VStr "<p>x</p>" ]} ]} ]} ]})))
              (Ok VNone) in
  PostFetcher._extract_content pg !! "wordcount" = Some VNone /\
  deref (update 0 (PostFetcher._extract_content pg) {[ 0 := {[ "wordcount" := VInt 1200 ]} ]})
        0 !! "wordcount"
  = Some VNone.
Proof.
  intros pg.
  eapply (extracted_content_overwrites_wordcount pg _ _ _ {[ "body_html" := VStr "<p>x</p>" ]}).
  - reflexivity.
  - apply lookup_singleton_eq.
  - apply lookup_singleton_eq.
  - apply lookup_singleton_eq.
  - intros Hempty. apply (f_equal (fun m : record => m !! "body_html")) in Hempty.
    rewrite lookup_singleton_eq, lookup_empty in Hempty. discriminate.
  - apply lookup_singleton_ne. discriminate.
  - rewrite lookup_singleton_eq. eexists; reflexivity.
Defined.

(** ** Models: what [SubstackPost] accepts and what it holds *)

Section model_more.

Import Models.

Variable validate : validator.
Variable now : Z.

Definition names (fields : list field) : list string := (fun f : field => f.1.1) <$> fields.

Lemma mapM_named_value_raises (kwargs : record) (fields : list field) (ex : exn) :
  mapM (named_value validate now kwargs) fields = Raise ex ->
  ex = ValidationError /\
  exists f, f ∈ fields /\ field_value validate now kwargs f = Raise ValidationError.
Proof.
  induction fields as [|f fields IH]; cbn [mapM]; [discriminate|].
  unfold named_value at 1.
  destruct (field_value validate now kwargs f) as [v|ex'] eqn:Hf; cbn [bind].
  - destruct (mapM (named_value validate now kwargs) fields) as [vals|ex'']; cbn [bind];
      [discriminate|].
    intros [= ->]. destruct (IH eq_refl) as (-> & g & Hg & Hraise).
    split; [reflexivity|]. exists g. split; [right; exact Hg | exact Hraise].
  - intros [= ->].
    assert (ex = ValidationError) as ->.
    { revert Hf. unfold field_value. destruct f as [[name t] dflt].
      destruct (kwargs !! name) as [v|].
      - destruct (validate t v); [discriminate | congruence].
      - destruct dflt; try discriminate; congruence. }
    split; [reflexivity|]. exists f. split; [left | exact Hf].
Qed.

Lemma mapM_named_value_assigned (kwargs : record) (fields : list field) :
  NoDup (names fields) ->
  forall vals,
  mapM (named_value validate now kwargs) fields = Ok vals ->
  (forall f, f ∈ fields ->
     exists v, field_value validate now kwargs f = Ok v /\ assigned f.1.1 vals = Some v) /\
  (forall k, k ∉ names fields -> assigned k vals = None).
Proof.
  induction fields as [|f fields IH]; intros Hnd vals; cbn [mapM].
  - intros [= <-]. split; [intros f Hf; apply elem_of_nil in Hf; contradiction|].
    intros k _. reflexivity.
  - unfold named_value at 1.
    destruct (field_value validate now kwargs f) as [v|ex] eqn:Hf; cbn [bind]; [|discriminate].
    destruct (mapM (named_value validate now kwargs) fields) as [vals'|ex] eqn:Hrest;
      cbn [bind]; [|discriminate].
    intros [= <-]. unfold names in Hnd. rewrite fmap_cons in Hnd.
    apply NoDup_cons in Hnd as [Hfresh Hnd].
    destruct (IH Hnd vals' eq_refl) as [Hin Hout].
    split.
    + intros g Hg. apply elem_of_cons in Hg as [->|Hg].
      * exists v. split; [exact Hf|]. cbn [assigned fst snd].
        rewrite (Hout f.1.1 Hfresh). rewrite String.eqb_refl. reflexivity.
      * destruct (Hin g Hg) as (w & Hw & Ha). exists w. split; [exact Hw|].
        cbn [assigned]. rewrite Ha. reflexivity.
    + intros k Hk. unfold names in Hk. rewrite fmap_cons in Hk.
      apply not_elem_of_cons in Hk as [Hne Hk].
      cbn [assigned fst snd]. rewrite (Hout k Hk).
      destruct (String.eqb_spec f.1.1 k) as [Heq|_]; [congruence | reflexivity].
Qed.

(** A model built over fields of distinct names. *)
Lemma construct_fields_and_extras (fields : list field) (kwargs : record) :
  NoDup (names fields) ->
  match construct validate now fields kwargs with
  | Ok post =>
      (forall f, f ∈ fields ->
         exists v, field_value validate now kwargs f = Ok v /\ post !! f.1.1 = Some v) /\
      (forall k, k ∉ names fields -> post !! k = kwargs !! k)
  | Raise ex =>
      ex = ValidationError /\
      exists f, f ∈ fields /\ field_value validate now kwargs f = Raise ValidationError
  end.
Proof.
  intros Hnd. unfold construct. rewrite construct_values.
  destruct (mapM (named_value validate now kwargs) fields) as [vals|ex] eqn:Hvals; cbn [bind].
  - destruct (mapM_named_value_assigned kwargs fields Hnd vals Hvals) as [Hin Hout]. split.
    + intros f Hf. destruct (Hin f Hf) as (v & Hv & Ha). exists v. split; [exact Hv|].
      rewrite lookup_assign, Ha. reflexivity.
    + intros k Hk. rewrite lookup_assign, (Hout k Hk). reflexivity.
  - apply mapM_named_value_raises. exact Hvals.
Qed.

Lemma SubstackPost_names_distinct : NoDup (names SubstackPost_fields).
Proof.
  apply (bool_decide_eq_true_1 (NoDup (names SubstackPost_fields))).
  vm_compute. reflexivity.
Qed.

End model_more.

(** X21.  What a [SubstackPost] holds ([extra="allow"]): when it is built,
    every declared field has the validated value of the argument of that
    name, or its default when there is none, and every argument that is
    not a declared field is kept as given; when it is not built, the
    error is a validation error and some declared field is the cause. *)
Theorem SubstackPost_fields_and_extras
    (validate : Models.validator) (now : Z) (kwargs : record) :
  match Models.SubstackPost validate now kwargs with
  | Ok post =>
      (forall f, f ∈ Models.SubstackPost_fields ->
         exists v, Models.field_value validate now kwargs f = Ok v /\
                   post !! f.1.1 = Some v) /\
      (forall k, k ∉ names Models.SubstackPost_fields -> post !! k = kwargs !! k)
  | Raise ex =>
      ex = ValidationError /\
      exists f, f ∈ Models.SubstackPost_fields /\
                Models.field_value validate now kwargs f = Raise ValidationError
  end.
Proof.
  apply (construct_fields_and_extras validate now Models.SubstackPost_fields kwargs).
  apply SubstackPost_names_distinct.
Qed.

(** The fields declared without a default. *)
Definition required_names : list string :=
  ["keyword"; "id"; "publication_id"; "slug"; "title"; "canonical_url"; "post_date"].

Definition declared_required (f : Models.field) : bool :=
  match f.2 with
  | Models.Required => true
  | _ => false
  end.

Lemma required_are_declared (name : string) :
  name ∈ required_names ->
  exists t, (name, t, Models.Required) ∈ Models.SubstackPost_fields.
Proof.
  intros Hin. unfold required_names in Hin.
  repeat (apply elem_of_cons in Hin as [->|Hin]);
    [..|apply elem_of_nil in Hin; contradiction];
    eexists; apply list_elem_of_In; unfold Models.SubstackPost_fields;
    cbn [In]; repeat (first [left; reflexivity | right]).
Qed.

Lemma declared_are_required (f : Models.field) :
  f ∈ Models.SubstackPost_fields -> f.2 = Models.Required -> f.1.1 ∈ required_names.
Proof.
  intros Hf Hreq.
  assert (Hall : forallb (fun f => implb (declared_required f)
                                     (bool_decide (f.1.1 ∈ required_names)))
                         Models.SubstackPost_fields = true) by (vm_compute; reflexivity).
  rewrite forallb_forall in Hall. specialize (Hall f (proj1 (list_elem_of_In _ _) Hf)).
  unfold declared_required in Hall. rewrite Hreq in Hall. cbn [implb] in Hall.
  apply bool_decide_eq_true_1 in Hall. exact Hall.
Qed.

(** X22.  [SubstackPost] is built exactly when the seven fields declared
    without a default ([keyword], [id], [publication_id], [slug], [title],
    [canonical_url], [post_date]) are all given and every argument that is
    a declared field validates against its annotation. *)
Theorem SubstackPost_built_iff
    (validate : Models.validator) (now : Z) (kwargs : record) :
  is_ok (Models.SubstackPost validate now kwargs) = true <->
  (forall name, name ∈ required_names -> is_Some (kwargs !! name)) /\
  (forall name t dflt v,
     (name, t, dflt) ∈ Models.SubstackPost_fields ->
     kwargs !! name = Some v -> is_Some (validate t v)).
Proof.
  pose proof (SubstackPost_names_distinct) as Hnd.
  pose proof (construct_fields_and_extras validate now Models.SubstackPost_fields kwargs Hnd)
    as Hpost.
  change (Models.construct validate now Models.SubstackPost_fields kwargs)
    with (Models.SubstackPost validate now kwargs) in Hpost.
  destruct (Models.SubstackPost validate now kwargs) as [post|ex]; cbn [is_ok]; split.
  - intros _. destruct Hpost as [Hfields _]. split.
    + intros name Hname. destruct (required_are_declared name Hname) as [t Ht].
      destruct (Hfields _ Ht) as (v & Hv & _). revert Hv. unfold Models.field_value.
      destruct (kwargs !! name) as [w|]; [eexists; reflexivity | discriminate].
    + intros name t dflt v Hf Hv. destruct (Hfields _ Hf) as (w & Hw & _).
      revert Hw. unfold Models.field_value. rewrite Hv.
      destruct (validate t v) as [v'|]; [eexists; reflexivity | discriminate].
  - reflexivity.
  - discriminate.
  - intros [Hreq Hval]. exfalso.
    destruct Hpost as (_ & [[name t] dflt] & Hf & Hraise).
    revert Hraise. unfold Models.field_value.
    destruct (kwargs !! name) as [v|] eqn:Hv.
    + destruct (Hval name t dflt v Hf Hv) as [v' ->]. discriminate.
    + destruct dflt; try discriminate. intros _.
      pose proof (declared_are_required _ Hf eq_refl) as Hname. cbn [fst] in Hname.
      destruct (Hreq name Hname) as [w Hw]. congruence.
Qed.

(** ** SearchScraper: the listener, the keyword of the posts, the minimal
    post, a limiter without capacity *)

Section scraper_more.

Import Models SearchScraper.

Definition has_id (post : record) : Prop := truthy (get post "id" VNone) = true.

Lemma kept_posts_have_ids (l : list value) :
  Forall has_id
    (omap (fun post =>
             match post with
             | VDict d => if truthy (get d "id" VNone) then Some d else None
             | _ => None
             end) l).
Proof.
  induction l as [|v l IH]; [constructor|].
  cbn [omap list_omap].
  destruct v as [| | | | | | |d]; try exact IH.
  destruct (truthy (get d "id" VNone)) eqn:Hid; [|exact IH].
  constructor; [exact Hid | exact IH].
Qed.

Lemma handle_response_appends (r : response) :
  exists new,
    Forall has_id new /\
    forall captured_posts, handle_response captured_posts r = captured_posts ++ new.
Proof.
  assert (Hnone : exists new : list record,
            Forall has_id new /\
            forall captured_posts : list record, captured_posts = captured_posts ++ new).
  { exists []. split; [constructor|]. intros c. rewrite app_nil_r. reflexivity. }
  unfold handle_response.
  destruct (contains "api" (url r) || contains "search" (url r)); [|exact Hnone].
  destruct (contains "json" (default "" (content_type r))); [|exact Hnone].
  destruct (json r) as [data|ex]; [|exact Hnone].
  match goal with
  | |- exists new, _ /\ forall c, match ?posts with _ => _ end = _ => destruct posts
  end; try exact Hnone.
  eexists. split; [apply kept_posts_have_ids|]. intros c. reflexivity.
Qed.

Variable validate : validator.
Variable now : Z.
Hypothesis Hstr : forall s, validate TStr (VStr s) = Some (VStr s).



End scraper_more.

Section search_keyword_facts.

Import Models SearchScraper.




End search_keyword_facts.

(** X23.  The listener only appends to [captured_posts] and never looks at
    what the buffer holds: whatever responses arrive, the buffer keeps
    what it had, in order, and every record added has a truthy [id]
    (records met twice are added twice). *)
Theorem captured_posts_grow_with_ids
    (responses : list SearchScraper.response) (captured_posts : list record) :
  exists new,
    foldl SearchScraper.handle_response captured_posts responses = captured_posts ++ new /\
    Forall has_id new /\
    forall other,
      foldl SearchScraper.handle_response other responses = other ++ new.
Proof.
  revert captured_posts. induction responses as [|r responses IH]; intros captured_posts.
  - exists []. rewrite app_nil_r. split; [reflexivity|]. split; [constructor|].
    intros other. cbn. rewrite app_nil_r. reflexivity.
  - cbn [foldl].
    destruct (handle_response_appends r) as (first & Hids & Hany).
    destruct (IH (captured_posts ++ first)) as (rest & Hrest & Hrest_ids & Hrest_any).
    exists (first ++ rest). rewrite Hany. split; [|split].
    + rewrite Hrest, <- app_assoc. reflexivity.
    + apply Forall_app. split; assumption.
    + intros other. rewrite Hany, Hrest_any, <- app_assoc. reflexivity.
Qed.



(** The arguments that [_create_minimal_post] passes on. *)
Definition minimal_names : list string :=
  ["keyword"; "id"; "publication_id"; "title"; "slug"; "canonical_url"; "post_date";
   "type"; "audience"].

Lemma minimal_names_declared (k : string) :
  k ∈ minimal_names -> k ∈ names Models.SubstackPost_fields.
Proof.
  intros Hk.
  assert (Hall : forallb (fun n => bool_decide (n ∈ names Models.SubstackPost_fields))
                         minimal_names = true) by (vm_compute; reflexivity).
  rewrite forallb_forall in Hall.
  specialize (Hall k (proj1 (list_elem_of_In _ _) Hk)).
  apply bool_decide_eq_true_1 in Hall. exact Hall.
Qed.

(** X25.  The minimal post that [search] falls back to when a record does
    not validate keeps nine of the record's fields and nothing else:
    every other declared field has its default (so no body, no word
    count, no bylines even when the record had them, and [scrapedAt] is
    the time of the construction, not the stamp of the record), and no
    undeclared key of the record is carried over. *)
Theorem minimal_post_keeps_nine_fields
    (validate : Models.validator) (now : Z) (raw_post : record) (keyword : string)
    (post : record) :
  SearchScraper._create_minimal_post validate now raw_post keyword = Ok post ->
  (forall name t dflt,
     (name, t, dflt) ∈ Models.SubstackPost_fields -> name ∉ minimal_names ->
     match dflt with
     | Models.Required => False
     | Models.Default d => post !! name = Some d
     | Models.DefaultUtcnow => post !! name = Some (VDatetime now)
     end) /\
  (forall k, k ∉ names Models.SubstackPost_fields -> post !! k = None).
Proof.
  unfold SearchScraper._create_minimal_post.
  match goal with
  | |- Models.SubstackPost validate now ?kw = _ -> _ => set (kwargs := kw)
  end.
  assert (Hkw : forall k, k ∉ minimal_names -> kwargs !! k = None).
  { intros k Hk. subst kwargs.
    rewrite !lookup_insert_ne; [apply lookup_empty|..];
      intros <-; apply Hk; unfold minimal_names; set_solver. }
  intros Hpost.
  pose proof (construct_fields_and_extras validate now Models.SubstackPost_fields kwargs
                SubstackPost_names_distinct) as Hfields.
  change (Models.construct validate now Models.SubstackPost_fields kwargs)
    with (Models.SubstackPost validate now kwargs) in Hfields.
  rewrite Hpost in Hfields. destruct Hfields as [Hin Hout]. split.
  - intros name t dflt Hf Hname. destruct (Hin _ Hf) as (v & Hv & Hlook).
    cbn [fst] in Hlook. revert Hv. unfold Models.field_value. rewrite (Hkw name Hname).
    destruct dflt; [discriminate | intros [= <-]; exact Hlook | intros [= <-]; exact Hlook].
  - intros k Hk. rewrite (Hout k Hk). apply Hkw.
    intros Hmin. exact (Hk (minimal_names_declared k Hmin)).
Qed.

Lemma minimal_post_keeps_nine_fields_witness :
  match SearchScraper._create_minimal_post Models.exact_types 7
          (<["body_html" := VStr "<p>text</p>"]>
             (<["my_note" := VStr "kept?"]>
                (minimal_record 1 1 "Title" "slug" "https://a.substack.com/p/slug"
                   (VStr "2025-01-01T10:00:00.000Z"))))
          "ai" with
  | Ok post =>
      post !! "body_html" = Some VNone /\
      post !! "scrapedAt" = Some (VDatetime 7) /\
      post !! "my_note" = None
  | Raise _ => False
  end.
Proof.
  destruct (SearchScraper._create_minimal_post Models.exact_types 7
              (<["body_html" := VStr "<p>text</p>"]>
                 (<["my_note" := VStr "kept?"]>
                    (minimal_record 1 1 "Title" "slug" "https://a.substack.com/p/slug"
                       (VStr "2025-01-01T10:00:00.000Z"))))
              "ai") as [post|ex] eqn:Hpost.
  - destruct (minimal_post_keeps_nine_fields _ _ _ _ post Hpost) as [Hfields Hextras].
    split; [|split].
    + apply (Hfields "body_html" (Models.TOpt Models.TStr) (Models.Default VNone)).
      * apply list_elem_of_In. unfold Models.SubstackPost_fields, Models.opt.
        cbn [In]. repeat (first [left; reflexivity | right]).
      * apply (bool_decide_eq_false_1 ("body_html" ∈ minimal_names)).
        vm_compute. reflexivity.
    + apply (Hfields "scrapedAt" Models.TDatetime Models.DefaultUtcnow).
      * apply list_elem_of_In. unfold Models.SubstackPost_fields.
        cbn [In]. repeat (first [left; reflexivity | right]).
      * apply (bool_decide_eq_false_1 ("scrapedAt" ∈ minimal_names)).
        vm_compute. reflexivity.
    + apply Hextras.
      apply (bool_decide_eq_false_1 ("my_note" ∈ names Models.SubstackPost_fields)).
      vm_compute. reflexivity.
  - revert Hpost.
    unfold SearchScraper._create_minimal_post, Models.SubstackPost, Models.construct.
    rewrite construct_values. eval_field_values. cbn [bind]. discriminate.
Defined.

(** X26.  A limiter built without capacity fails every search before a
    page is opened: [search_multiple] then returns one empty result per
    keyword, in order, and nothing else. *)
Theorem search_multiple_without_capacity
    (fuel : nat) (M : Z) (ffc : bool) (envs : nat -> SearchScraper.env)
    (C W : Z) (keywords : list string) (limit : Z) (fc : option bool) :
  (C <= 0)%Z ->
  SearchScraper.search_multiple fuel M ffc envs (RateLimiter.init C W) keywords limit fc
  = Some (imap (fun k keyword =>
                  SearchScraper.empty_result keyword
                    (SearchScraper.result_scraped_at (envs k)))
               keywords).
Proof.
  intros HC. revert envs. induction keywords as [|keyword keywords IH]; intros envs.
  - reflexivity.
  - cbn [SearchScraper.search_multiple]. unfold SearchScraper.search at 1.
    assert (Hacq : RateLimiter.acquire (SearchScraper.acquire_now (envs 0))
                     (SearchScraper.acquire_now' (envs 0)) (RateLimiter.init C W)
                   = Raise IndexError).
    { unfold RateLimiter.acquire, RateLimiter.init.
      cbn [RateLimiter.requests RateLimiter.max_requests RateLimiter.window
           RateLimiter.evict length].
      destruct (Z.leb_spec C (Z.of_nat 0)) as [_|Hlt]; [reflexivity | cbn in Hlt; lia]. }
    rewrite Hacq. cbn [mbind option_bind].
    rewrite (IH (fun k => envs (S k))). cbn [mbind option_bind].
    reflexivity.
Qed.

Lemma search_multiple_without_capacity_witness :
  SearchScraper.search_multiple 10 3 true (fun _ => sample_env) (RateLimiter.init 0 60)
    ["rust"; "ai"] 5 None
  = Some (imap (fun k keyword =>
                  SearchScraper.empty_result keyword
                    (SearchScraper.result_scraped_at ((fun _ => sample_env) k)))
               ["rust"; "ai"]).
Proof.
  apply (search_multiple_without_capacity 10 3 true (fun _ => sample_env) 0 60
           ["rust"; "ai"] 5 None).
  lia.
Defined.

(** ** JsonWriter: the shape of a sanitized file name *)

Section sanitize_facts.

Import JsonWriter.
#[local] Open Scope N_scope.

Fixpoint no_double (s : list N) : bool :=
  match s with
  | [] => true
  | c :: s' =>
      match s' with
      | c' :: _ => negb ((c =? underscore) && (c' =? underscore)) && no_double s'
      | [] => true
      end
  end.

Lemma no_double_lookup (s : list N) :
  no_double s = true ->
  forall i : nat, s !! i = Some underscore -> s !! S i <> Some underscore.
Proof.
  induction s as [|c s IH]; intros Hnd i; [rewrite lookup_nil; discriminate|].
  cbn [no_double] in Hnd. destruct s as [|c' s']; [destruct i; discriminate|].
  apply andb_true_iff in Hnd as [Hpair Hrest].
  destruct i as [|i].
  - cbn. intros [= ->] [= ->]. discriminate.
  - exact (IH Hrest i).
Qed.

Lemma collapse_head (s : list N) : head (collapse s) = head s.
Proof.
  induction s as [|c s IH]; [reflexivity|]. cbn [collapse].
  destruct (N.eqb_spec c underscore) as [->|_]; [|reflexivity].
  destruct s as [|c' s']; [reflexivity|].
  destruct (N.eqb_spec c' underscore) as [->|_]; [|reflexivity].
  rewrite IH. reflexivity.
Qed.

Lemma collapse_no_double (s : list N) : no_double (collapse s) = true.
Proof.
  induction s as [|c s IH]; [reflexivity|]. cbn [collapse].
  assert (Hkeep : forall c0, negb ((c0 =? underscore) && default false
                               ((fun c' => c' =? underscore) <$> head s)) = true ->
                  no_double (c0 :: collapse s) = true).
  { intros c0 Hc0. cbn [no_double]. pose proof (collapse_head s) as Hh.
    destruct (collapse s) as [|d ds]; [reflexivity|].
    destruct s as [|c' s']; [discriminate|]. cbn in Hh. injection Hh as ->.
    cbn in Hc0. rewrite Hc0. exact IH. }
  destruct (N.eqb_spec c underscore) as [->|Hc].
  - destruct s as [|c' s']; [reflexivity|].
    destruct (N.eqb_spec c' underscore) as [->|Hc']; [exact IH|].
    apply Hkeep. cbn. apply N.eqb_neq in Hc'. rewrite Hc'. reflexivity.
  - apply Hkeep. apply N.eqb_neq in Hc. rewrite Hc. reflexivity.
Qed.

Lemma collapse_Forall (P : N -> Prop) (s : list N) :
  Forall P s -> Forall P (collapse s).
Proof.
  induction s as [|c s IH]; intros Hs; [constructor|].
  inversion Hs as [|? ? Hc Hrest]; subst. cbn [collapse].
  destruct (c =? underscore).
  - destruct s as [|c' s']; [exact Hs|].
    destruct (c' =? underscore); [apply IH; exact Hrest|].
    constructor; [exact Hc | apply IH; exact Hrest].
  - constructor; [exact Hc | apply IH; exact Hrest].
Qed.

Lemma lstrip_suffix (s : list N) : exists k : nat, lstrip s = drop k s.
Proof.
  induction s as [|c s [k IH]]; [exists 0%nat; reflexivity|]. cbn [lstrip].
  destruct (c =? underscore); [exists (S k); exact IH | exists 0%nat; reflexivity].
Qed.

Lemma lstrip_head (s : list N) : head (lstrip s) <> Some underscore.
Proof.
  induction s as [|c s IH]; [discriminate|]. cbn [lstrip].
  destruct (N.eqb_spec c underscore) as [_|Hc]; [exact IH|].
  cbn. congruence.
Qed.

Lemma rstrip_prefix (s : list N) : exists k : nat, rstrip s = take k s.
Proof.
  induction s as [|c s [k IH]]; [exists 0%nat; reflexivity|]. cbn [rstrip].
  destruct (rstrip s) as [|d ds] eqn:Hr.
  - destruct (c =? underscore); [exists 0%nat; reflexivity|].
    exists (S k). cbn [take]. rewrite <- IH. reflexivity.
  - exists (S k). cbn [take]. rewrite <- IH. reflexivity.
Qed.

Lemma sanitized_is_a_window (alnum : N -> bool) (text : list N) :
  exists (j k : nat),
    _sanitize_filename alnum text
    = take k (drop j (collapse (replace_special alnum text))).
Proof.
  unfold _sanitize_filename, strip.
  destruct (lstrip_suffix (collapse (replace_special alnum text))) as [j Hj].
  destruct (rstrip_prefix (lstrip (collapse (replace_special alnum text)))) as [k Hk].
  exists j, (min 50 k). rewrite Hk, Hj, take_take. reflexivity.
Qed.

End sanitize_facts.

(** X27.  A sanitized file name has at most 50 characters, each of them
    alphanumeric, an underscore or a hyphen; it never has two underscores
    in a row and never starts with one. *)
Theorem sanitized_filename_shape (alnum : N -> bool) (text : list N) :
  let name := JsonWriter._sanitize_filename alnum text in
  length name <= 50 /\
  Forall (fun c => alnum c = true \/ c = JsonWriter.underscore \/ c = JsonWriter.hyphen) name /\
  (forall i, name !! i = Some JsonWriter.underscore ->
             name !! S i <> Some JsonWriter.underscore) /\
  head name <> Some JsonWriter.underscore.
Proof.
  cbn zeta. split; [|split; [|split]].
  - unfold JsonWriter._sanitize_filename. rewrite length_take. lia.
  - destruct (sanitized_is_a_window alnum text) as (j & k & ->).
    assert (Hall : Forall (fun c => alnum c = true \/ c = JsonWriter.underscore
                                    \/ c = JsonWriter.hyphen)
                          (JsonWriter.replace_special alnum text)).
    { unfold JsonWriter.replace_special. apply Forall_fmap, Forall_forall.
      intros c _. cbn. unfold JsonWriter.word.
      destruct (alnum c) eqn:Ha; cbn [orb]; [left; exact Ha|].
      destruct (N.eqb_spec c JsonWriter.underscore) as [->|_]; cbn [orb];
        [right; left; reflexivity|].
      destruct (N.eqb_spec c JsonWriter.hyphen) as [->|_];
        [right; right; reflexivity | right; left; reflexivity]. }
    apply Forall_take, Forall_drop.
    apply collapse_Forall. exact Hall.
  - destruct (sanitized_is_a_window alnum text) as (j & k & ->).
    intros i Hi Hnext.
    apply lookup_take_Some in Hi as [Hi _]. apply lookup_take_Some in Hnext as [Hnext _].
    rewrite lookup_drop in Hi. rewrite lookup_drop in Hnext.
    replace (j + S i) with (S (j + i)) in Hnext by lia.
    exact (no_double_lookup _ (collapse_no_double _) _ Hi Hnext).
  - unfold JsonWriter._sanitize_filename, JsonWriter.strip.
    set (s := JsonWriter.collapse _).
    pose proof (lstrip_head s) as Hhead.
    destruct (rstrip_prefix (JsonWriter.lstrip s)) as [k ->].
    rewrite take_take.
    destruct (JsonWriter.lstrip s) as [|c cs]; [rewrite take_nil; discriminate|].
    destruct (min 50 k); [discriminate | exact Hhead].
Qed.

(** X28.  The length is cut after the underscores are trimmed, so a
    sanitized file name can end with an underscore: it does whenever the
    trimmed text has one as its 50th character. *)
Theorem sanitized_filename_may_end_with_underscore (alnum : N -> bool) (text : list N) :
  JsonWriter.strip (JsonWriter.collapse (JsonWriter.replace_special alnum text)) !! 49
  = Some JsonWriter.underscore ->
  last (JsonWriter._sanitize_filename alnum text) = Some JsonWriter.underscore.
Proof.
  intros H49. unfold JsonWriter._sanitize_filename.
  set (s := JsonWriter.strip _) in *.
  rewrite last_lookup, length_take.
  assert (49 < length s) by (eapply lookup_lt_Some; exact H49).
  replace (Nat.pred (50 `min` length s)) with 49 by lia.
  rewrite lookup_take_lt by lia. exact H49.
Qed.

Lemma sanitized_filename_may_end_with_underscore_witness :
  last (JsonWriter._sanitize_filename (fun c => (97 <=? c)%N && (c <=? 122)%N)
          (replicate 49 97%N ++ [32%N; 97%N]))
  = Some JsonWriter.underscore.
Proof.
  apply (sanitized_filename_may_end_with_underscore
           (fun c => (97 <=? c)%N && (c <=? 122)%N) (replicate 49 97%N ++ [32%N; 97%N])).
  vm_compute. reflexivity.
Defined.

(** ** Commands: the search loop of the command line *)

Section commands_facts.

Import Models SearchScraper.

(** The outcomes of the searches of a run over [keywords], the limiter
    passed from one search to the next. *)
Fixpoint outcomes (fuel : nat) (M : Z) (ffc : bool) (envs : nat -> env)
    (rl : RateLimiter.t) (keywords : list string) (limit : Z) (fc : option bool)
    : option (list (result SearchResult)) :=
  match keywords with
  | [] => Some []
  | keyword :: keywords' =>
      match search fuel M ffc (envs 0) rl keyword limit fc with
      | (_, None) => None
      | (rl', Some outcome) =>
          rest ← outcomes fuel M ffc (fun k => envs (S k)) rl' keywords' limit fc;
          Some (outcome :: rest)
      end
  end.

(** What [search_multiple] makes of the outcomes: an empty result in the
    place of a search that raised. *)
Fixpoint padded (envs : nat -> env) (keywords : list string)
    (outs : list (result SearchResult)) : list SearchResult :=
  match keywords, outs with
  | keyword :: keywords', out :: outs' =>
      match out with
      | Ok result => result
      | Raise _ => empty_result keyword (result_scraped_at (envs 0))
      end :: padded (fun k => envs (S k)) keywords' outs'
  | _, _ => []
  end.

(** What the command line makes of them: the results of the searches that
    returned. *)
Definition returned_results (outs : list (result SearchResult)) : list SearchResult :=
  omap (fun out => match out with Ok result => Some result | Raise _ => None end) outs.

End commands_facts.

(** X29.  The command line and [search_multiple] run the same searches,
    with the limiter passed along in the same way, and differ in what
    they make of a search that raises: [search_multiple] puts an empty
    result in its place, the loop of [_search_async] skips it, so its
    results can be fewer than the keywords. *)
Theorem command_line_skips_failed_searches
    (fuel : nat) (M : Z) (envs : nat -> SearchScraper.env) (rl : RateLimiter.t)
    (keywords : list string) (limit : Z) (fetch_content : bool) :
  let outs := outcomes fuel M fetch_content envs rl keywords limit (Some fetch_content) in
  SearchScraper.search_multiple fuel M fetch_content envs rl keywords limit
    (Some fetch_content) = padded envs keywords <$> outs /\
  Commands.search_loop fuel M envs rl keywords limit fetch_content
  = returned_results <$> outs /\
  (forall outs', outs = Some outs' -> length outs' = length keywords).
Proof.
  cbn zeta. revert envs rl. induction keywords as [|keyword keywords IH]; intros envs rl.
  - repeat split. intros outs' [= <-]. reflexivity.
  - cbn [SearchScraper.search_multiple Commands.search_loop outcomes].
    destruct (SearchScraper.search fuel M fetch_content (envs 0) rl keyword limit
                (Some fetch_content)) as [rl' [outcome|]]; [|repeat split; discriminate].
    destruct (IH (fun k => envs (S k)) rl') as (Hmultiple & Hloop & Hlen).
    rewrite Hmultiple, Hloop.
    destruct (outcomes fuel M fetch_content (fun k => envs (S k)) rl' keywords limit
                (Some fetch_content)) as [rest|].
    + cbn [mbind option_bind fmap option_fmap option_map].
      split; [|split].
      * destruct outcome; reflexivity.
      * destruct outcome; reflexivity.
      * intros outs' [= <-]. cbn [length]. rewrite (Hlen rest eq_refl). reflexivity.
    + cbn [mbind option_bind fmap option_fmap option_map].
      split; [destruct outcome; reflexivity|]. split; [reflexivity | discriminate].
Qed.

(** X30.  [_search_async] releases the browser on every path: when it
    returns and the calls of [stop] do not fail, the manager is stopped
    whatever the searches did, and also when the start or the launch
    failed; the calls made are those of one session, cut where the start
    failed. *)
Theorem command_line_releases_browser
    (fails : nat -> bool) (fuel : nat) (M : Z) (envs : nat -> SearchScraper.env)
    (C W : Z) (keywords : list string) (limit : Z) (fetch_content : bool)
    (outcome : result (list Models.SearchResult))
    (browser : BrowserManager.t) (w : BrowserManager.world) :
  Commands._search_async fails fuel M envs C W keywords limit fetch_content
  = Some (outcome, browser, w) ->
  (forall n, 2 <= n -> fails n = false) ->
  BrowserManager.stopped browser /\
  (if fails 0 then
     outcome = Raise PlaywrightError /\ w = [BrowserManager.PlaywrightStart]
   else if fails 1 then
     outcome = Raise PlaywrightError /\
     w = [BrowserManager.PlaywrightStart; BrowserManager.ChromiumLaunch;
          BrowserManager.PlaywrightStop]
   else
     is_ok outcome = true /\
     w = [BrowserManager.PlaywrightStart; BrowserManager.ChromiumLaunch;
          BrowserManager.BrowserClose; BrowserManager.PlaywrightStop]).
Proof.
  intros Hrun Hstop. revert Hrun. unfold Commands._search_async.
  unfold BrowserManager.start, BrowserManager.init.
  cbn [BrowserManager._browser BrowserManager._playwright length app].
  destruct (fails 0).
  - cbn [mbind option_bind]. unfold BrowserManager.stop.
    cbn [BrowserManager._browser BrowserManager._playwright].
    intros [= <- <- <-]. repeat split.
  - destruct (fails 1).
    + cbn [mbind option_bind]. unfold BrowserManager.stop.
      cbn [BrowserManager._browser BrowserManager._playwright length app].
      rewrite (Hstop 2) by lia. intros [= <- <- <-]. repeat split.
    + destruct (Commands.search_loop _ _ _ _ _ _ _) as [all_results|];
        cbn [mbind option_bind]; [|discriminate].
      unfold BrowserManager.stop.
      cbn [BrowserManager._browser BrowserManager._playwright length app].
      rewrite (Hstop 2) by lia.
      cbn [BrowserManager._browser BrowserManager._playwright length app].
      rewrite (Hstop 3) by lia. intros [= <- <- <-]. repeat split.
Qed.

Lemma command_line_releases_browser_witness :
  match Commands._search_async (fun n => Nat.eqb n 1) 10 3 (fun _ => sample_env) 10 60
          ["ai"] 2 false with
  | Some (outcome, browser, w) =>
      BrowserManager.stopped browser /\
      outcome = Raise PlaywrightError /\
      w = [BrowserManager.PlaywrightStart; BrowserManager.ChromiumLaunch;
           BrowserManager.PlaywrightStop]
  | None => False
  end.
Proof.
  destruct (Commands._search_async (fun n => Nat.eqb n 1) 10 3 (fun _ => sample_env) 10 60
              ["ai"] 2 false) as [[[outcome browser] w]|] eqn:Hrun.
  - apply (command_line_releases_browser (fun n => Nat.eqb n 1) 10 3 (fun _ => sample_env)
             10 60 ["ai"] 2 false outcome browser w Hrun).
    intros n Hn. apply Nat.eqb_neq. lia.
  - revert Hrun. unfold Commands._search_async, BrowserManager.start, BrowserManager.stop.
    cbn. discriminate.
Defined.
